(** * Receiver.cpp: the receiving side of a multi-port file transfer

    A shallow embedding of [src/Receiver.cpp]: the two framing helpers
    [readAtLeast] and [readAtMost], the worker [Receiver::receiveOne], the
    progress tracker [Receiver::progressTracker] and the session operations
    [Receiver::start] and [Receiver::finish].

    Machine integers are kept as [Z]; a conversion to [size_t] is written
    [u64], a conversion to [ssize_t] / [int64_t] is written [s64].  Signed
    arithmetic is left exact (signed overflow has no defined result in C++).
    Everything the operating system decides (what a [read] delivers, whether a
    file opens) is an explicit script that the model consumes call by call. *)

From Stdlib Require Import ZArith List Lia Bool.
Import ListNotations.
Local Open Scope Z_scope.

Set Implicit Arguments.

(** ** Machine integers *)

Module Ints.

Definition two64 : Z := 2 ^ 64.
Definition two63 : Z := 2 ^ 63.

(** conversion to an unsigned 64-bit integer ([size_t]) *)
Definition u64 (z : Z) : Z := z mod two64.

(** conversion to a signed 64-bit integer ([ssize_t], [int64_t]) *)
Definition s64 (z : Z) : Z := (z + two63) mod two64 - two63.

(** conversion to a [char] (signed, 8 bits) *)
Definition s8 (z : Z) : Z := (z + 128) mod 256 - 128.

Definition len {A} (l : list A) : Z := Z.of_nat (length l).

End Ints.
Export Ints.

(** ** Outcomes of code that can abort

    [CHECK] and [WDT_CHECK] abort the process when their condition fails;
    loops of the model that run on fuel report when it ran out. *)

Inductive run (A : Type) : Type :=
| Val (a : A)
| CheckFailed
| OutOfFuel.
Arguments CheckFailed {A}.
Arguments OutOfFuel {A}.

(** ** The socket

    [ServerSocket.h] is not part of the sources; the worker uses [listen],
    [acceptNextConnection], [read], [write] and [closeCurrentConnection].
    What the network does is a script: the result of each [listen], the
    result of each accept together with the byte stream of the accepted
    connection, and for a connection the sequence of segments and read errors
    the kernel will hand out.  A stream that has run dry is at end of file. *)

Inductive rd_event : Type :=
| Bytes (bs : list Z)        (* a segment; the empty segment is an end of file *)
| Fail (e : positive).       (* a read error: [read] returns [- e] *)

Record ServerSocket : Type := mkSocket {
  getListenFd : Z;                             (* descriptor of the listening socket *)
  getFd : Z;                                   (* descriptor of the accepted connection *)
  listenScript : nat -> Z;                     (* ErrorCode of the n-th listen() *)
  listenCalls : nat;
  acceptScript : nat -> Z * list rd_event;     (* ErrorCode and stream of the n-th accept *)
  acceptCalls : nat;
  incoming : list rd_event;                    (* what the current connection still delivers *)
  sent : list (list Z);                        (* buffers handed to write(), oldest first *)
  closedConnections : nat
}.

Definition set_incoming (s : ServerSocket) (i : list rd_event) : ServerSocket :=
  mkSocket (getListenFd s) (getFd s) (listenScript s) (listenCalls s)
           (acceptScript s) (acceptCalls s) i (sent s) (closedConnections s).

(** [s.read(p, count)]: the byte count returned, the bytes delivered, the
    socket afterwards.  At most [count] bytes of the segment at the head are
    delivered; what is left of it stays at the head. *)
Definition read (s : ServerSocket) (count : Z) : Z * list Z * ServerSocket :=
  match incoming s with
  | [] => (0, [], s)
  | Fail e :: rest => (Z.neg e, [], set_incoming s rest)
  | Bytes bs :: rest =>
      let k := Z.min count (len bs) in
      let left := skipn (Z.to_nat k) bs in
      (k, firstn (Z.to_nat k) bs,
       set_incoming s (match left with [] => rest | _ => Bytes left :: rest end))
  end.

(** [s.write(p, n)] with the [n] bytes at [p]; the worker ignores its result. *)
Definition write (s : ServerSocket) (bs : list Z) : ServerSocket :=
  mkSocket (getListenFd s) (getFd s) (listenScript s) (listenCalls s)
           (acceptScript s) (acceptCalls s) (incoming s) (sent s ++ [bs])
           (closedConnections s).

Definition listen (s : ServerSocket) : Z * ServerSocket :=
  (listenScript s (listenCalls s),
   mkSocket (getListenFd s) (getFd s) (listenScript s) (S (listenCalls s))
            (acceptScript s) (acceptCalls s) (incoming s) (sent s)
            (closedConnections s)).

(** the accepted connection, when there is one, becomes the current one *)
Definition acceptNextConnection (s : ServerSocket) : Z * ServerSocket :=
  let '(code, stream) := acceptScript s (acceptCalls s) in
  (code,
   mkSocket (getListenFd s) (getFd s) (listenScript s) (listenCalls s)
            (acceptScript s) (S (acceptCalls s)) stream (sent s)
            (closedConnections s)).

Definition closeCurrentConnection (s : ServerSocket) : ServerSocket :=
  mkSocket (getListenFd s) (getFd s) (listenScript s) (listenCalls s)
           (acceptScript s) (acceptCalls s) [] (sent s)
           (S (closedConnections s)).

(** A [read] returns an [ssize_t]: the value of a read error is not below
    the least one. *)
Definition fits (ev : rd_event) : Prop :=
  match ev with
  | Fail e => Z.pos e <= two63
  | Bytes _ => True
  end.

Definition stream_ok (i : list rd_event) : Prop := Forall fits i.

(** ** The receive buffer

    [char buf[bufferSize]] is a list of that length; a pointer into it is the
    list and an index.  [store buf pos bs] is what a [read] or a [memmove]
    leaves in the buffer when it puts [bs] at index [pos]; the list keeps its
    length. *)

Definition store (buf : list Z) (pos : Z) (bs : list Z) : list Z :=
  let p := Z.to_nat pos in
  let room := (length buf - p)%nat in
  firstn p buf ++ firstn room bs ++ skipn (p + length bs) buf.

(** [buf[pos]]; past the end of the buffer the model reads 0 *)
Definition load (buf : list Z) (pos : Z) : Z := nth (Z.to_nat pos) buf 0.

(** the [n] bytes at [buf + pos] *)
Definition slice (buf : list Z) (pos n : Z) : list Z :=
  firstn (Z.to_nat n) (skipn (Z.to_nat pos) buf).

(** ** readAtLeast and readAtMost (Receiver.cpp, lines 28-72) *)

(** total size of a stream: an upper bound on the number of reads that
    deliver something *)
Fixpoint stream_size (i : list rd_event) : nat :=
  match i with
  | [] => O
  | Bytes bs :: rest => S (length bs + stream_size rest)
  | Fail _ :: rest => S (stream_size rest)
  end.

(** The loop [while (len < atLeast)] of [readAtLeast].  [base] is the index
    that the pointer argument [buf] designates in the worker's buffer.  The
    function returns a [size_t]: both [return len] and [return n] convert. *)
Fixpoint readAtLeast_loop (fuel : nat) (s : ServerSocket) (buf : list Z)
         (base max atLeast len : Z) : run (Z * ServerSocket * list Z) :=
  if len <? atLeast then
    match fuel with
    | O => OutOfFuel
    | S fuel' =>
        let '(n, got, s') := read s (u64 (max - len)) in
        if n <? 0 then
          Val (if len =? 0 then u64 n else u64 len, s', buf)
        else if n =? 0 then
          Val (u64 len, s', buf)
        else
          readAtLeast_loop fuel' s' (store buf (base + len) got)
                           base max atLeast (len + n)
    end
  else Val (u64 len, s, buf).

Definition readAtLeast_fuel (fuel : nat) (s : ServerSocket) (buf : list Z)
           (base max atLeast len : Z) : run (Z * ServerSocket * list Z) :=
  if len <? 0 then CheckFailed
  else if atLeast <? 0 then CheckFailed
  else readAtLeast_loop fuel s buf base max atLeast len.

(** Every turn of the loop that goes on has taken bytes off the stream, so
    [stream_size] turns and one more always suffice ([readAtLeast_total]). *)
Definition readAtLeast (s : ServerSocket) (buf : list Z)
           (base max atLeast len : Z) : run (Z * ServerSocket * list Z) :=
  readAtLeast_fuel (S (stream_size (incoming s))) s buf base max atLeast len.

Definition readAtMost (s : ServerSocket) (buf : list Z) (max atMost : Z)
  : Z * ServerSocket * list Z :=
  let target := s64 (if atMost <? max then atMost else max) in
  let '(n, got, s') := read s (u64 target) in
  if n <? 0 then (u64 n, s', buf)
  else if n =? 0 then (u64 n, s', buf)
  else (u64 n, s', store buf 0 got).

(** ** Per-thread statistics *)

(** Modelled from the spec: [TransferStats] (the spec's ThreadStats) is
    declared outside [Receiver.cpp].  The spec gives it six counters and two
    error slots; [addHeaderBytes], [addDataBytes], [incrNumBlocks] and
    [incrFailedAttempts] add to one counter, [addEffectiveBytes h d] adds [h]
    to [effectiveHeaderBytes] and [d] to [effectiveDataBytes], and
    [getTotalBytes] is [headerBytes + dataBytes].  Counters are unbounded. *)
Record TransferStats : Type := mkStats {
  headerBytes : Z;
  dataBytes : Z;
  effectiveHeaderBytes : Z;
  effectiveDataBytes : Z;
  numBlocks : Z;
  failedAttempts : Z;
  errorCode : Z;
  remoteErrorCode : Z
}.

Module Stats.

Definition addHeaderBytes (n : Z) (t : TransferStats) : TransferStats :=
  mkStats (headerBytes t + n) (dataBytes t) (effectiveHeaderBytes t)
          (effectiveDataBytes t) (numBlocks t) (failedAttempts t)
          (errorCode t) (remoteErrorCode t).

Definition addDataBytes (n : Z) (t : TransferStats) : TransferStats :=
  mkStats (headerBytes t) (dataBytes t + n) (effectiveHeaderBytes t)
          (effectiveDataBytes t) (numBlocks t) (failedAttempts t)
          (errorCode t) (remoteErrorCode t).

Definition addEffectiveBytes (h d : Z) (t : TransferStats) : TransferStats :=
  mkStats (headerBytes t) (dataBytes t) (effectiveHeaderBytes t + h)
          (effectiveDataBytes t + d) (numBlocks t) (failedAttempts t)
          (errorCode t) (remoteErrorCode t).

Definition incrNumBlocks (t : TransferStats) : TransferStats :=
  mkStats (headerBytes t) (dataBytes t) (effectiveHeaderBytes t)
          (effectiveDataBytes t) (numBlocks t + 1) (failedAttempts t)
          (errorCode t) (remoteErrorCode t).

Definition incrFailedAttempts (t : TransferStats) : TransferStats :=
  mkStats (headerBytes t) (dataBytes t) (effectiveHeaderBytes t)
          (effectiveDataBytes t) (numBlocks t) (failedAttempts t + 1)
          (errorCode t) (remoteErrorCode t).

Definition setErrorCode (e : Z) (t : TransferStats) : TransferStats :=
  mkStats (headerBytes t) (dataBytes t) (effectiveHeaderBytes t)
          (effectiveDataBytes t) (numBlocks t) (failedAttempts t)
          e (remoteErrorCode t).

Definition setRemoteErrorCode (e : Z) (t : TransferStats) : TransferStats :=
  mkStats (headerBytes t) (dataBytes t) (effectiveHeaderBytes t)
          (effectiveDataBytes t) (numBlocks t) (failedAttempts t)
          (errorCode t) e.

Definition getTotalBytes (t : TransferStats) : Z := headerBytes t + dataBytes t.

End Stats.

(** ** What the headers declare

    [Protocol.h] and [ErrorCodes.h] are not part of the sources.  The worker
    is written against the constants and the decoder they declare; the model
    takes them as an interface, and every statement about the worker holds for
    each instance.  An error code is the integer value of the enumerator. *)

Record decoded : Type := mkDecoded {
  d_success : bool;        (* the value decode returns *)
  d_off : Z;               (* [off] after the call *)
  d_id : list Z;
  d_sourceSize : Z;
  d_offset : Z;
  d_fileSize : Z
}.

Class Decls : Type := {
  kMaxHeader : Z;
  EXIT_CMD : Z;
  DONE_CMD : Z;
  FILE_CMD : Z;
  OK : Z;
  ERROR : Z;
  CONN_ERROR : Z;
  PROTOCOL_ERROR : Z;
  FILE_WRITE_ERROR : Z;
  MEMORY_ALLOCATION_ERROR : Z;
  (** [Protocol::decode(buf, off, max, id, sourceSize, offset, fileSize)] *)
  decode : list Z -> Z -> Z -> decoded
}.

(** What the worker relies on from a decoder: it moves [off] forward only
    and not past the end [max] of the bytes it was given, and when it reports
    success it has stayed within them. *)
Definition decoder_advances `{Decls} : Prop :=
  forall buf off max,
    off <= d_off (decode buf off max) /\ d_off (decode buf off max) <= Z.max off max.

Definition decoder_in_frame `{Decls} : Prop :=
  forall buf off max,
    d_success (decode buf off max) = true -> d_off (decode buf off max) <= max.

(** ** The file system

    [FileCreator] and the system calls [lseek], [write] and [close] are
    outside the sources.  Every call is logged; the value a call returns is
    read off a script, indexed by the number of calls made before it. *)

Inductive fs_call : Type :=
| CreateFile (id : list Z)
| Lseek (fd offset : Z)
| TruncateFile (fd size : Z)
| FileWrite (fd : Z) (data : list Z) (count : Z)
| FileClose (fd : Z).

Record FileSys : Type := mkFs {
  fsScript : nat -> Z;
  fsLog : list fs_call
}.

Definition syscall (c : fs_call) (f : FileSys) : Z * FileSys :=
  (fsScript f (length (fsLog f)), mkFs (fsScript f) (fsLog f ++ [c])).

(** ** Options *)

Record WdtOptions : Type := mkOptions {
  buffer_size : Z;
  backlog : Z;
  max_retries : Z;
  sleep_millis : Z;
  timeout_check_interval_millis : Z;
  failed_timeout_checks : Z;
  skip_writes : bool
}.

(** ** Control flow of a loop body *)

(** the [return] statements of [receiveOne], and the end of its body *)
Inductive ret_site : Type :=
| RetListenConnError      (* line 289 *)
| RetListenGaveUp         (* line 299 *)
| RetNoMemory             (* line 307 *)
| RetAcceptFailed         (* line 314 *)
| RetDone                 (* line 366 *)
| FellOffTheEnd.          (* after line 503 *)

Inductive ctl (St : Type) : Type :=
| Next (s : St)                       (* the body ran to its end: next iteration *)
| Break (s : St)                      (* break: the statement after the loop runs next *)
| Return (site : ret_site) (s : St)   (* return from the enclosing function *)
| ProcessExit (s : St)                (* exit(0) *)
| Crashed (s : St)                    (* a CHECK failed *)
| NoFuel (s : St).

Fixpoint loop {St : Type} (fuel : nat) (body : St -> ctl St) (s : St) : ctl St :=
  match fuel with
  | O => NoFuel s
  | S fuel' =>
      match body s with
      | Next s' => loop fuel' body s'
      | r => r
      end
  end.

(** ** The worker: Receiver::receiveOne (Receiver.cpp, lines 275-504) *)

(** The worker's variables: its socket, the shared file creator, its
    statistics, the buffer, and the locals [off], [numRead] and [dest] of the
    accept loop. *)
Record Conn : Type := mkConn {
  c_sock : ServerSocket;
  c_fs : FileSys;
  c_stats : TransferStats;
  c_buf : list Z;
  c_off : Z;            (* size_t off *)
  c_numRead : Z;        (* ssize_t numRead *)
  c_dest : Z            (* int dest *)
}.

Module Worker.
Section Worker.

Context {D : Decls}.

Definition with_sock (s : ServerSocket) (c : Conn) : Conn :=
  mkConn s (c_fs c) (c_stats c) (c_buf c) (c_off c) (c_numRead c) (c_dest c).
Definition with_fs (f : FileSys) (c : Conn) : Conn :=
  mkConn (c_sock c) f (c_stats c) (c_buf c) (c_off c) (c_numRead c) (c_dest c).
Definition with_stats (t : TransferStats) (c : Conn) : Conn :=
  mkConn (c_sock c) (c_fs c) t (c_buf c) (c_off c) (c_numRead c) (c_dest c).
Definition with_buf (b : list Z) (c : Conn) : Conn :=
  mkConn (c_sock c) (c_fs c) (c_stats c) b (c_off c) (c_numRead c) (c_dest c).
Definition with_off (o : Z) (c : Conn) : Conn :=
  mkConn (c_sock c) (c_fs c) (c_stats c) (c_buf c) o (c_numRead c) (c_dest c).
Definition with_numRead (n : Z) (c : Conn) : Conn :=
  mkConn (c_sock c) (c_fs c) (c_stats c) (c_buf c) (c_off c) n (c_dest c).
Definition with_dest (d : Z) (c : Conn) : Conn :=
  mkConn (c_sock c) (c_fs c) (c_stats c) (c_buf c) (c_off c) (c_numRead c) d.

Definition upd_stats (f : TransferStats -> TransferStats) (c : Conn) : Conn :=
  with_stats (f (c_stats c)) c.

(** lines 402-414: open the destination of a block *)
Definition open_dest (doActualWrites : bool) (d : decoded) (c : Conn) : Conn :=
  if doActualWrites then
    let '(fd, fs1) := syscall (CreateFile (d_id d)) (c_fs c) in
    let c1 := with_dest fd (with_fs fs1 c) in
    if fd =? -1 then
      upd_stats (Stats.setErrorCode FILE_WRITE_ERROR) c1
    else if 0 <? d_offset d then
      let '(r, fs2) := syscall (Lseek fd (d_offset d)) fs1 in
      if r <? 0 then
        with_dest (-1) (upd_stats (Stats.setErrorCode FILE_WRITE_ERROR) (with_fs fs2 c1))
      else with_fs fs2 c1
    else if d_offset d =? 0 then
      let '(_, fs2) := syscall (TruncateFile fd (d_fileSize d)) fs1 in
      with_fs fs2 c1
    else c1
  else c.

(** lines 424-437 and 447-455:
    [if (dest >= 0) { written = write(dest, p, count); if (written != count) ... }] *)
Definition write_out (data : list Z) (count : Z) (c : Conn) : Conn :=
  if 0 <=? c_dest c then
    let '(written, fs1) := syscall (FileWrite (c_dest c) data (u64 count)) (c_fs c) in
    if negb (written =? count) then
      let '(_, fs2) := syscall (FileClose (c_dest c)) fs1 in
      with_dest (-1) (upd_stats (Stats.setErrorCode FILE_WRITE_ERROR) (with_fs fs2 c))
    else with_fs fs1 c
  else c.

(** lines 466-469: [if (dest >= 0) { close(dest); dest = -1; }] *)
Definition close_dest (c : Conn) : Conn :=
  if 0 <=? c_dest c then
    let '(_, fs1) := syscall (FileClose (c_dest c)) (c_fs c) in
    with_dest (-1) (with_fs fs1 c)
  else c.

(** lines 496-499: [if (dest >= 0) { close(dest); }] *)
Definition close_leftover (c : Conn) : Conn :=
  if 0 <=? c_dest c then
    let '(_, fs1) := syscall (FileClose (c_dest c)) (c_fs c) in
    with_fs fs1 c
  else c.

(** lines 441-457: [while (wres < sourceSize)]; returns the final [wres] *)
Fixpoint stream_tail (fuel : nat) (bufferSize sourceSize wres : Z) (c : Conn)
  : run (Z * Conn) :=
  if wres <? sourceSize then
    match fuel with
    | O => OutOfFuel
    | S fuel' =>
        let '(r, sock1, buf1) :=
          readAtMost (c_sock c) (c_buf c) bufferSize (u64 (sourceSize - wres)) in
        let nres := s64 r in
        let c1 := with_buf buf1 (with_sock sock1 c) in
        if nres <=? 0 then Val (wres, c1)
        else
          let c2 := upd_stats (Stats.addDataBytes nres) c1 in
          let c3 := write_out (slice buf1 0 nres) nres c2 in
          stream_tail fuel' bufferSize sourceSize (wres + nres) c3
    end
  else Val (wres, c).

(** lines 345-373: the DONE command; [c] has [off] past the two header bytes *)
Definition done_cmd (isJoinable_ : bool) (numRead transferStatus : Z) (c : Conn)
  : ctl Conn :=
  if negb (numRead =? 2) then
    Break (upd_stats (Stats.setErrorCode PROTOCOL_ERROR) c)
  else
    let off := c_off c in
    let buf1 := store (c_buf c) (off - 1) [s8 (errorCode (c_stats c))] in
    let stats1 :=
      if negb (transferStatus =? OK)
      then Stats.setRemoteErrorCode transferStatus (c_stats c)
      else c_stats c in
    let sock1 := write (c_sock c) (slice buf1 (off - 2) 2) in
    let stats2 := Stats.addEffectiveBytes 2 0 (Stats.addHeaderBytes 2 stats1) in
    let c1 := with_stats stats2 (with_sock sock1 (with_buf buf1 c)) in
    if isJoinable_ then Return RetDone c1
    else Break (upd_stats (Stats.setErrorCode OK) c1).

(** lines 386-494: a FILE command; [c] has [off] past the two header bytes *)
Definition file_cmd (doActualWrites : bool) (bufferSize numRead oldOffset : Z)
           (c : Conn) : ctl Conn :=
  let d := decode (c_buf c) (c_off c) (numRead + oldOffset) in
  let off := d_off d in
  let hdr := s64 (off - oldOffset) in
  let c1 := upd_stats (Stats.addHeaderBytes hdr) (with_off off c) in
  if negb (d_success d) then
    Break (upd_stats Stats.incrFailedAttempts
             (upd_stats (Stats.setErrorCode PROTOCOL_ERROR) c1))
  else
    let sourceSize := d_sourceSize d in
    let c2 := open_dest doActualWrites d c1 in
    let remainingData := s64 (numRead + oldOffset - off) in
    let toWrite := if remainingData >=? sourceSize then sourceSize else remainingData in
    let c3 := upd_stats (Stats.addDataBytes toWrite) c2 in
    let c4 := write_out (slice (c_buf c3) off toWrite) toWrite c3 in
    let off' := u64 (off + toWrite) in
    let remainingData' := remainingData - toWrite in
    let c5 := with_off off' c4 in
    match stream_tail (S (stream_size (incoming (c_sock c5))))
                      bufferSize sourceSize toWrite c5 with
    | OutOfFuel => NoFuel c5
    | CheckFailed => Crashed c5
    | Val (wres, c6) =>
        if negb (wres =? sourceSize) then
          Break (upd_stats Stats.incrFailedAttempts c6)
        else
          let c7 := close_dest c6 in
          let c8 := upd_stats Stats.incrNumBlocks
                      (upd_stats (Stats.addEffectiveBytes hdr sourceSize) c7) in
          if remainingData' <? 0 then Crashed c8
          else if 0 <? remainingData' then
            if (remainingData' <? kMaxHeader) && (u64 (bufferSize / 2) <? off') then
              Next (with_off 0
                      (with_buf (store (c_buf c8) 0 (slice (c_buf c8) off' remainingData'))
                                (with_numRead remainingData' c8)))
            else Next (with_numRead remainingData' c8)
          else Next (with_off 0 (with_numRead 0 c8))
    end.

(** lines 322-495: one turn of the loop that serves a connection *)
Definition iteration (isJoinable_ doActualWrites : bool) (bufferSize : Z) (c : Conn)
  : ctl Conn :=
  match readAtLeast (c_sock c) (c_buf c) (c_off c) (u64 (bufferSize - c_off c))
                    kMaxHeader (c_numRead c) with
  | CheckFailed => Crashed c
  | OutOfFuel => NoFuel c
  | Val (r, sock1, buf1) =>
      let numRead := s64 r in
      let c1 := with_numRead numRead (with_buf buf1 (with_sock sock1 c)) in
      if numRead <=? 0 then Break c1
      else
        let oldOffset := s64 (c_off c) in
        let cmd := load buf1 (c_off c) in
        let c2 := with_off (u64 (c_off c + 1)) c1 in
        if cmd =? EXIT_CMD then
          if negb (numRead =? 1) then
            Break (upd_stats (Stats.setErrorCode PROTOCOL_ERROR) c2)
          else ProcessExit c2
        else
          let transferStatus := load buf1 (c_off c2) in
          let c3 := with_off (u64 (c_off c2 + 1)) c2 in
          if cmd =? DONE_CMD then done_cmd isJoinable_ numRead transferStatus c3
          else if negb (cmd =? FILE_CMD) then
            Break (upd_stats (Stats.setErrorCode PROTOCOL_ERROR) c3)
          else file_cmd doActualWrites bufferSize numRead oldOffset c3
  end.

(** lines 317-501: a connection has been accepted; serve it, then close it *)
Definition serve (fuel : nat) (isJoinable_ doActualWrites : bool)
           (bufferSize : Z) (c : Conn) : ctl Conn :=
  let c1 := with_dest (-1) (with_off 0 (with_numRead 0 c)) in
  match loop fuel (iteration isJoinable_ doActualWrites bufferSize) c1 with
  | Break c2 =>
      let c3 := close_leftover c2 in
      Next (with_sock (closeCurrentConnection (c_sock c3)) c3)
  | r => r
  end.

(** lines 310-502: one turn of the accept loop *)
Definition accept_body (fuel : nat) (isJoinable_ doActualWrites : bool)
           (bufferSize : Z) (c : Conn) : ctl Conn :=
  let '(code, sock1) := acceptNextConnection (c_sock c) in
  if negb (code =? OK) then
    Return RetAcceptFailed (upd_stats (Stats.setErrorCode code) (with_sock sock1 c))
  else serve fuel isJoinable_ doActualWrites bufferSize (with_sock sock1 c).

(** lines 283-294: [for (int i = 1; i < options.max_retries; ++i)], with
    [n] turns left.  [usleep] changes nothing that the model holds. *)
Fixpoint listen_retries (n : nat) (c : Conn) : ctl Conn :=
  match n with
  | O => Break c
  | S n' =>
      let '(code, sock1) := listen (c_sock c) in
      let c1 := with_sock sock1 c in
      if code =? OK then Break c1
      else if code =? CONN_ERROR then
        Return RetListenConnError (upd_stats (Stats.setErrorCode code) c1)
      else listen_retries n' c1
  end.

(** [receiveOne(socket, destDir, bufferSize, threadStats)], run by a
    [Receiver] whose [isJoinable_] and [fileCreator_] are given.  [heap] is
    what [new char[bufferSize]] obtains: a block with the bytes it happens to
    hold, or nothing, the null pointer for which line 304 tests.  (The
    [new] of the language reports a failure by throwing, so that with it
    the test never succeeds; the return at line 307 is modelled as it is
    written.) *)
Definition receiveOne (fuel : nat) (options : WdtOptions) (isJoinable_ : bool)
           (fileCreator_ : FileSys) (heap : option (list Z))
           (socket : ServerSocket) (bufferSize : Z) (threadStats : TransferStats)
  : ctl Conn :=
  let doActualWrites := negb (skip_writes options) in
  let c0 := mkConn socket fileCreator_ threadStats [] 0 0 (-1) in
  match listen_retries (Z.to_nat (max_retries options - 1)) c0 with
  | Break c1 | Next c1 =>
      let '(code, sock2) := listen (c_sock c1) in
      let c2 := with_sock sock2 c1 in
      if negb (code =? OK) then
        Return RetListenGaveUp (upd_stats (Stats.setErrorCode CONN_ERROR) c2)
      else
        match heap with
        | None =>
            Return RetNoMemory (upd_stats (Stats.setErrorCode MEMORY_ALLOCATION_ERROR) c2)
        | Some block =>
            let c3 := upd_stats (Stats.setErrorCode OK) (with_buf block c2) in
            match loop fuel (accept_body fuel isJoinable_ doActualWrites bufferSize) c3 with
            | Break c4 =>
                (* line 503 *)
                Return FellOffTheEnd (upd_stats (Stats.setErrorCode OK) c4)
            | r => r
            end
        end
  | r => r
  end.

(** *** What the statements about the worker speak of *)

Definition state_of (r : ctl Conn) : Conn :=
  match r with
  | Next c | Break c | Return _ c | ProcessExit c | Crashed c | NoFuel c => c
  end.

(** the block header that the coming turn of the loop decodes, when it gets
    as far as line 386 *)
Definition declared (bufferSize : Z) (c : Conn) : option decoded :=
  match readAtLeast (c_sock c) (c_buf c) (c_off c) (u64 (bufferSize - c_off c))
                    kMaxHeader (c_numRead c) with
  | Val (r, _, buf1) =>
      let numRead := s64 r in
      let cmd := load buf1 (c_off c) in
      if (0 <? numRead) && negb (cmd =? EXIT_CMD) && negb (cmd =? DONE_CMD)
         && (cmd =? FILE_CMD)
      then Some (decode buf1 (u64 (u64 (c_off c + 1) + 1)) (numRead + s64 (c_off c)))
      else None
  | _ => None
  end.

(** the sender does not declare a negative size in the coming turn *)
Definition size_trusted (bufferSize : Z) (c : Conn) : Prop :=
  forall d, declared bufferSize c = Some d ->
            d_success d = true -> 0 <= d_sourceSize d.

(** [run_of ok c c']: the inner loop, entered in state [c], is at the head
    of a turn in state [c'], every turn before having started in a state
    that satisfies [ok] *)
Inductive run_of (isJoinable_ doActualWrites : bool) (bufferSize : Z)
          (ok : Conn -> Prop) : Conn -> Conn -> Prop :=
| run_here c : run_of isJoinable_ doActualWrites bufferSize ok c c
| run_next c c1 c2 :
    run_of isJoinable_ doActualWrites bufferSize ok c c1 ->
    ok c1 ->
    iteration isJoinable_ doActualWrites bufferSize c1 = Next c2 ->
    run_of isJoinable_ doActualWrites bufferSize ok c c2.

(** the buffer invariant in the words of the specification *)
Definition spec_invariant (bufferSize : Z) (c : Conn) : Prop :=
  0 <= c_off c /\ c_off c <= c_numRead c /\ c_numRead c <= bufferSize.

(** the buffer invariant of the code: [numRead] counts from [off] *)
Definition buffer_ok (bufferSize : Z) (c : Conn) : Prop :=
  0 <= c_off c /\ 0 <= c_numRead c /\ c_off c + c_numRead c <= bufferSize.

Definition counters (t : TransferStats) : Z * Z * Z * Z * Z * Z :=
  (headerBytes t, dataBytes t, effectiveHeaderBytes t, effectiveDataBytes t,
   numBlocks t, failedAttempts t).

(** two workers at the same place of the same stream, with the same
    counters; their files, descriptors and error codes may differ *)
Definition same_position (c c' : Conn) : Prop :=
  incoming (c_sock c) = incoming (c_sock c') /\
  c_off c = c_off c' /\
  c_numRead c = c_numRead c' /\
  counters (c_stats c) = counters (c_stats c').

(** [c'] differs from [c] at most in the file system, the descriptor
    [dest] and the error codes *)
Definition files_only (c c' : Conn) : Prop :=
  c_sock c' = c_sock c /\ c_buf c' = c_buf c /\ c_off c' = c_off c /\
  c_numRead c' = c_numRead c /\ counters (c_stats c') = counters (c_stats c).

Definition same_wire (c c' : Conn) : Prop :=
  same_position c c' /\ c_buf c = c_buf c'.

Definition same_outcome (r r' : ctl Conn) : Prop :=
  match r, r' with
  | Next a, Next b => same_wire a b
  | Break a, Break b => same_position a b
  | Return s a, Return s' b => s = s' /\ same_position a b
  | ProcessExit a, ProcessExit b => same_position a b
  | Crashed a, Crashed b => same_position a b
  | NoFuel a, NoFuel b => same_position a b
  | _, _ => False
  end.

(** *** Two sentences of the specification, as they are written *)

(** "The buffer-invariant 0 <= off <= numRead <= bufferSize holds at every
    iteration of the inner loop", for the connection entered in state [c0] *)
Definition invariant_at_every_turn (isJoinable_ doActualWrites : bool)
           (bufferSize : Z) (c0 : Conn) : Prop :=
  forall c,
    run_of isJoinable_ doActualWrites bufferSize (fun _ => True) c0 c ->
    spec_invariant bufferSize c.

(** "headerBytes and dataBytes increase monotonically during the
    connection", whatever the sender delivers *)
Definition counters_never_decrease (isJoinable_ doActualWrites : bool)
           (bufferSize : Z) (c0 : Conn) : Prop :=
  forall c,
    run_of isJoinable_ doActualWrites bufferSize (fun _ => True) c0 c ->
    let c' := state_of (iteration isJoinable_ doActualWrites bufferSize c) in
    headerBytes (c_stats c) <= headerBytes (c_stats c') /\
    dataBytes (c_stats c) <= dataBytes (c_stats c').

End Worker.
End Worker.

(** ** The progress tracker: Receiver::progressTracker (lines 178-240) *)

Module Tracker.

(** What the tracker finds when [wait_for] returns: the flag
    [transferFinished_] and the statistics of the threads at that moment. *)
Record wake : Type := mkWake {
  w_finished : bool;
  w_stats : list TransferStats
}.

Inductive verdict : Type :=
| Disabled          (* line 187: returned before the loop *)
| SawFinished       (* line 203: break on [done] *)
| GaveUp            (* line 237: return after the shutdowns *)
| Waiting.          (* the wake-ups given to the model are used up *)

Record outcome : Type := mkOutcome {
  o_verdict : verdict;
  o_totalBytes : Z;              (* size_t totalBytes *)
  o_zeroProgressCount : Z;       (* int64_t zeroProgressCount *)
  o_shutdowns : list Z;          (* descriptors given to shutdown(fd, SHUT_RDWR), in order *)
  o_warnings : list Z            (* ports named in the warnings logged *)
}.

(** lines 205-208: the sum is a [size_t] *)
Definition sum_total (stats : list TransferStats) : Z :=
  fold_left (fun acc t => u64 (acc + Stats.getTotalBytes t)) stats 0.

(** lines 221-236: two passes over the ports, one [shutdown] per
    descriptor.  [refused fd] tells whether [shutdown] returns a negative
    value for [fd]; the tracker logs and goes on.  [start] gives
    [threadServerSockets_] an entry for each port; the passes stop with the
    shorter of the two lists. *)
Definition shutdown_pass (refused : Z -> bool) (fd_of : ServerSocket -> Z)
           (ports : list Z) (socks : list ServerSocket) : list Z * list Z :=
  (map (fun ps => fd_of (snd ps)) (combine ports socks),
   map fst (filter (fun ps => refused (fd_of (snd ps))) (combine ports socks))).

Definition shutdown_all (refused : Z -> bool) (ports : list Z)
           (socks : list ServerSocket) : list Z * list Z :=
  let '(l1, w1) := shutdown_pass refused getListenFd ports socks in
  let '(l2, w2) := shutdown_pass refused getFd ports socks in
  (l1 ++ l2, w1 ++ w2).

(** lines 196-239: [while (true)], one turn per wake-up *)
Fixpoint tracker_loop (numFailedProgressChecks : Z) (refused : Z -> bool)
         (ports : list Z) (socks : list ServerSocket)
         (wakes : list wake) (totalBytes zeroProgressCount : Z) : outcome :=
  match wakes with
  | [] => mkOutcome Waiting totalBytes zeroProgressCount [] []
  | w :: later =>
      if w_finished w then
        mkOutcome SawFinished totalBytes zeroProgressCount [] []
      else
        let currentTotalBytes := sum_total (w_stats w) in
        let deltaBytes := u64 (currentTotalBytes - totalBytes) in
        let zeroProgressCount' :=
          if deltaBytes =? 0 then zeroProgressCount + 1 else 0 in
        if numFailedProgressChecks <? zeroProgressCount' then
          let '(fds, warned) := shutdown_all refused ports socks in
          mkOutcome GaveUp currentTotalBytes zeroProgressCount' fds warned
        else
          tracker_loop numFailedProgressChecks refused ports socks later
                       currentTotalBytes zeroProgressCount'
  end.

Definition progressTracker (options : WdtOptions) (isJoinable_ : bool)
           (refused : Z -> bool) (ports : list Z) (socks : list ServerSocket)
           (wakes : list wake) : outcome :=
  let progressTrackIntervalMillis := timeout_check_interval_millis options in
  let numFailedProgressChecks := failed_timeout_checks options in
  if (progressTrackIntervalMillis <? 0) || negb isJoinable_ then
    mkOutcome Disabled 0 0 [] []
  else
    tracker_loop numFailedProgressChecks refused ports socks wakes 0 0.

End Tracker.

(** ** The session: Receiver::start, finish, transferAsync, runForever *)

Module Session.

(** what a thread was started to run *)
Inductive job : Type :=
| WorkerJob (i : nat) (bufferSize : Z)   (* receiveOne on socket and stats number i *)
| TrackerJob.                            (* progressTracker *)

(** A [std::thread] object holds a thread or none; it can be joined only
    while it holds one.  A [join] in the model stands for one that comes
    back: the thread joined has ended. *)
Inductive thread : Type :=
| NotAThread
| Holds (j : job).

Inductive event : Type :=
| Started (j : job)
| Joined (j : job)
| NotifiedAll.

(** Modelled from the spec: [TransferReport] is declared outside
    [Receiver.cpp]; the spec calls it a passive summary of the per-thread
    statistics it is constructed from. *)
Record TransferReport : Type := mkReport {
  reported : list TransferStats
}.

Record Receiver : Type := mkReceiver {
  ports_ : list Z;
  isJoinable_ : bool;
  transferFinished_ : bool;
  receiverThreads_ : list thread;
  progressTrackerThread_ : thread;
  threadStats_ : list TransferStats;
  threadServerSockets_ : list ServerSocket;
  journal : list event          (* thread starts, joins and notifications, oldest first *)
}.

Inductive outcome (A : Type) : Type :=
| Done (a : A)
| Throws (r : Receiver)        (* std::system_error: join() without a thread *)
| Undefined (r : Receiver)     (* operator[] past the end of a vector *)
| Terminates (r : Receiver).   (* std::terminate: assignment to a thread object that holds one *)
Arguments Throws {A}.
Arguments Undefined {A}.
Arguments Terminates {A}.

Definition log (e : event) (r : Receiver) : Receiver :=
  mkReceiver (ports_ r) (isJoinable_ r) (transferFinished_ r) (receiverThreads_ r)
             (progressTrackerThread_ r) (threadStats_ r) (threadServerSockets_ r)
             (journal r ++ [e]).

Definition with_threads (ts : list thread) (r : Receiver) : Receiver :=
  mkReceiver (ports_ r) (isJoinable_ r) (transferFinished_ r) ts
             (progressTrackerThread_ r) (threadStats_ r) (threadServerSockets_ r)
             (journal r).

Definition with_tracker (t : thread) (r : Receiver) : Receiver :=
  mkReceiver (ports_ r) (isJoinable_ r) (transferFinished_ r) (receiverThreads_ r)
             t (threadStats_ r) (threadServerSockets_ r) (journal r).

Definition with_joinable (b : bool) (r : Receiver) : Receiver :=
  mkReceiver (ports_ r) b (transferFinished_ r) (receiverThreads_ r)
             (progressTrackerThread_ r) (threadStats_ r) (threadServerSockets_ r)
             (journal r).

(** Receiver::Receiver(port, numSockets), lines 74-80 *)
Definition construct (port : Z) (numSockets : nat) : Receiver :=
  mkReceiver (map (fun i => port + Z.of_nat i) (seq 0 numSockets))
             false true [] NotAThread [] [] [].

(** lines 103-106 *)
Definition hasPendingTransfer (r : Receiver) : bool := negb (transferFinished_ r).

(** lines 108-114 *)
Definition markTransferFinished (isFinished : bool) (r : Receiver) : Receiver :=
  let r1 := mkReceiver (ports_ r) (isJoinable_ r) isFinished (receiverThreads_ r)
                       (progressTrackerThread_ r) (threadStats_ r)
                       (threadServerSockets_ r) (journal r) in
  if isFinished then log NotifiedAll r1 else r1.

Fixpoint set_nth {A} (n : nat) (x : A) (l : list A) : list A :=
  match l, n with
  | [], _ => []
  | _ :: t, O => x :: t
  | h :: t, S n' => h :: set_nth n' x t
  end.

(** lines 123-125: [receiverThreads_[i].join()] for the indices [idx] *)
Fixpoint join_workers (idx : list nat) (r : Receiver) : outcome Receiver :=
  match idx with
  | [] => Done r
  | i :: later =>
      match nth_error (receiverThreads_ r) i with
      | None => Undefined r
      | Some NotAThread => Throws r
      | Some (Holds j) =>
          join_workers later
            (log (Joined j) (with_threads (set_nth i NotAThread (receiverThreads_ r)) r))
      end
  end.

(** Receiver::finish, lines 116-143 *)
Definition finish (r : Receiver) : outcome (TransferReport * Receiver) :=
  match join_workers (seq 0 (length (ports_ r))) r with
  | Done r1 =>
      let r2 := markTransferFinished true r1 in
      match progressTrackerThread_ r2 with
      | NotAThread => Throws r2
      | Holds j =>
          let r3 := log (Joined j) (with_tracker NotAThread r2) in
          let report := mkReport (threadStats_ r3) in
          Done (report,
                mkReceiver (ports_ r3) (isJoinable_ r3) (transferFinished_ r3)
                           [] (progressTrackerThread_ r3) [] [] (journal r3))
      end
  | Throws r1 => Throws r1
  | Undefined r1 => Undefined r1
  | Terminates r1 => Terminates r1
  end.

Section WithDecls.

Context {D : Decls}.

(** lines 250-257: the size of the buffer each worker allocates *)
Definition effective_buffer_size (options : WdtOptions) : Z :=
  let bufferSize := u64 (buffer_size options) in
  if bufferSize <? kMaxHeader then
    u64 (2 * 1024 * (u64 (kMaxHeader - 1) / (2 * 1024) + 1))
  else bufferSize.

(** Modelled from the spec: the constructor [TransferStats(true)] is
    outside the sources; a new record has its counters at zero and both
    error codes at [OK]. *)
Definition fresh_stats : TransferStats := mkStats 0 0 0 0 0 0 OK OK.

(** Receiver::start, lines 242-273.  [socket_for port backlog] is the
    [ServerSocket] constructed for a port.  The file creator and the
    destination directory play no part in what follows and are left
    out. *)
Definition start (options : WdtOptions) (socket_for : Z -> Z -> ServerSocket)
           (r : Receiver) : outcome Receiver :=
  let r1 := markTransferFinished false r in
  let bufferSize := effective_buffer_size options in
  let stats := threadStats_ r1 ++ map (fun _ => fresh_stats) (ports_ r1) in
  let socks := threadServerSockets_ r1
               ++ map (fun p => socket_for p (backlog options)) (ports_ r1) in
  let jobs := map (fun i => WorkerJob i bufferSize) (seq 0 (length (ports_ r1))) in
  let r2 := mkReceiver (ports_ r1) (isJoinable_ r1) (transferFinished_ r1)
                       (receiverThreads_ r1 ++ map Holds jobs)
                       (progressTrackerThread_ r1) stats socks
                       (journal r1 ++ map Started jobs) in
  if isJoinable_ r2 then
    match progressTrackerThread_ r2 with
    | Holds _ => Terminates r2
    | NotAThread => Done (log (Started TrackerJob) (with_tracker (Holds TrackerJob) r2))
    end
  else Done r2.

(** Receiver::transferAsync, lines 145-157 *)
Definition transferAsync (options : WdtOptions) (socket_for : Z -> Z -> ServerSocket)
           (r : Receiver) : outcome (Z * Receiver) :=
  if hasPendingTransfer r then Done (ERROR, r)
  else
    match start options socket_for (with_joinable true r) with
    | Done r1 => Done (OK, r1)
    | Throws r1 => Throws r1
    | Undefined r1 => Undefined r1
    | Terminates r1 => Terminates r1
    end.

(** Receiver::runForever, lines 159-176 *)
Definition runForever (options : WdtOptions) (socket_for : Z -> Z -> ServerSocket)
           (r : Receiver) : outcome (Z * Receiver) :=
  if hasPendingTransfer r then Done (ERROR, r)
  else
    match start options socket_for r with
    | Done r1 =>
        match finish r1 with
        | Done (_, r2) => Done (ERROR, r2)
        | Throws r2 => Throws r2
        | Undefined r2 => Undefined r2
        | Terminates r2 => Terminates r2
        end
    | Throws r1 => Throws r1
    | Undefined r1 => Undefined r1
    | Terminates r1 => Terminates r1
    end.

End WithDecls.

(** *** finish in the words of the specification *)

(** "join all workers in port order, set transferFinished = true and
    broadcast, join the watchdog, construct and return a TransferReport
    from the collected stats, clear workers/sockets/stats" *)
Definition finish_completes (r : Receiver) : Prop :=
  exists jobs tracker report r',
    receiverThreads_ r = map Holds jobs /\
    progressTrackerThread_ r = Holds tracker /\
    finish r = Done (report, r') /\
    journal r' = journal r ++ map Joined jobs ++ [NotifiedAll; Joined tracker] /\
    reported report = threadStats_ r /\
    transferFinished_ r' = true /\
    receiverThreads_ r' = [] /\
    threadServerSockets_ r' = [] /\
    threadStats_ r' = [].

(** "Idempotent after first call returns": a second call changes nothing *)
Definition finish_idempotent (r : Receiver) : Prop :=
  forall report r',
    finish r = Done (report, r') ->
    exists report', finish r' = Done (report', r').

(** *** The buffer size in the words of the specification *)

(** the least multiple of [k] that is at least [m] *)
Definition roundUp (m k : Z) : Z := k * ((m + k - 1) / k).

(** "a worker-local byte buffer of size
    max(configured_buffer_size, roundUp(MaxHeader, 2KiB))" *)
Definition spec_buffer_size (maxHeader configured : Z) : Z :=
  Z.max configured (roundUp maxHeader 2048).

End Session.

(** ** An instance of the declarations, to run the model on streams

    The frame follows the shape the specification gives: a command byte, a
    status byte, then for a FILE command an identifier with a one-byte length
    in front and three 64-bit integers, most significant byte first.  The
    numeric values of the commands and of the error codes are the sample's
    own.  The decoder takes the integers as they come, negative ones too. *)

Module Sample.

Fixpoint big_endian (bs : list Z) (acc : Z) : Z :=
  match bs with
  | [] => acc
  | b :: t => big_endian t (acc * 256 + b mod 256)
  end.

Definition int64_at (buf : list Z) (pos : Z) : Z :=
  s64 (big_endian (slice buf pos 8) 0).

Definition decode_frame (buf : list Z) (off max : Z) : decoded :=
  let n := load buf off mod 256 in
  let stop := off + 1 + n + 24 in
  if stop <=? max then
    mkDecoded true stop (slice buf (off + 1) n)
              (int64_at buf (off + 1 + n))
              (int64_at buf (off + 1 + n + 8))
              (int64_at buf (off + 1 + n + 16))
  else mkDecoded false off [] 0 0 0.

Definition decls : Decls := {|
  kMaxHeader := 2 + 1 + 255 + 24;
  EXIT_CMD := 101;
  DONE_CMD := 68;
  FILE_CMD := 76;
  OK := 0;
  ERROR := 1;
  CONN_ERROR := 2;
  PROTOCOL_ERROR := 3;
  FILE_WRITE_ERROR := 4;
  MEMORY_ALLOCATION_ERROR := 5;
  decode := decode_frame
|}.

(** what a sender puts on the wire *)
Definition int64_bytes (z : Z) : list Z :=
  map (fun i => (u64 z / 256 ^ i) mod 256) [7; 6; 5; 4; 3; 2; 1; 0].

Definition file_frame (status : Z) (id : list Z) (sourceSize offset fileSize : Z)
           (payload : list Z) : list Z :=
  [76; status; len id] ++ id
    ++ int64_bytes sourceSize ++ int64_bytes offset ++ int64_bytes fileSize
    ++ payload.

Definition done_frame (status : Z) : list Z := [68; status].

(** scripts as lists: the n-th answer, and [dflt] once the list is used up *)
Definition script {A} (l : list A) (dflt : A) : nat -> A := fun n => nth n l dflt.

(** a socket on descriptors 3 (listening) and 4 (accepted) *)
Definition socket (listens : list Z) (accepts : list (Z * list rd_event))
  : ServerSocket :=
  mkSocket 3 4 (script listens 2) O (script accepts (2, [])) O [] [] O.

(** a worker that has just accepted a connection delivering [stream] *)
Definition accepted (bufferSize : Z) (stream : list rd_event) (files : list Z)
           (stats : TransferStats) : Conn :=
  mkConn (set_incoming (socket [] []) stream) (mkFs (script files (-1)) [])
         stats (repeat 0 (Z.to_nat bufferSize)) 0 0 (-1).

Definition stats0 : TransferStats := mkStats 0 0 0 0 0 0 0 0.

Definition options0 : WdtOptions := mkOptions 1000 10 3 50 50 3 false.

(** file "a" with a payload of one byte, and DONE, in one segment *)
Definition one_byte_then_done : list rd_event :=
  [Bytes (file_frame 0 [97] 1 0 1 [120] ++ done_frame 0)].

(** file "a" with one byte, then a file "b" that declares the size -1 *)
Definition negative_size : list rd_event :=
  [Bytes (file_frame 0 [97] 1 0 1 [120] ++ file_frame 0 [98] (-1) 0 0 [])].

(** the scenario S1 of the specification: "hello" into file "a" *)
Definition hello : list rd_event :=
  [Bytes (file_frame 0 [97] 5 0 5 [104; 101; 108; 108; 111] ++ done_frame 0)].

(** a file system where everything works, for one block of [n] bytes:
    descriptor 3, then the results of truncate, write and close *)
Definition files_fine (n : Z) : list Z := [3; 0; n; 0].

(** workers that have just accepted the streams above, with a buffer of 2048 bytes *)
Definition straddle : Conn := accepted 2048 one_byte_then_done (files_fine 1) stats0.
Definition distrustful : Conn := accepted 2048 negative_size (files_fine 1) stats0.
Definition hello_no_disk : Conn := accepted 2048 hello [] stats0.
Definition hello_disk : Conn := accepted 2048 hello (files_fine 5) stats0.

(** file "a" with 300 bytes of data, of which the first segment brings 272
    (after the 28 bytes of the header: 300 bytes, more than [kMaxHeader]);
    the second segment brings the other 28, and DONE *)
Definition long_data : list Z := repeat 120 300.

Definition in_two_parts : list rd_event :=
  [Bytes (file_frame 0 [97] 300 0 300 (firstn 272 long_data));
   Bytes (skipn 272 long_data ++ done_frame 0)].

(** the same file, and a connection that ends ten bytes before its end *)
Definition cut_short : list rd_event :=
  [Bytes (file_frame 0 [97] 300 0 300 (firstn 272 long_data));
   Bytes (firstn 18 (skipn 272 long_data))].

(** file systems for that block: one where everything works (descriptor 3,
    truncate, two writes, close), one whose first [write] is short, and one
    that cannot create the file *)
Definition long_fine : Conn := accepted 2048 in_two_parts [3; 0; 272; 28; 0] stats0.
Definition long_short_write : Conn := accepted 2048 in_two_parts [3; 0; 100; 0] stats0.
Definition long_cut_short : Conn := accepted 2048 cut_short [] stats0.


(** a receiver on the ports 5000 and 5001 *)
Definition receiver : Session.Receiver := Session.construct 5000 2.

Definition socket_for (port backlog : Z) : ServerSocket := socket [0] [].

End Sample.

(** ** What the further properties speak of *)

Import Worker.

(** the bytes a stream still has to deliver, in order; its read errors and
    ends of file carry none *)
Definition flat (i : list rd_event) : list Z :=
  concat (map (fun ev => match ev with Bytes bs => bs | Fail _ => [] end) i).

Module Lifetime.
Import Session.

(** Receiver::getPorts, lines 99-101 *)
Definition getPorts (r : Receiver) : list Z := ports_ r.

(** Receiver::~Receiver, lines 91-97 *)
Definition destructor (r : Receiver) : outcome Receiver :=
  if hasPendingTransfer r then
    match finish r with
    | Done (_, r1) => Done r1
    | Throws r1 => Throws r1
    | Undefined r1 => Undefined r1
    | Terminates r1 => Terminates r1
    end
  else Done r.

(** no transfer is pending and nothing is left of an earlier one *)
Definition at_rest (r : Receiver) : Prop :=
  transferFinished_ r = true /\
  receiverThreads_ r = [] /\
  threadStats_ r = [] /\
  threadServerSockets_ r = [] /\
  progressTrackerThread_ r = NotAThread.

(** the threads that [start] creates for the ports of [r] *)
Definition workers {D : Decls} (options : WdtOptions) (r : Receiver) : list job :=
  map (fun i => WorkerJob i (effective_buffer_size options)) (seq 0 (length (ports_ r))).

End Lifetime.

(** [s'] is [s] after reads and writes on its connection: the listening
    side, the scripts and the count of connections are as they were *)
Definition same_endpoint (s s' : ServerSocket) : Prop :=
  getListenFd s' = getListenFd s /\ getFd s' = getFd s /\
  listenScript s' = listenScript s /\ listenCalls s' = listenCalls s /\
  acceptScript s' = acceptScript s /\ acceptCalls s' = acceptCalls s /\
  closedConnections s' = closedConnections s.

(** [s'] listens as [s] does: accepting and closing connections leave the
    descriptors, the scripts and the count of [listen] calls as they were *)
Definition same_listener (s s' : ServerSocket) : Prop :=
  getListenFd s' = getListenFd s /\ getFd s' = getFd s /\
  listenScript s' = listenScript s /\ listenCalls s' = listenCalls s /\
  acceptScript s' = acceptScript s.

(** A relation between the state before and the state after that every
    step of a FILE command keeps: reading from the connection, moving [off]
    and [numRead], counting, the PROTOCOL_ERROR of a header that does not
    decode, and the calls on the destination file. *)
Class Frame {D : Decls} (doActualWrites : bool) (R : Conn -> Conn -> Prop) : Prop := {
  frame_refl : forall c, R c c;
  frame_trans : forall c1 c2 c3, R c1 c2 -> R c2 c3 -> R c1 c3;
  frame_sock : forall c s',
      same_endpoint (c_sock c) s' -> sent s' = sent (c_sock c) ->
      R c (with_sock s' c);
  frame_buf : forall c b, length b = length (c_buf c) -> R c (with_buf b c);
  frame_off : forall c o, R c (with_off o c);
  frame_numRead : forall c n, R c (with_numRead n c);
  frame_stats : forall c t,
      errorCode t = errorCode (c_stats c) ->
      remoteErrorCode t = remoteErrorCode (c_stats c) ->
      R c (with_stats t c);
  frame_protocol_error : forall c, R c (upd_stats (Stats.setErrorCode PROTOCOL_ERROR) c);
  frame_open : forall c d, R c (open_dest doActualWrites d c);
  frame_write : forall c data n, R c (write_out data n c);
  frame_close : forall c, R c (close_dest c)
}.

(** ... and the steps of a DONE command as well: the reply, the sender's
    status, the error code set back to OK. *)
Class FrameDone {D : Decls} (R : Conn -> Conn -> Prop) : Prop := {
  frame_reply : forall c m, R c (with_sock (write (c_sock c) m) c);
  frame_remote : forall c e, R c (upd_stats (Stats.setRemoteErrorCode e) c);
  frame_ok : forall c, R c (upd_stats (Stats.setErrorCode OK) c)
}.

(** The books of a worker's socket between [s] and the end [r] of the
    accept loop: the connections accepted, the connections closed and the
    replies sent in between. *)
Definition books_kept (j : bool) (s : ServerSocket) (r : ctl Conn) : Prop :=
  let s' := c_sock (state_of r) in
  let accepted := (acceptCalls s' - acceptCalls s)%nat in
  let closed := (closedConnections s' - closedConnections s)%nat in
  let replies := (length (sent s') - length (sent s))%nat in
  same_listener s s' /\
  (acceptCalls s <= acceptCalls s')%nat /\
  (closedConnections s <= closedConnections s')%nat /\
  (exists new, sent s' = sent s ++ new) /\
  match r with
  | Next _ | Break _ => False
  | Return RetDone _ => accepted = S closed /\ j = true /\ replies = 1%nat
  | NoFuel _ =>
      (closed <= accepted <= S closed)%nat /\ (replies <= closed)%nat /\
      (j = true -> replies = 0%nat)
  | Return _ _ | ProcessExit _ | Crashed _ =>
      accepted = S closed /\ (replies <= closed)%nat /\ (j = true -> replies = 0%nat)
  end.

(** [s'] is [s] after some calls of [listen] and nothing else *)
Definition only_listened (s s' : ServerSocket) : Prop :=
  (listenCalls s <= listenCalls s')%nat /\
  s' = mkSocket (getListenFd s) (getFd s) (listenScript s) (listenCalls s')
                (acceptScript s) (acceptCalls s) (incoming s) (sent s)
                (closedConnections s).

(** what the calls of [listen] between [s] and [s'] returned, the first one
    being number 0 *)
Definition answer (s : ServerSocket) (i : nat) : Z :=
  listenScript s (listenCalls s + i)%nat.

Definition listens (s s' : ServerSocket) : nat := (listenCalls s' - listenCalls s)%nat.

(** the bytes handed to [write] by the calls of a log, in order *)
Definition written (log : list fs_call) : list Z :=
  concat (map (fun x => match x with FileWrite _ data _ => data | _ => [] end) log).

(** a [write] on the descriptor [fd] *)
Definition is_write (fd : Z) (x : fs_call) : Prop :=
  exists data n, x = FileWrite fd data n.

(** what a worker has still to consume: the bytes of the buffer that it has
    read and not used, then what the stream delivers *)
Definition pending (c : Conn) : list Z :=
  slice (c_buf c) (c_off c) (c_numRead c) ++ flat (incoming (c_sock c)).

(** the call that line 407 or line 412 makes on the descriptor [fd] after
    [createFile], if any *)
Definition is_opener (fd : Z) (d : decoded) (opener : list fs_call) : Prop :=
  opener = [] \/ opener = [Lseek fd (d_offset d)] \/
  opener = [TruncateFile fd (d_fileSize d)].

(** line 407: [lseek] is called (the offset is positive) and fails; it is
    the call that follows [createFile] *)
Definition seek_fails (d : decoded) (fs : FileSys) : Prop :=
  0 < d_offset d /\ fsScript fs (S (length (fsLog fs))) < 0.

(** the state of the worker at the head of a turn of the inner loop: its
    buffer has [bufferSize] bytes, [off] and [numRead] are within it, the
    reads of the stream return an [ssize_t], no descriptor is held *)
Definition turn_ready (bufferSize : Z) (c : Conn) : Prop :=
  len (c_buf c) = bufferSize /\ buffer_ok bufferSize c /\
  stream_ok (incoming (c_sock c)) /\ c_dest c < 0.



(** * Properties *)

Unset Implicit Arguments.
Import Worker.

(** ** Machine integers *)

Lemma two64_eq : two64 = 18446744073709551616.
Proof. reflexivity. Qed.

Lemma two63_eq : two63 = 9223372036854775808.
Proof. reflexivity. Qed.

Lemma u64_small z : 0 <= z < two64 -> u64 z = z.
Proof. intros H. unfold u64. now apply Z.mod_small. Qed.

Lemma s64_small z : - two63 <= z < two63 -> s64 z = z.
Proof.
  intros H. unfold s64. rewrite Z.mod_small; [lia|].
  rewrite two64_eq, two63_eq in *. lia.
Qed.

Lemma u64_range z : 0 <= u64 z < two64.
Proof. unfold u64. apply Z.mod_pos_bound. rewrite two64_eq. lia. Qed.

Lemma s64_u64 z : s64 (u64 z) = s64 z.
Proof.
  unfold s64, u64.
  rewrite Zplus_mod_idemp_l. reflexivity.
Qed.

Lemma s64_u64_small z : - two63 <= z < two63 -> s64 (u64 z) = z.
Proof. intros H. rewrite s64_u64. now apply s64_small. Qed.

Lemma len_nonneg {A} (l : list A) : 0 <= len l.
Proof. unfold len. lia. Qed.

Lemma len_app {A} (l1 l2 : list A) : len (l1 ++ l2) = len l1 + len l2.
Proof. unfold len. rewrite length_app. lia. Qed.

Lemma len_nil_iff {A} (l : list A) : len l = 0 <-> l = [].
Proof.
  unfold len. split; intros H.
  - destruct l; [reflexivity | simpl in H; lia].
  - now subst.
Qed.

(** ** The socket *)

Lemma read_sent s count : sent (snd (read s count)) = sent s.
Proof. unfold read. destruct (incoming s) as [|[bs|e] rest]; reflexivity. Qed.

(** a read that brings something, or fails, shortens the stream *)
Lemma read_shrinks s count :
  0 <= count -> fst (fst (read s count)) <> 0 ->
  (stream_size (incoming (snd (read s count))) < stream_size (incoming s))%nat.
Proof.
  intros Hc. unfold read.
  destruct (incoming s) as [|[bs|e] rest]; simpl.
  - congruence.
  - intros Hk.
    assert (Hk' : 0 < Z.min count (len bs)) by (pose proof (len_nonneg bs); lia).
    set (k := Z.to_nat (Z.min count (len bs))).
    assert (Hkn : (0 < k <= length bs)%nat) by (unfold k, len in *; lia).
    pose proof (length_skipn k bs) as Hl.
    destruct (skipn k bs) eqn:E; simpl in *; lia.
  - intros _. lia.
Qed.

Lemma read_count s count :
  0 <= count -> fst (fst (read s count)) <= count.
Proof.
  intros Hc. unfold read.
  destruct (incoming s) as [|[bs|e] rest]; simpl; lia.
Qed.

(** ** readAtLeast always comes back *)

Lemma readAtLeast_loop_total fuel : forall s buf base max atLeast n,
  (stream_size (incoming s) < fuel)%nat ->
  exists r, readAtLeast_loop fuel s buf base max atLeast n = Val r.
Proof.
  induction fuel as [|fuel IH]; intros s buf base max atLeast n Hf; [lia|].
  simpl. destruct (n <? atLeast); [|eauto].
  pose proof (read_shrinks s (u64 (max - n)) (proj1 (u64_range _))) as Hs.
  destruct (read s (u64 (max - n))) as [[k got] s'] eqn:E. simpl in Hs.
  destruct (k <? 0); [eauto|].
  destruct (k =? 0) eqn:Ek; [eauto|].
  apply IH. apply Z.eqb_neq in Ek. specialize (Hs Ek). lia.
Qed.

Lemma readAtLeast_total s buf base max atLeast n :
  0 <= n -> 0 <= atLeast ->
  exists r, readAtLeast s buf base max atLeast n = Val r.
Proof.
  intros Hn Ha. unfold readAtLeast, readAtLeast_fuel.
  destruct (n <? 0) eqn:E1; [lia|].
  destruct (atLeast <? 0) eqn:E2; [lia|].
  apply readAtLeast_loop_total. lia.
Qed.

Lemma read_whole s bs rest count :
  incoming s = Bytes bs :: rest -> len bs <= count ->
  read s count = (len bs, bs, set_incoming s rest).
Proof.
  intros Hin Hc. unfold read. rewrite Hin.
  rewrite Z.min_r by lia. unfold len. rewrite Nat2Z.id.
  now rewrite skipn_all, firstn_all.
Qed.

Lemma read_eof s count : incoming s = [] -> read s count = (0, [], s).
Proof. intros Hin. unfold read. now rewrite Hin. Qed.

Lemma read_empty_segment s rest count :
  incoming s = Bytes [] :: rest -> 0 <= count ->
  read s count = (0, [], set_incoming s rest).
Proof.
  intros Hin Hc. rewrite (read_whole s [] rest count Hin); [reflexivity|].
  unfold len; simpl; lia.
Qed.

Lemma read_fail s e rest count :
  incoming s = Fail e :: rest -> read s count = (Z.neg e, [], set_incoming s rest).
Proof. intros Hin. unfold read. now rewrite Hin. Qed.

Lemma set_incoming_twice s i j : set_incoming (set_incoming s i) j = set_incoming s j.
Proof. reflexivity. Qed.

Lemma set_incoming_same s : set_incoming s (incoming s) = s.
Proof. now destruct s. Qed.

Lemma readAtLeast_loop_unfold fuel s buf base max atLeast n :
  readAtLeast_loop (S fuel) s buf base max atLeast n =
  if n <? atLeast then
    let '(k, got, s') := read s (u64 (max - n)) in
    if k <? 0 then Val (if n =? 0 then u64 k else u64 n, s', buf)
    else if k =? 0 then Val (u64 n, s', buf)
    else readAtLeast_loop fuel s' (store buf (base + n) got) base max atLeast (n + k)
  else Val (u64 n, s, buf).
Proof. reflexivity. Qed.

Section ReadAtLeast.

Variables (base max atLeast : Z).
Hypothesis max_fits : max < two63.

(** whole segments that fit are taken one read each *)
Lemma readAtLeast_loop_segments (tail : list rd_event) :
  forall (pre : list (list Z)) (fuel : nat) (s : ServerSocket) (buf : list Z) (n : Z),
    0 <= n ->
    Forall (fun bs => bs <> []) pre ->
    incoming s = map Bytes pre ++ tail ->
    n + len (concat pre) < atLeast ->
    n + len (concat pre) <= max ->
    exists buf',
      readAtLeast_loop (length pre + fuel) s buf base max atLeast n
      = readAtLeast_loop fuel (set_incoming s tail) buf' base max atLeast
                         (n + len (concat pre)).
Proof.
  induction pre as [|bs pre IH]; intros fuel s buf n Hn Hne Hin Hlt Hle.
  - simpl in *. exists buf. replace (n + len (@nil Z)) with n by (unfold len; simpl; lia).
    rewrite <- Hin, set_incoming_same. reflexivity.
  - simpl concat in *. rewrite len_app in *.
    inversion Hne as [|? ? Hbs Hpre]; subst.
    assert (Hpos : 0 < len bs).
    { pose proof (len_nonneg bs). destruct (Z.eq_dec (len bs) 0) as [E|E]; [|lia].
      apply len_nil_iff in E. contradiction. }
    pose proof (len_nonneg (concat pre)) as Hc.
    change (length (bs :: pre) + fuel)%nat with (S (length pre + fuel)).
    rewrite readAtLeast_loop_unfold.
    destruct (n <? atLeast) eqn:E; [|lia].
    rewrite u64_small by (pose proof two63_eq; pose proof two64_eq; lia).
    rewrite (read_whole s bs (map Bytes pre ++ tail)) by (auto; lia).
    destruct (len bs <? 0) eqn:E1; [lia|].
    destruct (len bs =? 0) eqn:E2; [lia|].
    destruct (IH fuel (set_incoming s (map Bytes pre ++ tail))
                 (store buf (base + n) bs) (n + len bs)) as [buf' Hb];
      try lia; auto.
    exists buf'. rewrite Hb, set_incoming_twice. f_equal. lia.
Qed.

Lemma stream_size_segments (pre : list (list Z)) tail :
  (length pre + stream_size tail <= stream_size (map Bytes pre ++ tail))%nat.
Proof. induction pre; simpl; lia. Qed.

(** C4. readAtLeast at an end of file and at a read error.  The stream
    first delivers the segments [pre], which together with the [n] bytes
    already there stay below [atLeast] and fit in [max]; then it ends, or the
    next read fails.  At the end of the stream the value returned is the
    number of bytes accumulated, which is 0 when there are none.  At a read
    error the value is that number if it is not 0, and the negative result
    of the failed read otherwise: the function is declared to return a
    [size_t], so the caller's [ssize_t] is where the negative value is read
    ([s64]). *)
Theorem readAtLeast_eof_and_error
        (s : ServerSocket) (buf : list Z) (n : Z)
        (pre : list (list Z)) (tail : list rd_event) :
  0 <= n -> 0 <= atLeast ->
  Forall (fun bs => bs <> []) pre ->
  incoming s = map Bytes pre ++ tail ->
  n + len (concat pre) < atLeast ->
  n + len (concat pre) <= max ->
  exists r s' buf',
    readAtLeast s buf base max atLeast n = Val (r, s', buf') /\
    ((tail = [] \/ exists rest, tail = Bytes [] :: rest) ->
       r = n + len (concat pre) /\ s64 r = n + len (concat pre) /\ 0 <= s64 r) /\
    (forall e rest, tail = Fail e :: rest -> Z.pos e <= two63 ->
       (n + len (concat pre) <> 0 ->
          r = n + len (concat pre) /\ s64 r = n + len (concat pre)) /\
       (n + len (concat pre) = 0 -> s64 r = Z.neg e /\ s64 r < 0)).
Proof.
  intros Hn Ha Hne Hin Hlt Hle.
  pose proof (len_nonneg (concat pre)) as Hc.
  destruct (readAtLeast_total s buf base max atLeast n Hn Ha) as [[[r s'] buf''] Hr].
  exists r, s', buf''. split; [exact Hr|].
  unfold readAtLeast, readAtLeast_fuel in Hr.
  destruct (n <? 0) eqn:E1; [lia|].
  destruct (atLeast <? 0) eqn:E2; [lia|].
  pose proof (stream_size_segments pre tail) as Hsz. rewrite <- Hin in Hsz.
  replace (S (stream_size (incoming s)))
    with (length pre + S (stream_size (incoming s) - length pre))%nat in Hr by lia.
  destruct (readAtLeast_loop_segments tail pre
              (S (stream_size (incoming s) - length pre)) s buf n)
    as [buf' Hrun]; auto.
  rewrite Hrun, readAtLeast_loop_unfold in Hr.
  set (total := n + len (concat pre)) in *.
  destruct (total <? atLeast) eqn:E3; [|lia].
  pose proof two63_eq as H63. pose proof two64_eq as H64.
  rewrite (u64_small (max - total)) in Hr by lia.
  assert (Htot : u64 total = total) by (apply u64_small; lia).
  assert (Hs64 : s64 total = total) by (apply s64_small; lia).
  split.
  - intros [->|[rest ->]].
    + rewrite read_eof in Hr by reflexivity. simpl in Hr.
      injection Hr as <- _ _. rewrite Htot. repeat split; lia.
    + rewrite (read_empty_segment _ rest) in Hr by (auto; lia). simpl in Hr.
      injection Hr as <- _ _. rewrite Htot. repeat split; lia.
  - intros e rest -> He.
    rewrite (read_fail _ e rest) in Hr by reflexivity. simpl in Hr.
    injection Hr as <- _ _.
    split; intros Ht.
    + apply Z.eqb_neq in Ht. rewrite Ht, Htot. split; [reflexivity | exact Hs64].
    + rewrite Ht. simpl. rewrite s64_u64_small; lia.
Qed.

End ReadAtLeast.

Lemma readAtLeast_witness :
  exists r s' buf',
    readAtLeast (set_incoming (Sample.socket [] []) [Fail 1]) (repeat 0 8%nat) 0 8 4 0
    = Val (r, s', buf') /\
    s64 r = -1.
Proof.
  destruct (readAtLeast_eof_and_error 0 8 4 eq_refl
              (set_incoming (Sample.socket [] []) [Fail 1]) (repeat 0 8%nat) 0
              [] [Fail 1])
    as (r & s' & buf' & Hr & _ & He);
    [lia | lia | constructor | reflexivity | reflexivity | unfold len; simpl; lia |].
  exists r, s', buf'. split; [exact Hr|].
  destruct (He 1%positive [] eq_refl) as (_ & H0); [unfold two63; lia|].
  now apply H0.
Defined.

(** ** The stream under reads *)

Lemma read_stream_ok s count :
  stream_ok (incoming s) -> stream_ok (incoming (snd (read s count))).
Proof.
  unfold stream_ok, read. intros H.
  destruct (incoming s) as [|[bs|e] rest] eqn:E; simpl.
  - now rewrite E.
  - inversion H; subst. destruct (skipn _ bs); simpl; auto.
  - now inversion H.
Qed.

Lemma read_negative s count :
  stream_ok (incoming s) -> 0 <= count ->
  - two63 <= fst (fst (read s count)).
Proof.
  unfold stream_ok, read. intros H Hc. pose proof two63_eq.
  destruct (incoming s) as [|[bs|e] rest]; simpl; try lia.
  - pose proof (len_nonneg bs). lia.
  - inversion H; subst. simpl in *. lia.
Qed.

(** a read looks at the stream only *)
Lemma read_same_stream s s' count :
  incoming s = incoming s' ->
  fst (read s count) = fst (read s' count) /\
  incoming (snd (read s count)) = incoming (snd (read s' count)).
Proof.
  intros H. unfold read. rewrite <- H.
  destruct (incoming s) as [|[bs|e] rest] eqn:E; simpl; auto.
  split; [reflexivity | congruence].
Qed.

(** ** readAtLeast: bounds, and what it depends on *)

Lemma readAtLeast_loop_bounds fuel : forall s buf base max atLeast n r s' buf',
  stream_ok (incoming s) -> 0 <= n <= max -> max < two63 ->
  readAtLeast_loop fuel s buf base max atLeast n = Val (r, s', buf') ->
  stream_ok (incoming s') /\ s64 r <= max /\ (0 <= s64 r -> n <= s64 r) /\
  (s64 r < 0 -> n = 0) /\ sent s' = sent s.
Proof.
  pose proof two63_eq as H63. pose proof two64_eq as H64.
  induction fuel as [|fuel IH]; intros s buf base max atLeast n r s' buf' Hok Hn Hmax Hr.
  - simpl in Hr. destruct (n <? atLeast); [discriminate|].
    injection Hr as <- <- <-. rewrite s64_u64_small by lia. repeat split; auto; lia.
  - rewrite readAtLeast_loop_unfold in Hr.
    destruct (n <? atLeast).
    2:{ injection Hr as <- <- <-. rewrite s64_u64_small by lia. repeat split; auto; lia. }
    rewrite (u64_small (max - n)) in Hr by lia.
    pose proof (read_stream_ok s (max - n) Hok) as Hok'.
    pose proof (read_negative s (max - n) Hok) as Hneg.
    pose proof (read_count s (max - n)) as Hcnt.
    pose proof (read_sent s (max - n)) as Hsent.
    destruct (read s (max - n)) as [[k got] s1]. simpl in *.
    destruct (k <? 0) eqn:E1.
    + injection Hr as <- <- <-. split; auto.
      destruct (n =? 0) eqn:E0.
      * rewrite s64_u64_small by lia. repeat split; auto; lia.
      * rewrite s64_u64_small by lia. repeat split; auto; lia.
    + destruct (k =? 0) eqn:E2.
      * injection Hr as <- <- <-. rewrite s64_u64_small by lia. repeat split; auto; lia.
      * apply IH in Hr; auto; try lia.
        destruct Hr as (A & B & C & E & F). repeat split; auto; try lia.
        congruence.
Qed.

Lemma readAtLeast_bounds s buf base max atLeast n r s' buf' :
  stream_ok (incoming s) -> 0 <= n <= max -> max < two63 ->
  readAtLeast s buf base max atLeast n = Val (r, s', buf') ->
  stream_ok (incoming s') /\ s64 r <= max /\ (0 <= s64 r -> n <= s64 r) /\
  (s64 r < 0 -> n = 0) /\ sent s' = sent s.
Proof.
  unfold readAtLeast, readAtLeast_fuel. intros Hok Hn Hmax.
  destruct (n <? 0); [discriminate|]. destruct (atLeast <? 0); [discriminate|].
  now apply readAtLeast_loop_bounds.
Qed.

Lemma readAtLeast_loop_same_stream fuel : forall s s' buf base max atLeast n,
  incoming s = incoming s' ->
  match readAtLeast_loop fuel s buf base max atLeast n,
        readAtLeast_loop fuel s' buf base max atLeast n with
  | Val (r, s1, b1), Val (r', s1', b1') =>
      r = r' /\ incoming s1 = incoming s1' /\ b1 = b1'
  | CheckFailed, CheckFailed => True
  | OutOfFuel, OutOfFuel => True
  | _, _ => False
  end.
Proof.
  induction fuel as [|fuel IH]; intros s s' buf base max atLeast n Hin.
  - simpl. destruct (n <? atLeast); auto.
  - rewrite !readAtLeast_loop_unfold.
    destruct (n <? atLeast); auto.
    destruct (read_same_stream s s' (u64 (max - n)) Hin) as [H1 H2].
    destruct (read s (u64 (max - n))) as [[k got] s1].
    destruct (read s' (u64 (max - n))) as [[k' got'] s1'].
    simpl in *. injection H1 as <- <-.
    destruct (k <? 0); auto. destruct (k =? 0); auto.
    now apply IH.
Qed.

Lemma readAtLeast_same_stream s s' buf base max atLeast n :
  incoming s = incoming s' ->
  match readAtLeast s buf base max atLeast n,
        readAtLeast s' buf base max atLeast n with
  | Val (r, s1, b1), Val (r', s1', b1') =>
      r = r' /\ incoming s1 = incoming s1' /\ b1 = b1'
  | CheckFailed, CheckFailed => True
  | OutOfFuel, OutOfFuel => True
  | _, _ => False
  end.
Proof.
  intros Hin. unfold readAtLeast, readAtLeast_fuel. rewrite <- Hin.
  destruct (n <? 0); auto. destruct (atLeast <? 0); auto.
  now apply readAtLeast_loop_same_stream.
Qed.

(** ** readAtMost *)

Lemma readAtMost_facts s buf max atMost :
  let '(r, s', buf') := readAtMost s buf max atMost in
  (stream_ok (incoming s) -> stream_ok (incoming s')) /\
  sent s' = sent s /\
  (0 < s64 r -> (stream_size (incoming s') < stream_size (incoming s))%nat).
Proof.
  unfold readAtMost.
  set (count := u64 (s64 (if atMost <? max then atMost else max))).
  pose proof (read_stream_ok s count) as Hok.
  pose proof (read_sent s count) as Hsent.
  pose proof (read_shrinks s count (proj1 (u64_range _))) as Hsh.
  destruct (read s count) as [[k got] s1]. simpl in *.
  assert (H0 : 0 < s64 (u64 k) -> k <> 0).
  { intros H ->. vm_compute in H. discriminate. }
  destruct (k <? 0); [|destruct (k =? 0)]; repeat split; auto.
Qed.

Lemma readAtMost_same_stream s s' buf max atMost :
  incoming s = incoming s' ->
  let '(r, s1, b1) := readAtMost s buf max atMost in
  let '(r', s1', b1') := readAtMost s' buf max atMost in
  r = r' /\ incoming s1 = incoming s1' /\ b1 = b1'.
Proof.
  intros Hin. unfold readAtMost.
  set (count := u64 (s64 (if atMost <? max then atMost else max))).
  destruct (read_same_stream s s' count Hin) as [H1 H2].
  destruct (read s count) as [[k got] s1].
  destruct (read s' count) as [[k' got'] s1'].
  simpl in *. injection H1 as <- <-.
  destruct (k <? 0); [|destruct (k =? 0)]; auto.
Qed.

(** ** The worker's steps *)

Ltac unfold_conn :=
  unfold files_only, same_wire, same_position, counters, upd_stats,
    with_sock, with_fs, with_stats, with_buf, with_off, with_numRead, with_dest,
    Stats.addHeaderBytes, Stats.addDataBytes, Stats.addEffectiveBytes,
    Stats.incrNumBlocks, Stats.incrFailedAttempts, Stats.setErrorCode,
    Stats.setRemoteErrorCode in *;
  simpl in *.

Ltac conn_eq := cbn [same_outcome]; unfold_conn; intuition (try congruence).

Ltac tuple_eq :=
  repeat match goal with |- (_, _) = (_, _) => f_equal end; try lia; try congruence.

Section Steps.

Context {D : Decls}.

Lemma same_wire_sym c c' : same_wire c c' -> same_wire c' c.
Proof. conn_eq. Qed.

Lemma same_wire_trans c1 c2 c3 : same_wire c1 c2 -> same_wire c2 c3 -> same_wire c1 c3.
Proof. conn_eq. Qed.

Lemma files_only_same_wire c c' : files_only c c' -> same_wire c c'.
Proof. conn_eq. Qed.

Lemma files_only_refl c : files_only c c.
Proof. conn_eq. Qed.

Lemma open_dest_files_only dw d c : files_only c (open_dest dw d c).
Proof.
  unfold open_dest, syscall. destruct dw; [|apply files_only_refl].
  repeat match goal with |- context [if ?b then _ else _] => destruct b end;
    conn_eq.
Qed.

Lemma write_out_files_only data count c : files_only c (write_out data count c).
Proof.
  unfold write_out, syscall.
  repeat match goal with |- context [if ?b then _ else _] => destruct b end;
    conn_eq.
Qed.

Lemma close_dest_files_only c : files_only c (close_dest c).
Proof.
  unfold close_dest, syscall.
  repeat match goal with |- context [if ?b then _ else _] => destruct b end;
    conn_eq.
Qed.

Lemma stream_tail_unfold fuel B sz w c :
  stream_tail (Datatypes.S fuel) B sz w c =
  if w <? sz then
    let '(r, sock1, buf1) :=
      readAtMost (c_sock c) (c_buf c) B (u64 (sz - w)) in
    let nres := s64 r in
    let c1 := with_buf buf1 (with_sock sock1 c) in
    if nres <=? 0 then Val (w, c1)
    else
      let c2 := upd_stats (Stats.addDataBytes nres) c1 in
      let c3 := write_out (slice buf1 0 nres) nres c2 in
      stream_tail fuel B sz (w + nres) c3
  else Val (w, c).
Proof. reflexivity. Qed.

(** the loop of lines 441-457 comes to its end, and counts what it takes *)
Lemma stream_tail_run fuel : forall B sz w c,
  (stream_size (incoming (c_sock c)) < fuel)%nat ->
  exists w' c',
    stream_tail fuel B sz w c = Val (w', c') /\
    w <= w' /\
    c_off c' = c_off c /\ c_numRead c' = c_numRead c /\
    sent (c_sock c') = sent (c_sock c) /\
    (stream_ok (incoming (c_sock c)) -> stream_ok (incoming (c_sock c'))) /\
    counters (c_stats c') =
    counters (Stats.addDataBytes (w' - w) (c_stats c)).
Proof.
  induction fuel as [|fuel IH]; intros B sz w c Hf; [lia|].
  rewrite stream_tail_unfold.
  destruct (w <? sz).
  2:{ exists w, c. repeat split; auto; try lia.
      unfold counters, Stats.addDataBytes; simpl. tuple_eq. }
  pose proof (readAtMost_facts (c_sock c) (c_buf c) B (u64 (sz - w))) as Hm.
  destruct (readAtMost (c_sock c) (c_buf c) B (u64 (sz - w))) as [[r s1] b1].
  destruct Hm as (Hok & Hsent & Hsh).
  cbv zeta.
  destruct (s64 r <=? 0) eqn:E.
  - eexists _, _. split; [reflexivity|]. simpl. repeat split; auto; try lia.
    unfold counters, Stats.addDataBytes; simpl. tuple_eq.
  - apply Z.leb_gt in E. specialize (Hsh E).
    set (c2 := upd_stats (Stats.addDataBytes (s64 r)) (with_buf b1 (with_sock s1 c))).
    pose proof (write_out_files_only (slice b1 0 (s64 r)) (s64 r) c2) as Hw.
    remember (write_out (slice b1 0 (s64 r)) (s64 r) c2) as c3 eqn:Ec3. clear Ec3.
    destruct Hw as (W1 & W2 & W3 & W4 & W5).
    destruct (IH B sz (w + s64 r) c3)
      as (w' & c' & Hrun & Hle & H1 & H2 & H3 & H4 & H5).
    { rewrite W1. unfold c2. simpl. lia. }
    exists w', c'. split; [exact Hrun|].
    rewrite W1 in *. rewrite W3 in H1. rewrite W4 in H2.
    unfold c2, counters in *. simpl in *.
    injection W5 as Wa Wb Wc Wd We Wf.
    injection H5 as Ha Hb Hc Hd He Hf'.
    repeat split; auto; try lia; try congruence.
    tuple_eq.
Qed.

Lemma stream_tail_same fuel : forall B sz w c c',
  same_wire c c' ->
  match stream_tail fuel B sz w c, stream_tail fuel B sz w c' with
  | Val (w1, c1), Val (w2, c2) => w1 = w2 /\ same_wire c1 c2
  | CheckFailed, CheckFailed => True
  | OutOfFuel, OutOfFuel => True
  | _, _ => False
  end.
Proof.
  induction fuel as [|fuel IH]; intros B sz w c c' H.
  - simpl. destruct (w <? sz); auto.
  - rewrite !stream_tail_unfold. destruct (w <? sz); auto.
    assert (Hin : incoming (c_sock c) = incoming (c_sock c')) by (apply H).
    assert (Hbuf : c_buf c = c_buf c') by (apply H).
    pose proof (readAtMost_same_stream (c_sock c) (c_sock c') (c_buf c) B (u64 (sz - w)) Hin) as Hm.
    rewrite <- Hbuf.
    destruct (readAtMost (c_sock c) (c_buf c) B (u64 (sz - w))) as [[r s1] b1].
    destruct (readAtMost (c_sock c') (c_buf c) B (u64 (sz - w))) as [[r' s1'] b1'].
    destruct Hm as (<- & Hs & <-). cbv zeta.
    destruct (s64 r <=? 0).
    + split; auto. clear IH. conn_eq.
    + apply IH.
      eapply same_wire_trans;
        [apply same_wire_sym, files_only_same_wire, write_out_files_only|].
      eapply same_wire_trans;
        [|apply files_only_same_wire, write_out_files_only].
      clear IH. conn_eq.
Qed.

End Steps.

Section FileCmd.

Context {D : Decls}.

Lemma same_wire_with_off o c c' :
  same_wire c c' -> same_wire (with_off o c) (with_off o c').
Proof. conn_eq. Qed.

Lemma same_wire_add_header n c c' :
  same_wire c c' ->
  same_wire (upd_stats (Stats.addHeaderBytes n) c) (upd_stats (Stats.addHeaderBytes n) c').
Proof. conn_eq. Qed.

Lemma same_wire_add_data n c c' :
  same_wire c c' ->
  same_wire (upd_stats (Stats.addDataBytes n) c) (upd_stats (Stats.addDataBytes n) c').
Proof. conn_eq. Qed.

Lemma same_wire_files f g c c' :
  (forall x, files_only x (f x)) -> (forall x, files_only x (g x)) ->
  same_wire c c' -> same_wire (f c) (g c').
Proof.
  intros Hf Hg H.
  eapply same_wire_trans; [apply same_wire_sym, files_only_same_wire, Hf|].
  eapply same_wire_trans; [exact H|]. apply files_only_same_wire, Hg.
Qed.

(** the end of a FILE command, lines 458-494, once the payload loop is over *)
Lemma file_cmd_same dw dw' B numRead old c c' :
  same_wire c c' ->
  same_outcome (file_cmd dw B numRead old c) (file_cmd dw' B numRead old c').
Proof.
  intros H. unfold file_cmd.
  assert (Hb : c_buf c' = c_buf c) by (symmetry; apply H).
  assert (Ho : c_off c' = c_off c) by (symmetry; apply H).
  rewrite Hb, Ho.
  set (d := decode (c_buf c) (c_off c) (numRead + old)).
  cbv zeta.
  set (hdr := s64 (d_off d - old)).
  assert (H1 : same_wire (upd_stats (Stats.addHeaderBytes hdr) (with_off (d_off d) c))
                         (upd_stats (Stats.addHeaderBytes hdr) (with_off (d_off d) c')))
    by (apply same_wire_add_header, same_wire_with_off, H).
  remember (upd_stats (Stats.addHeaderBytes hdr) (with_off (d_off d) c)) as c1 eqn:E1.
  remember (upd_stats (Stats.addHeaderBytes hdr) (with_off (d_off d) c')) as c1' eqn:E1'.
  clear E1 E1'.
  destruct (d_success d); simpl negb; cbv iota.
  2:{ clear - H1. conn_eq. }
  set (rem := s64 (numRead + old - d_off d)).
  set (toWrite := if rem >=? d_sourceSize d then d_sourceSize d else rem).
  assert (H2 : same_wire (open_dest dw d c1) (open_dest dw' d c1'))
    by (apply same_wire_files; auto using open_dest_files_only).
  remember (open_dest dw d c1) as c2 eqn:E2.
  remember (open_dest dw' d c1') as c2' eqn:E2'. clear E2 E2'.
  apply (same_wire_add_data toWrite) in H2.
  remember (upd_stats (Stats.addDataBytes toWrite) c2) as c3 eqn:E3.
  remember (upd_stats (Stats.addDataBytes toWrite) c2') as c3' eqn:E3'. clear E3 E3'.
  assert (H4 : same_wire (write_out (slice (c_buf c3) (d_off d) toWrite) toWrite c3)
                         (write_out (slice (c_buf c3') (d_off d) toWrite) toWrite c3'))
    by (apply same_wire_files; auto using write_out_files_only).
  remember (write_out (slice (c_buf c3) (d_off d) toWrite) toWrite c3) as c4 eqn:E4.
  remember (write_out (slice (c_buf c3') (d_off d) toWrite) toWrite c3') as c4' eqn:E4'.
  clear E4 E4'.
  apply (same_wire_with_off (u64 (d_off d + toWrite))) in H4.
  remember (with_off (u64 (d_off d + toWrite)) c4) as c5 eqn:E5.
  remember (with_off (u64 (d_off d + toWrite)) c4') as c5' eqn:E5'.
  assert (Hin : incoming (c_sock c5') = incoming (c_sock c5)) by (symmetry; apply H4).
  rewrite Hin.
  pose proof (stream_tail_same (S (stream_size (incoming (c_sock c5)))) B
                               (d_sourceSize d) toWrite c5 c5' H4) as Ht.
  destruct (stream_tail (S (stream_size (incoming (c_sock c5)))) B
                        (d_sourceSize d) toWrite c5) as [[w6 c6]| |];
    destruct (stream_tail (S (stream_size (incoming (c_sock c5)))) B
                          (d_sourceSize d) toWrite c5') as [[w6' c6']| |];
    try contradiction.
  2:{ simpl. clear - H4. conn_eq. }
  2:{ simpl. clear - H4. conn_eq. }
  destruct Ht as [<- H6].
  destruct (w6 =? d_sourceSize d); simpl negb; cbv iota.
  2:{ simpl. clear - H6. conn_eq. }
  assert (H7 : same_wire (close_dest c6) (close_dest c6'))
    by (apply same_wire_files; auto using close_dest_files_only).
  remember (close_dest c6) as c7 eqn:E7.
  remember (close_dest c6') as c7' eqn:E7'. clear E7 E7'.
  assert (Hb7 : c_buf c7' = c_buf c7) by (symmetry; apply H7).
  destruct (rem - toWrite <? 0); [simpl; clear - H7; conn_eq|].
  destruct (0 <? rem - toWrite); [|simpl; clear - H7; conn_eq].
  destruct ((rem - toWrite <? kMaxHeader) && (u64 (B / 2) <? u64 (d_off d + toWrite)));
    simpl; clear - H7; conn_eq.
Qed.

End FileCmd.

Section SameStream.

Context {D : Decls}.

Lemma done_cmd_same j numRead status c c' :
  same_wire c c' ->
  same_outcome (done_cmd j numRead status c) (done_cmd j numRead status c').
Proof.
  intros H. unfold done_cmd.
  destruct (negb (numRead =? 2)); [conn_eq|].
  cbv zeta.
  destruct (negb (status =? OK)); destruct j; unfold write; conn_eq.
Qed.

Lemma iteration_same j dw dw' B c c' :
  same_wire c c' ->
  same_outcome (iteration j dw B c) (iteration j dw' B c').
Proof.
  intros H. unfold iteration.
  assert (Hb : c_buf c' = c_buf c) by (symmetry; apply H).
  assert (Ho : c_off c' = c_off c) by (symmetry; apply H).
  assert (Hn : c_numRead c' = c_numRead c) by (symmetry; apply H).
  assert (Hin : incoming (c_sock c) = incoming (c_sock c')) by apply H.
  rewrite Hb, Ho, Hn.
  pose proof (readAtLeast_same_stream (c_sock c) (c_sock c') (c_buf c) (c_off c)
                (u64 (B - c_off c)) kMaxHeader (c_numRead c) Hin) as Hr.
  destruct (readAtLeast (c_sock c) (c_buf c) (c_off c) (u64 (B - c_off c))
                        kMaxHeader (c_numRead c)) as [[[r s1] b1]| |];
    destruct (readAtLeast (c_sock c') (c_buf c) (c_off c) (u64 (B - c_off c))
                          kMaxHeader (c_numRead c)) as [[[r' s1'] b1']| |];
    try contradiction; try (clear - H; conn_eq; fail).
  destruct Hr as (<- & Hs & <-). cbv zeta.
  assert (H1 : same_wire (with_numRead (s64 r) (with_buf b1 (with_sock s1 c)))
                         (with_numRead (s64 r) (with_buf b1 (with_sock s1' c'))))
    by (clear - H Hs; conn_eq).
  remember (with_numRead (s64 r) (with_buf b1 (with_sock s1 c))) as c1 eqn:E1.
  remember (with_numRead (s64 r) (with_buf b1 (with_sock s1' c'))) as c1' eqn:E1'.
  assert (Ho1 : c_off c1 = c_off c) by (subst c1; reflexivity).
  clear E1 E1'.
  destruct (s64 r <=? 0); [clear - H1; conn_eq|].
  apply (same_wire_with_off (u64 (c_off c + 1))) in H1.
  remember (with_off (u64 (c_off c + 1)) c1) as c2 eqn:E2.
  remember (with_off (u64 (c_off c + 1)) c1') as c2' eqn:E2'.
  assert (Ho2 : c_off c2' = c_off c2) by (subst; reflexivity).
  clear E2 E2'.
  destruct (load b1 (c_off c) =? EXIT_CMD).
  { destruct (negb (s64 r =? 1)); clear - H1; conn_eq. }
  rewrite Ho2.
  apply (same_wire_with_off (u64 (c_off c2 + 1))) in H1.
  destruct (load b1 (c_off c) =? DONE_CMD); [now apply done_cmd_same|].
  destruct (negb (load b1 (c_off c) =? FILE_CMD)); [clear - H1; conn_eq|].
  now apply file_cmd_same.
Qed.

Lemma loop_same j dw dw' B fuel : forall c c',
  same_wire c c' ->
  same_outcome (loop fuel (iteration j dw B) c) (loop fuel (iteration j dw' B) c').
Proof.
  induction fuel as [|fuel IH]; intros c c' H; simpl.
  - conn_eq.
  - pose proof (iteration_same j dw dw' B c c' H) as Hi.
    destruct (iteration j dw B c); destruct (iteration j dw' B c');
      simpl in Hi; try contradiction; auto.
Qed.

End SameStream.

Section FileCmdRun.

Context {D : Decls}.

(** what a FILE command does to the stream, the offsets and the counters *)
Lemma file_cmd_run dw B numRead old c :
  let d := decode (c_buf c) (c_off c) (numRead + old) in
  let hdr := s64 (d_off d - old) in
  let sz := d_sourceSize d in
  let rem := s64 (numRead + old - d_off d) in
  let toWrite := if rem >=? sz then sz else rem in
  let off' := u64 (d_off d + toWrite) in
  let r := file_cmd dw B numRead old c in
  let c' := state_of r in
  (stream_ok (incoming (c_sock c)) -> stream_ok (incoming (c_sock c'))) /\
  (d_success d = false ->
     r = Break c' /\
     counters (c_stats c')
     = counters (Stats.incrFailedAttempts (Stats.addHeaderBytes hdr (c_stats c)))) /\
  (d_success d = true ->
     exists w',
       toWrite <= w' /\
       (w' <> sz ->
          r = Break c' /\
          counters (c_stats c')
          = counters (Stats.incrFailedAttempts
                        (Stats.addDataBytes w' (Stats.addHeaderBytes hdr (c_stats c))))) /\
       (w' = sz ->
          counters (c_stats c')
          = counters (Stats.incrNumBlocks
                        (Stats.addEffectiveBytes hdr sz
                           (Stats.addDataBytes w' (Stats.addHeaderBytes hdr (c_stats c))))) /\
          (rem - toWrite < 0 -> r = Crashed c') /\
          (0 <= rem - toWrite ->
             r = Next c' /\ c_numRead c' = rem - toWrite /\
             (c_off c' = off' \/ c_off c' = 0) /\
             (rem - toWrite = 0 -> c_off c' = 0)))).
Proof.
  unfold file_cmd.
  set (d := decode (c_buf c) (c_off c) (numRead + old)).
  cbv zeta.
  set (hdr := s64 (d_off d - old)).
  set (sz := d_sourceSize d).
  set (rem := s64 (numRead + old - d_off d)).
  set (toWrite := if rem >=? sz then sz else rem).
  set (off' := u64 (d_off d + toWrite)).
  destruct (d_success d) eqn:Ed; simpl negb; cbv iota.
  2:{ simpl. repeat split; auto; try discriminate. }
  set (c1 := upd_stats (Stats.addHeaderBytes hdr) (with_off (d_off d) c)).
  pose proof (open_dest_files_only dw d c1) as (A1 & A2 & A3 & A4 & A5).
  remember (open_dest dw d c1) as c2 eqn:E2. clear E2.
  set (c3 := upd_stats (Stats.addDataBytes toWrite) c2).
  pose proof (write_out_files_only (slice (c_buf c3) (d_off d) toWrite) toWrite c3)
    as (B1 & B2 & B3 & B4 & B5).
  remember (write_out (slice (c_buf c3) (d_off d) toWrite) toWrite c3) as c4 eqn:E4.
  clear E4.
  set (c5 := with_off off' c4).
  destruct (stream_tail_run (S (stream_size (incoming (c_sock c5)))) B sz toWrite c5)
    as (w' & c6 & Hrun & Hle & C1 & C2 & C3 & C4 & C5); [lia|].
  rewrite Hrun.
  assert (Hsock5 : c_sock c5 = c_sock c).
  { unfold c5, c3, c1 in *. simpl in *. congruence. }
  assert (Hcount6 : counters (c_stats c6)
                    = counters (Stats.addDataBytes w' (Stats.addHeaderBytes hdr (c_stats c)))).
  { rewrite C5. unfold c5, c3, c1, counters in *. simpl in *.
    injection A5 as ? ? ? ? ? ?. injection B5 as ? ? ? ? ? ?. tuple_eq. }
  assert (Hok6 : stream_ok (incoming (c_sock c)) -> stream_ok (incoming (c_sock c6))).
  { rewrite <- Hsock5. exact C4. }
  assert (Hoff6 : c_off c6 = off') by (rewrite C1; reflexivity).
  clear A1 A2 A3 A4 A5 B1 B2 B3 B4 B5 C1 C2 C3 C4 C5 Hrun Hsock5.
  clearbody c5. clear c1 c2 c3 c4.
  destruct (w' =? sz) eqn:Ew; simpl negb; cbv iota.
  2:{ apply Z.eqb_neq in Ew. simpl. split; [exact Hok6|].
      split; [discriminate|]. intros _. exists w'. split; [exact Hle|].
      split; [|intros; contradiction]. intros _. split; [reflexivity|].
      unfold counters in *. simpl in *. injection Hcount6 as ? ? ? ? ? ?. tuple_eq. }
  apply Z.eqb_eq in Ew.
  pose proof (close_dest_files_only c6) as (F1 & F2 & F3 & F4 & F5).
  remember (close_dest c6) as c7 eqn:E7. clear E7.
  assert (Hcount7 : counters (c_stats (upd_stats Stats.incrNumBlocks
                                 (upd_stats (Stats.addEffectiveBytes hdr sz) c7)))
                    = counters (Stats.incrNumBlocks
                        (Stats.addEffectiveBytes hdr sz
                           (Stats.addDataBytes w' (Stats.addHeaderBytes hdr (c_stats c)))))).
  { unfold counters in *. simpl in *.
    injection Hcount6 as ? ? ? ? ? ?. injection F5 as ? ? ? ? ? ?. tuple_eq. }
  remember (upd_stats Stats.incrNumBlocks (upd_stats (Stats.addEffectiveBytes hdr sz) c7))
    as c8 eqn:E8.
  assert (Hsock8 : c_sock c8 = c_sock c6) by (subst c8; simpl; congruence).
  assert (Hoff8 : c_off c8 = off') by (subst c8; simpl; congruence).
  clear E8 F1 F2 F3 F4 F5 Hcount6.
  assert (Hok8 : stream_ok (incoming (c_sock c)) -> stream_ok (incoming (c_sock c8)))
    by (rewrite Hsock8; exact Hok6).
  destruct (rem - toWrite <? 0) eqn:E0.
  { apply Z.ltb_lt in E0. simpl. split; [exact Hok8|]. split; [discriminate|].
    intros _. exists w'. split; [exact Hle|]. split; [intros; contradiction|].
    intros _. split; [exact Hcount7|]. split; [reflexivity|]. lia. }
  apply Z.ltb_ge in E0.
  assert (Hgoes : 0 <= rem - toWrite) by lia.
  destruct (0 <? rem - toWrite) eqn:E1;
    [apply Z.ltb_lt in E1;
     destruct ((rem - toWrite <? kMaxHeader) && (u64 (B / 2) <? off'))
    |apply Z.ltb_ge in E1];
    (simpl; split; [exact Hok8|]; split; [discriminate|];
     intros _; exists w'; split; [exact Hle|]; split; [intros; contradiction|];
     intros _; split; [exact Hcount7|]; split; [lia|];
     intros _; repeat split; auto; lia).
Qed.

End FileCmdRun.

Section Turns.

Context {D : Decls}.
Variables (isJoinable_ doActualWrites : bool) (bufferSize : Z).
Hypothesis advances : decoder_advances.
Hypothesis in_frame : decoder_in_frame.
Hypothesis size_fits : 0 <= bufferSize < two63.

Let turn := iteration isJoinable_ doActualWrites bufferSize.

(** one turn of the inner loop, from a state where the buffer invariant
    holds and with a sender that declares no negative size *)
Lemma iteration_step c :
  buffer_ok bufferSize c ->
  stream_ok (incoming (c_sock c)) ->
  size_trusted bufferSize c ->
  let c' := state_of (turn c) in
  headerBytes (c_stats c) <= headerBytes (c_stats c') /\
  dataBytes (c_stats c) <= dataBytes (c_stats c') /\
  stream_ok (incoming (c_sock c')) /\
  (turn c = Next c' -> buffer_ok bufferSize c').
Proof.
  pose proof two63_eq as H63. pose proof two64_eq as H64.
  intros (Hoff & Hnum & Hsum) Hok Htrust.
  unfold turn, iteration. unfold size_trusted, declared in Htrust.
  rewrite (u64_small (bufferSize - c_off c)) in * by lia.
  pose proof (readAtLeast_bounds (c_sock c) (c_buf c) (c_off c) (bufferSize - c_off c)
                kMaxHeader (c_numRead c)) as Hb.
  destruct (readAtLeast (c_sock c) (c_buf c) (c_off c) (bufferSize - c_off c)
                        kMaxHeader (c_numRead c)) as [[[r s1] b1]| |];
    [|simpl; repeat split; auto; try lia; discriminate
     |simpl; repeat split; auto; try lia; discriminate].
  destruct (Hb r s1 b1 Hok) as (Hok1 & Hmax & Hge & _ & _); try lia; auto.
  clear Hb. cbv zeta in *.
  set (numRead := s64 r) in *.
  destruct (numRead <=? 0) eqn:E0;
    [simpl; repeat split; auto; try lia; discriminate|].
  apply Z.leb_gt in E0. specialize (Hge ltac:(lia)).
  replace (0 <? numRead) with true in Htrust by (symmetry; apply Z.ltb_lt; lia).
  rewrite (s64_small (c_off c)) in * by lia.
  destruct (load b1 (c_off c) =? EXIT_CMD) eqn:Ex.
  { destruct (negb (numRead =? 1)); simpl; repeat split; auto; try lia; discriminate. }
  destruct (load b1 (c_off c) =? DONE_CMD) eqn:Ed.
  { unfold done_cmd. cbv zeta.
    destruct (negb (numRead =? 2));
      [simpl; repeat split; auto; try lia; discriminate|].
    destruct (negb (load b1 _ =? OK)); destruct isJoinable_;
      simpl; repeat split; auto; try lia; discriminate. }
  destruct (load b1 (c_off c) =? FILE_CMD) eqn:Ef; simpl negb; cbv iota;
    [|simpl; repeat split; auto; try lia; discriminate].
  simpl in Htrust.
  set (c3 := with_off _ _).
  assert (Hoff3 : c_off c3 = c_off c + 2).
  { unfold c3. simpl. rewrite !u64_small; rewrite ?u64_small; lia. }
  assert (Hbuf3 : c_buf c3 = b1) by reflexivity.
  assert (Hsock3 : c_sock c3 = s1) by reflexivity.
  assert (Hst3 : c_stats c3 = c_stats c) by reflexivity.
  rewrite !u64_small in Htrust; rewrite ?u64_small; try lia.
  pose proof (file_cmd_run doActualWrites bufferSize numRead (c_off c) c3) as Hrun.
  cbv zeta in Hrun. rewrite Hoff3, Hbuf3, Hsock3, Hst3 in Hrun.
  set (d := decode b1 (c_off c + 2) (numRead + c_off c)) in *.
  assert (Htr : d_success d = true -> 0 <= d_sourceSize d).
  { apply Htrust. unfold d. do 2 f_equal. lia. }
  clear Htrust. rename Htr into Htrust.
  destruct (advances b1 (c_off c + 2) (numRead + c_off c)) as [Ha1 Ha2].
  fold d in Ha1, Ha2.
  pose proof (in_frame b1 (c_off c + 2) (numRead + c_off c)) as Hfr. fold d in Hfr.
  clearbody c3.
  remember (file_cmd doActualWrites bufferSize numRead (c_off c) c3) as res eqn:Eres.
  clear Eres.
  destruct Hrun as (R1 & R2 & R3).
  rewrite (s64_small (d_off d - c_off c)) in * by lia.
  split; [|split; [|split; [auto|]]].
  - destruct (d_success d).
    + destruct (R3 eq_refl) as (w' & Hw & Rn & Re).
      destruct (Z.eq_dec w' (d_sourceSize d)) as [E|E].
      * destruct (Re E) as (Hc & _). unfold counters in Hc; simpl in Hc.
        injection Hc as ? ? ? ? ? ?. lia.
      * destruct (Rn E) as (_ & Hc). unfold counters in Hc; simpl in Hc.
        injection Hc as ? ? ? ? ? ?. lia.
    + destruct (R2 eq_refl) as (_ & Hc). unfold counters in Hc; simpl in Hc.
      injection Hc as ? ? ? ? ? ?. lia.
  - destruct (d_success d).
    + specialize (Hfr eq_refl). specialize (Htrust eq_refl).
      rewrite (s64_small (numRead + c_off c - d_off d)) in * by lia.
      destruct (R3 eq_refl) as (w' & Hw & Rn & Re).
      assert (0 <= w').
      { destruct (numRead + c_off c - d_off d >=? d_sourceSize d); lia. }
      destruct (Z.eq_dec w' (d_sourceSize d)) as [E|E].
      * destruct (Re E) as (Hc & _). unfold counters in Hc; simpl in Hc.
        injection Hc as ? ? ? ? ? ?. lia.
      * destruct (Rn E) as (_ & Hc). unfold counters in Hc; simpl in Hc.
        injection Hc as ? ? ? ? ? ?. lia.
    + destruct (R2 eq_refl) as (_ & Hc). unfold counters in Hc; simpl in Hc.
      injection Hc as ? ? ? ? ? ?. lia.
  - intros Hnext.
    destruct (d_success d).
    2:{ destruct (R2 eq_refl) as (Hbr & _). rewrite Hbr in Hnext. discriminate. }
    specialize (Hfr eq_refl). specialize (Htrust eq_refl).
    rewrite (s64_small (numRead + c_off c - d_off d)) in * by lia.
    destruct (R3 eq_refl) as (w' & Hw & Rn & Re).
    destruct (Z.eq_dec w' (d_sourceSize d)) as [E|E].
    2:{ destruct (Rn E) as (Hbr & _). rewrite Hbr in Hnext. discriminate. }
    destruct (Re E) as (_ & _ & Hn).
    set (rem := numRead + c_off c - d_off d) in *.
    set (toWrite := if rem >=? d_sourceSize d then d_sourceSize d else rem) in *.
    assert (Htw : 0 <= toWrite <= rem).
    { unfold toWrite. destruct (rem >=? d_sourceSize d) eqn:Eg; [|lia].
      apply Z.geb_le in Eg. lia. }
    destruct (Hn ltac:(lia)) as (_ & N1 & N2 & N3).
    rewrite (u64_small (d_off d + toWrite)) in N2 by lia.
    unfold buffer_ok. destruct N2 as [N2|N2]; rewrite N1, N2; lia.
Qed.

End Turns.

(** ** The sample decoder keeps to the decoder's contract *)

Lemma sample_advances : @decoder_advances Sample.decls.
Proof.
  intros buf off max. simpl. unfold Sample.decode_frame.
  pose proof (Z.mod_pos_bound (load buf off) 256 ltac:(lia)).
  destruct (off + 1 + load buf off mod 256 + 24 <=? max) eqn:E; simpl.
  - apply Z.leb_le in E. lia.
  - lia.
Qed.

Lemma sample_in_frame : @decoder_in_frame Sample.decls.
Proof.
  intros buf off max. simpl. unfold Sample.decode_frame.
  destruct (off + 1 + load buf off mod 256 + 24 <=? max) eqn:E; simpl.
  - intros _. now apply Z.leb_le in E.
  - discriminate.
Qed.

Section Connection.

Context {D : Decls}.
Variables (isJoinable_ doActualWrites : bool) (bufferSize : Z).
Hypothesis advances : decoder_advances.
Hypothesis in_frame : decoder_in_frame.
Hypothesis size_fits : 0 <= bufferSize < two63.

Let turn := iteration isJoinable_ doActualWrites bufferSize.
Let trusted := run_of isJoinable_ doActualWrites bufferSize (size_trusted bufferSize).

Lemma run_of_trusted c0 c :
  buffer_ok bufferSize c0 ->
  stream_ok (incoming (c_sock c0)) ->
  trusted c0 c ->
  buffer_ok bufferSize c /\
  stream_ok (incoming (c_sock c)) /\
  headerBytes (c_stats c0) <= headerBytes (c_stats c) /\
  dataBytes (c_stats c0) <= dataBytes (c_stats c).
Proof.
  intros Hb Hs Hrun. induction Hrun as [c|c c1 c2 Hrun IH Hok Hturn].
  - split; [exact Hb|]. split; [exact Hs|]. lia.
  - destruct (IH Hb Hs) as (Hb1 & Hs1 & Hh & Hd).
    pose proof (iteration_step isJoinable_ doActualWrites bufferSize
                  advances in_frame size_fits c1 Hb1 Hs1 Hok) as Hstep.
    cbv zeta in Hstep. rewrite Hturn in Hstep. simpl in Hstep.
    destruct Hstep as (S1 & S2 & S3 & S4).
    split; [now apply S4|]. split; [exact S3|]. lia.
Qed.

(** C1, amended.  [numRead] counts the unconsumed bytes from [off] on, so
    what holds at the head of every turn of the inner loop is
    [0 <= off], [0 <= numRead] and [off + numRead <= bufferSize]: for a
    decoder that keeps to its contract, a buffer of less than 2^63 bytes and
    a sender that declares no negative size. *)
Theorem buffer_invariant_counts_from_off c0 c :
  buffer_ok bufferSize c0 ->
  stream_ok (incoming (c_sock c0)) ->
  run_of isJoinable_ doActualWrites bufferSize (size_trusted bufferSize) c0 c ->
  buffer_ok bufferSize c.
Proof. intros Hb Hs Hrun. now apply (run_of_trusted c0 c Hb Hs Hrun). Qed.

(** C8, amended.  While the sender declares no negative size (and for a
    decoder that keeps to its contract and a buffer of less than 2^63
    bytes), [headerBytes] and [dataBytes] never decrease: not from the start
    of the connection to the head of a turn, and not over the turn that
    follows. *)
Theorem counters_grow_for_trusted_sizes c0 c :
  buffer_ok bufferSize c0 ->
  stream_ok (incoming (c_sock c0)) ->
  run_of isJoinable_ doActualWrites bufferSize (size_trusted bufferSize) c0 c ->
  size_trusted bufferSize c ->
  let c' := state_of (iteration isJoinable_ doActualWrites bufferSize c) in
  headerBytes (c_stats c0) <= headerBytes (c_stats c) <= headerBytes (c_stats c') /\
  dataBytes (c_stats c0) <= dataBytes (c_stats c) <= dataBytes (c_stats c').
Proof.
  intros Hb Hs Hrun Hok.
  destruct (run_of_trusted c0 c Hb Hs Hrun) as (Hb1 & Hs1 & Hh & Hd).
  pose proof (iteration_step isJoinable_ doActualWrites bufferSize
                advances in_frame size_fits c Hb1 Hs1 Hok) as Hstep.
  cbv zeta in *. destruct Hstep as (S1 & S2 & _). lia.
Qed.

End Connection.

(** ** Two streams on the sample protocol *)

Lemma straddle_trusted : @size_trusted Sample.decls 2048 Sample.straddle.
Proof.
  intros d Hd _. vm_compute in Hd. injection Hd as <-. vm_compute. discriminate.
Qed.

Lemma straddle_first_turn :
  @iteration Sample.decls true true 2048 Sample.straddle
  = Next (state_of (@iteration Sample.decls true true 2048 Sample.straddle)).
Proof. vm_compute. reflexivity. Qed.

Lemma sample_size_fits : 0 <= 2048 < two63.
Proof. split; [lia | reflexivity]. Qed.

Lemma sample_starts_ok stream files stats :
  @buffer_ok 2048 (Sample.accepted 2048 stream files stats).
Proof. unfold buffer_ok. simpl. lia. Qed.

Lemma buffer_invariant_witness :
  @buffer_ok 2048 (state_of (@iteration Sample.decls true true 2048 Sample.straddle)).
Proof.
  apply (@buffer_invariant_counts_from_off Sample.decls true true 2048
           sample_advances sample_in_frame sample_size_fits Sample.straddle).
  - apply sample_starts_ok.
  - repeat constructor.
  - eapply run_next; [apply run_here | exact straddle_trusted | exact straddle_first_turn].
Defined.

(** C1, as the specification has it: after file "a" the two bytes of DONE are
    carried over in place, with [off = 29] and [numRead = 2]. *)
Lemma straddle_breaks_spec_invariant :
  ~ @invariant_at_every_turn Sample.decls true true 2048 Sample.straddle.
Proof.
  intros H.
  assert (Hrun : @run_of Sample.decls true true 2048 (fun _ => True) Sample.straddle
                  (state_of (@iteration Sample.decls true true 2048 Sample.straddle)))
    by (eapply run_next; [apply run_here | exact I | exact straddle_first_turn]).
  specialize (H _ Hrun).
  destruct H as (_ & H & _). vm_compute in H. exact (H eq_refl).
Qed.

Lemma distrustful_first_turn :
  @iteration Sample.decls true true 2048 Sample.distrustful
  = Next (state_of (@iteration Sample.decls true true 2048 Sample.distrustful)).
Proof. vm_compute. reflexivity. Qed.

(** C8, as the specification has it: file "b" declares the size -1, and
    [dataBytes] goes from 1 to 0. *)
Lemma negative_size_lowers_dataBytes :
  ~ @counters_never_decrease Sample.decls true true 2048 Sample.distrustful.
Proof.
  intros H.
  assert (Hrun : @run_of Sample.decls true true 2048 (fun _ => True) Sample.distrustful
                  (state_of (@iteration Sample.decls true true 2048 Sample.distrustful)))
    by (eapply run_next; [apply run_here | exact I | exact distrustful_first_turn]).
  specialize (H _ Hrun).
  destruct H as (_ & H). vm_compute in H. exact (H eq_refl).
Qed.

Lemma counters_grow_witness :
  let c := state_of (@iteration Sample.decls true true 2048 Sample.straddle) in
  let c' := state_of (@iteration Sample.decls true true 2048 c) in
  headerBytes (c_stats Sample.straddle) <= headerBytes (c_stats c) <= headerBytes (c_stats c') /\
  dataBytes (c_stats Sample.straddle) <= dataBytes (c_stats c) <= dataBytes (c_stats c').
Proof.
  apply (@counters_grow_for_trusted_sizes Sample.decls true true 2048
           sample_advances sample_in_frame sample_size_fits Sample.straddle).
  - apply sample_starts_ok.
  - repeat constructor.
  - eapply run_next; [apply run_here | exact straddle_trusted | exact straddle_first_turn].
  - intros d Hd. vm_compute in Hd. discriminate.
Defined.

Section Files.

Context {D : Decls}.


(** a turn that gets as far as decoding a block header is the FILE command
    on that header *)
Lemma turn_on_a_block j dw B c d :
  declared B c = Some d ->
  exists numRead c3,
    iteration j dw B c = file_cmd dw B numRead (s64 (c_off c)) c3 /\
    c_stats c3 = c_stats c /\
    decode (c_buf c3) (c_off c3) (numRead + s64 (c_off c)) = d.
Proof.
  unfold declared, iteration.
  destruct (readAtLeast (c_sock c) (c_buf c) (c_off c) (u64 (B - c_off c))
                        kMaxHeader (c_numRead c)) as [[[r s1] b1]| |];
    try discriminate.
  cbv zeta. destruct (s64 r <=? 0) eqn:E0.
  { replace (0 <? s64 r) with false
      by (symmetry; apply Z.ltb_ge; apply Z.leb_le in E0; lia).
    discriminate. }
  replace (0 <? s64 r) with true
    by (symmetry; apply Z.ltb_lt; apply Z.leb_gt in E0; lia).
  destruct (load b1 (c_off c) =? EXIT_CMD); [discriminate|].
  destruct (load b1 (c_off c) =? DONE_CMD); [discriminate|].
  destruct (load b1 (c_off c) =? FILE_CMD); [|discriminate].
  simpl. intros H. injection H as H.
  eexists _, _. split; [reflexivity|]. split; [reflexivity|]. exact H.
Qed.

End Files.

(** the open fails: the turn sets [FILE_WRITE_ERROR] and goes on to the next
    command, and the reply to DONE carries the error *)
Example file_error_goes_on :
  match @iteration Sample.decls true true 2048 Sample.hello_no_disk with
  | Next c =>
      errorCode (c_stats c) = 4 /\ c_dest c = -1 /\
      c_off c = 33 /\ c_numRead c = 2 /\ incoming (c_sock c) = [] /\
      match @iteration Sample.decls true true 2048 c with
      | Return RetDone c' => sent (c_sock c') = [[68; 4]]
      | _ => False
      end
  | _ => False
  end.
Proof. vm_compute. repeat split; reflexivity. Qed.

(** ** The ways out of receiveOne *)

Section WaysOut.

Context {D : Decls}.

Lemma loop_not_next {St} fuel (body : St -> ctl St) : forall s s',
  loop fuel body s <> Next s'.
Proof.
  induction fuel as [|fuel IH]; intros s s'; simpl; [discriminate|].
  destruct (body s) eqn:E; try discriminate. apply IH.
Qed.

Lemma loop_not_break {St} fuel (body : St -> ctl St) :
  (forall s s', body s <> Break s') ->
  forall s s', loop fuel body s <> Break s'.
Proof.
  intros Hb. induction fuel as [|fuel IH]; intros s s'; simpl; [discriminate|].
  destruct (body s) eqn:E; try discriminate; [apply IH|].
  intros H. injection H as ->. exact (Hb _ _ E).
Qed.

Lemma loop_return {St} (P : ret_site -> St -> Prop) fuel (body : St -> ctl St) :
  (forall s site s', body s = Return site s' -> P site s') ->
  forall s site s', loop fuel body s = Return site s' -> P site s'.
Proof.
  intros Hb. induction fuel as [|fuel IH]; intros s site s'; simpl; [discriminate|].
  destruct (body s) eqn:E; try discriminate; [apply IH|].
  intros H. injection H as -> ->. exact (Hb _ _ _ E).
Qed.

Lemma file_cmd_not_return dw B numRead old c site c' :
  file_cmd dw B numRead old c <> Return site c'.
Proof.
  pose proof (file_cmd_run dw B numRead old c) as Hrun. cbv zeta in Hrun.
  destruct Hrun as (_ & R2 & R3). intros H.
  destruct (d_success (decode (c_buf c) (c_off c) (numRead + old))).
  - destruct (R3 eq_refl) as (w' & _ & Rn & Re).
    destruct (Z.eq_dec w' (d_sourceSize (decode (c_buf c) (c_off c) (numRead + old))))
      as [E|E].
    + destruct (Re E) as (_ & Rc & Rx).
      match type of Rc with ?x < 0 -> _ => destruct (Z_lt_ge_dec x 0) as [L|L] end.
      * rewrite (Rc L) in H. discriminate.
      * destruct (Rx ltac:(lia)) as (Rx' & _). rewrite Rx' in H. discriminate.
    + destruct (Rn E) as (Rb & _). rewrite Rb in H. discriminate.
  - destruct (R2 eq_refl) as (Rb & _). rewrite Rb in H. discriminate.
Qed.

Lemma file_cmd_not_starved dw B numRead old c c' :
  file_cmd dw B numRead old c <> NoFuel c'.
Proof.
  pose proof (file_cmd_run dw B numRead old c) as Hrun. cbv zeta in Hrun.
  destruct Hrun as (_ & R2 & R3). intros H.
  destruct (d_success (decode (c_buf c) (c_off c) (numRead + old))).
  - destruct (R3 eq_refl) as (w' & _ & Rn & Re).
    destruct (Z.eq_dec w' (d_sourceSize (decode (c_buf c) (c_off c) (numRead + old))))
      as [E|E].
    + destruct (Re E) as (_ & Rc & Rx).
      match type of Rc with ?x < 0 -> _ => destruct (Z_lt_ge_dec x 0) as [L|L] end.
      * rewrite (Rc L) in H. discriminate.
      * destruct (Rx ltac:(lia)) as (Rx' & _). rewrite Rx' in H. discriminate.
    + destruct (Rn E) as (Rb & _). rewrite Rb in H. discriminate.
  - destruct (R2 eq_refl) as (Rb & _). rewrite Rb in H. discriminate.
Qed.

Lemma readAtLeast_not_starved s buf base max atLeast n :
  readAtLeast s buf base max atLeast n <> OutOfFuel.
Proof.
  unfold readAtLeast, readAtLeast_fuel.
  destruct (n <? 0); [discriminate|]. destruct (atLeast <? 0); [discriminate|].
  destruct (readAtLeast_loop_total (S (stream_size (incoming s))) s buf base max
              atLeast n) as [r Hr]; [lia|].
  rewrite Hr. discriminate.
Qed.

(** the fuel that the model gives to the two reading loops is enough: a
    turn of the inner loop always comes to an end *)
Lemma iteration_never_starves j dw B c c' : iteration j dw B c <> NoFuel c'.
Proof.
  unfold iteration.
  pose proof (readAtLeast_not_starved (c_sock c) (c_buf c) (c_off c)
                (u64 (B - c_off c)) kMaxHeader (c_numRead c)) as Hr.
  destruct (readAtLeast _ _ _ _ _ _) as [[[r s1] b1]| |];
    [|discriminate|contradiction].
  cbv zeta. destruct (s64 r <=? 0); [discriminate|].
  destruct (load b1 (c_off c) =? EXIT_CMD).
  { destruct (negb (s64 r =? 1)); discriminate. }
  destruct (load b1 (c_off c) =? DONE_CMD).
  { unfold done_cmd. destruct (negb (s64 r =? 2)); [discriminate|]. cbv zeta.
    destruct j; discriminate. }
  destruct (negb (load b1 (c_off c) =? FILE_CMD)); [discriminate|].
  apply file_cmd_not_starved.
Qed.

Lemma iteration_return j dw B c site c' :
  iteration j dw B c = Return site c' -> site = RetDone /\ j = true.
Proof.
  unfold iteration.
  destruct (readAtLeast _ _ _ _ _ _) as [[[r s1] b1]| |]; try discriminate.
  cbv zeta. destruct (s64 r <=? 0); [discriminate|].
  destruct (load b1 (c_off c) =? EXIT_CMD).
  { destruct (negb (s64 r =? 1)); discriminate. }
  destruct (load b1 (c_off c) =? DONE_CMD).
  { unfold done_cmd. destruct (negb (s64 r =? 2)); [discriminate|]. cbv zeta.
    destruct j; [|discriminate]. intros H. injection H as <- _. auto. }
  destruct (negb (load b1 (c_off c) =? FILE_CMD)); [discriminate|].
  intros H. now apply file_cmd_not_return in H.
Qed.

Lemma serve_not_break fuel j dw B c c' : serve fuel j dw B c <> Break c'.
Proof.
  unfold serve. cbv zeta.
  destruct (loop fuel (iteration j dw B) _) eqn:E; discriminate.
Qed.

Lemma serve_return fuel j dw B c site c' :
  serve fuel j dw B c = Return site c' -> site = RetDone /\ j = true.
Proof.
  unfold serve. cbv zeta.
  destruct (loop fuel (iteration j dw B) _) eqn:E; try discriminate.
  intros H. injection H as -> ->.
  revert E. apply (loop_return (fun site _ => site = RetDone /\ j = true)).
  intros s site' s'. apply iteration_return.
Qed.

Lemma accept_body_not_break fuel j dw B c c' : accept_body fuel j dw B c <> Break c'.
Proof.
  unfold accept_body. destruct (acceptNextConnection (c_sock c)) as [code s1].
  destruct (negb (code =? OK)); [discriminate|]. apply serve_not_break.
Qed.

Lemma accept_body_return fuel j dw B c site c' :
  accept_body fuel j dw B c = Return site c' ->
  (site = RetAcceptFailed /\ errorCode (c_stats c') <> OK) \/
  (site = RetDone /\ j = true).
Proof.
  unfold accept_body. destruct (acceptNextConnection (c_sock c)) as [code s1].
  destruct (negb (code =? OK)) eqn:E.
  - intros H. injection H as <- <-. left. split; [reflexivity|]. simpl.
    apply negb_true_iff in E. now apply Z.eqb_neq in E.
  - intros H. right. now apply serve_return in H.
Qed.







End WaysOut.


(** ** Runs of the whole worker on the sample protocol *)

(** scenario S1: one connection brings "hello" for file "a" and DONE; the
    worker of a joinable session writes the file, answers and returns *)
Example scenario_S1 :
  match @receiveOne Sample.decls 10 Sample.options0 true
          (mkFs (Sample.script (Sample.files_fine 5) (-1)) [])
          (Some (repeat 0 2048%nat))
          (Sample.socket [0; 0] [(0, Sample.hello)]) 2048 Sample.stats0 with
  | Return RetDone c =>
      numBlocks (c_stats c) = 1 /\
      errorCode (c_stats c) = 0 /\
      sent (c_sock c) = [[68; 0]] /\
      fsLog (c_fs c)
      = [CreateFile [97]; TruncateFile 3 5;
         FileWrite 3 [104; 101; 108; 108; 111] 5; FileClose 3]
  | _ => False
  end.
Proof. vm_compute. repeat split; reflexivity. Qed.

(** scenario S4: a worker that is not joinable takes DONE on a first
    connection, serves a second one, and returns only when accept fails *)
Example scenario_S4 :
  match @receiveOne Sample.decls 10 Sample.options0 false
          (mkFs (Sample.script (Sample.files_fine 5) (-1)) [])
          (Some (repeat 0 2048%nat))
          (Sample.socket [0; 0] [(0, [Bytes (Sample.done_frame 1)]); (0, Sample.hello)])
          2048 Sample.stats0 with
  | Return RetAcceptFailed c =>
      numBlocks (c_stats c) = 1 /\
      remoteErrorCode (c_stats c) = 1 /\
      errorCode (c_stats c) = 2 /\
      sent (c_sock c) = [[68; 0]; [68; 0]] /\
      closedConnections (c_sock c) = 2%nat
  | _ => False
  end.
Proof. vm_compute. repeat split; reflexivity. Qed.

(** a listen that fails with [CONN_ERROR] at the second attempt *)
Example listen_fails :
  match @receiveOne Sample.decls 10 Sample.options0 true
          (mkFs (Sample.script [] (-1)) []) (Some (repeat 0 2048%nat))
          (Sample.socket [1; 2] []) 2048 Sample.stats0 with
  | Return RetListenConnError c =>
      errorCode (c_stats c) = 2 /\ listenCalls (c_sock c) = 2%nat
  | _ => False
  end.
Proof. vm_compute. repeat split; reflexivity. Qed.

(** an EXIT command alone on a connection ends the process *)
Example exit_command :
  match @receiveOne Sample.decls 10 Sample.options0 true
          (mkFs (Sample.script [] (-1)) []) (Some (repeat 0 2048%nat))
          (Sample.socket [0; 0] [(0, [Bytes [101]])]) 2048 Sample.stats0 with
  | ProcessExit _ => True
  | _ => False
  end.
Proof. vm_compute. exact I. Qed.

(** ** The buffer as a list *)

Lemma store_length buf pos bs : length (store buf pos bs) = length buf.
Proof.
  unfold store. rewrite !length_app, !length_firstn, length_skipn. lia.
Qed.

Lemma load_store_one buf pos x :
  0 <= pos < len buf -> load (store buf pos [x]) pos = x.
Proof.
  unfold load, store, len. intros H.
  set (p := Z.to_nat pos). assert (Hp : (p < length buf)%nat) by lia.
  rewrite app_nth2; rewrite length_firstn; [|lia].
  replace (p - Nat.min p (length buf))%nat with O by lia.
  destruct (length buf - p)%nat eqn:E; [lia|]. reflexivity.
Qed.

Lemma slice_two buf pos x :
  0 <= pos -> pos + 2 <= len buf ->
  slice (store buf (pos + 1) [x]) pos 2 = [load buf pos; x].
Proof.
  unfold slice, store, load, len. intros H0 H2.
  replace (Z.to_nat (pos + 1)) with (S (Z.to_nat pos)) by lia.
  set (p := Z.to_nat pos). assert (Hp : (p + 2 <= length buf)%nat) by lia.
  clearbody p. clear H0 H2. revert p Hp.
  induction buf as [|b buf IH]; intros p Hp; simpl in Hp; [lia|].
  destruct p as [|p].
  - simpl. destruct buf as [|b' buf]; simpl in *; [lia|].
    replace (length buf - 0)%nat with (length buf) by lia. reflexivity.
  - assert (Hp' : (p + 2 <= length buf)%nat) by lia.
    specialize (IH p Hp'). simpl in *. exact IH.
Qed.

Lemma readAtLeast_loop_length fuel : forall s buf base max atLeast n r s' buf',
  readAtLeast_loop fuel s buf base max atLeast n = Val (r, s', buf') ->
  length buf' = length buf.
Proof.
  induction fuel as [|fuel IH]; intros s buf base max atLeast n r s' buf'.
  - simpl. destruct (n <? atLeast); [discriminate|]. intros H. now injection H as _ _ <-.
  - rewrite readAtLeast_loop_unfold. destruct (n <? atLeast).
    2:{ intros H. now injection H as _ _ <-. }
    destruct (read s (u64 (max - n))) as [[k got] s1].
    destruct (k <? 0); [intros H; now injection H as _ _ <-|].
    destruct (k =? 0); [intros H; now injection H as _ _ <-|].
    intros H. apply IH in H. now rewrite store_length in H.
Qed.

Lemma readAtLeast_length s buf base max atLeast n r s' buf' :
  readAtLeast s buf base max atLeast n = Val (r, s', buf') ->
  length buf' = length buf.
Proof.
  unfold readAtLeast, readAtLeast_fuel.
  destruct (n <? 0); [discriminate|]. destruct (atLeast <? 0); [discriminate|].
  apply readAtLeast_loop_length.
Qed.

Section Done.

Context {D : Decls}.

(** C5.  A turn of the inner loop whose read leaves two bytes, the first of
    them DONE.  The status byte of the sender is kept as [remoteErrorCode]
    when it is not [OK]; the second byte of the frame is overwritten with
    the worker's error code (as a [char]); those two bytes, and nothing
    else, are written to the socket; [headerBytes] and
    [effectiveHeaderBytes] grow by 2 and no other counter moves.  A joinable
    worker then returns, its error code untouched; a worker that is not
    joinable leaves the inner loop with its error code set to [OK]. *)
Theorem done_cmd_reply
        (isJoinable_ doActualWrites : bool) (bufferSize : Z) (c : Conn)
        (r : Z) (sock1 : ServerSocket) (buf1 : list Z) :
  0 <= bufferSize < two63 ->
  len (c_buf c) = bufferSize ->
  buffer_ok bufferSize c ->
  stream_ok (incoming (c_sock c)) ->
  DONE_CMD <> EXIT_CMD ->
  readAtLeast (c_sock c) (c_buf c) (c_off c) (u64 (bufferSize - c_off c))
              kMaxHeader (c_numRead c) = Val (r, sock1, buf1) ->
  s64 r = 2 ->
  load buf1 (c_off c) = DONE_CMD ->
  let status := load buf1 (c_off c + 1) in
  let mine := errorCode (c_stats c) in
  exists c',
    iteration isJoinable_ doActualWrites bufferSize c
    = (if isJoinable_ then Return RetDone c' else Break c') /\
    remoteErrorCode (c_stats c')
    = (if status =? OK then remoteErrorCode (c_stats c) else status) /\
    load (c_buf c') (c_off c + 1) = s8 mine /\
    sent (c_sock c') = sent (c_sock c) ++ [[DONE_CMD; s8 mine]] /\
    headerBytes (c_stats c') = headerBytes (c_stats c) + 2 /\
    effectiveHeaderBytes (c_stats c') = effectiveHeaderBytes (c_stats c) + 2 /\
    dataBytes (c_stats c') = dataBytes (c_stats c) /\
    effectiveDataBytes (c_stats c') = effectiveDataBytes (c_stats c) /\
    numBlocks (c_stats c') = numBlocks (c_stats c) /\
    failedAttempts (c_stats c') = failedAttempts (c_stats c) /\
    errorCode (c_stats c') = (if isJoinable_ then mine else OK).
Proof.
  pose proof two63_eq as H63. pose proof two64_eq as H64.
  intros HB Hlen (Hoff & Hnum & Hsum) Hok Hde Hread Hr Hcmd. cbv zeta.
  unfold iteration. rewrite Hread. cbv zeta. rewrite Hr.
  rewrite (u64_small (bufferSize - c_off c)) in Hread by lia.
  assert (Hn' : 0 <= c_numRead c <= bufferSize - c_off c) by lia.
  assert (Hm' : bufferSize - c_off c < two63) by lia.
  destruct (readAtLeast_bounds _ _ _ _ _ _ _ _ _ Hok Hn' Hm' Hread)
    as (_ & Hmax & _ & _ & Hsent).
  pose proof (readAtLeast_length _ _ _ _ _ _ _ _ _ Hread) as Hl1.
  assert (Hroom : c_off c + 2 <= len buf1) by (unfold len in *; lia).
  change (2 <=? 0) with false. cbv iota.
  rewrite Hcmd.
  destruct (DONE_CMD =? EXIT_CMD) eqn:Ee; [apply Z.eqb_eq in Ee; contradiction|].
  rewrite Z.eqb_refl.
  unfold done_cmd. change (negb (2 =? 2)) with false. cbv iota zeta.
  simpl c_off. simpl c_buf. simpl c_stats. simpl c_sock.
  rewrite (u64_small (c_off c + 1)) by lia.
  rewrite (u64_small (c_off c + 1 + 1)) by lia.
  replace (c_off c + 1 + 1 - 1) with (c_off c + 1) by lia.
  replace (c_off c + 1 + 1 - 2) with (c_off c) by lia.
  rewrite slice_two by lia. rewrite Hcmd.
  destruct (load buf1 (c_off c + 1) =? OK) eqn:Es; simpl negb; cbv iota;
    destruct isJoinable_; eexists; (split; [reflexivity|]); simpl;
    rewrite load_store_one by lia; rewrite Hsent; repeat split; try reflexivity; lia.
Qed.

End Done.

Lemma done_cmd_reply_witness :
  let c := state_of (@iteration Sample.decls true true 2048 Sample.straddle) in
  exists c',
    @iteration Sample.decls true true 2048 c = Return RetDone c' /\
    sent (c_sock c') = [[68; 0]] /\
    headerBytes (c_stats c') = 30 /\
    effectiveHeaderBytes (c_stats c') = 30.
Proof.
  cbv zeta.
  edestruct (@done_cmd_reply Sample.decls true true 2048
               (state_of (@iteration Sample.decls true true 2048 Sample.straddle)))
    as (c' & H1 & _ & _ & H4 & H5 & H6 & _).
  - exact sample_size_fits.
  - vm_compute. reflexivity.
  - repeat split; vm_compute; discriminate.
  - replace (incoming _) with (@nil rd_event) by (vm_compute; reflexivity).
    constructor.
  - discriminate.
  - vm_compute. reflexivity.
  - reflexivity.
  - vm_compute. reflexivity.
  - exists c'. split; [exact H1|]. rewrite H4, H5, H6.
    vm_compute. repeat split; reflexivity.
Defined.

(** ** The progress tracker *)

Module TrackerFacts.
Import Tracker.

Lemma sum_total_range_from stats : forall acc,
  0 <= acc < two64 ->
  0 <= fold_left (fun a t => u64 (a + Stats.getTotalBytes t)) stats acc < two64.
Proof.
  induction stats as [|t stats IH]; intros acc Hacc; simpl; [exact Hacc|].
  apply IH, u64_range.
Qed.

Lemma sum_total_range stats : 0 <= sum_total stats < two64.
Proof.
  apply sum_total_range_from. pose proof two64_eq. lia.
Qed.

(** the sum is the sum of the totals, as a [size_t] *)
Lemma sum_total_from stats : forall acc,
  0 <= acc < two64 ->
  fold_left (fun a t => u64 (a + Stats.getTotalBytes t)) stats acc
  = u64 (acc + fold_right (fun t a => Stats.getTotalBytes t + a) 0 stats).
Proof.
  induction stats as [|t stats IH]; intros acc Hacc; simpl.
  - rewrite Z.add_0_r. symmetry. now apply u64_small.
  - rewrite IH by apply u64_range. unfold u64.
    rewrite Zplus_mod_idemp_l. f_equal. lia.
Qed.

Lemma sum_total_sum stats :
  sum_total stats = u64 (fold_right (fun t a => Stats.getTotalBytes t + a) 0 stats).
Proof.
  unfold sum_total. rewrite sum_total_from; [reflexivity|].
  pose proof two64_eq. lia.
Qed.

Lemma delta_zero current total :
  0 <= current < two64 -> 0 <= total < two64 ->
  (u64 (current - total) =? 0) = (current =? total).
Proof.
  intros Hc Ht. pose proof two64_eq as H64.
  destruct (current =? total) eqn:E.
  - apply Z.eqb_eq in E. subst. rewrite Z.sub_diag. reflexivity.
  - apply Z.eqb_neq in E. apply Z.eqb_neq. unfold u64. intros H.
    apply Z.mod_divide in H; [|lia]. destruct H as [k Hk].
    assert (k = 0) by nia. lia.
Qed.

Lemma shutdown_pass_fds refused fd_of ports socks :
  length ports = length socks ->
  fst (shutdown_pass refused fd_of ports socks) = map fd_of socks.
Proof.
  unfold shutdown_pass. simpl. revert socks.
  induction ports as [|p ports IH]; intros [|s socks] Hl; simpl in *;
    try discriminate; auto.
  f_equal. apply IH. now injection Hl.
Qed.

Lemma shutdown_all_fds refused ports socks :
  length ports = length socks ->
  fst (shutdown_all refused ports socks) = map getListenFd socks ++ map getFd socks.
Proof.
  intros Hl. unfold shutdown_all.
  pose proof (shutdown_pass_fds refused getListenFd ports socks Hl) as H1.
  pose proof (shutdown_pass_fds refused getFd ports socks Hl) as H2.
  destruct (shutdown_pass refused getListenFd ports socks) as [l1 w1].
  destruct (shutdown_pass refused getFd ports socks) as [l2 w2].
  simpl in *. now subst.
Qed.

(** C7.  The tracker leaves at once, shutting nothing down, unless the
    session is joinable and the interval is not negative.  Otherwise, at a
    wake-up where the previous total is [total] and the stall count is
    [count]: if the transfer is finished it leaves, shutting nothing down;
    if not, the new total is the sum of the threads' totals, the new stall
    count is [count + 1] when the new total is the previous one and 0 when
    it is not, and once that count is above [failed_timeout_checks] it
    shuts down the listening descriptor of every socket and then the
    accepted descriptor of every socket, each exactly once whether or not
    a shutdown is refused, and leaves; below that it goes on to the next
    wake-up. *)
Theorem tracker_checks_and_gives_up
        (options : WdtOptions) (refused : Z -> bool)
        (ports : list Z) (socks : list ServerSocket) :
  length ports = length socks ->
  (forall isJoinable_ wakes,
      timeout_check_interval_millis options < 0 \/ isJoinable_ = false ->
      progressTracker options isJoinable_ refused ports socks wakes
      = mkOutcome Disabled 0 0 [] []) /\
  (forall wakes,
      0 <= timeout_check_interval_millis options ->
      progressTracker options true refused ports socks wakes
      = tracker_loop (failed_timeout_checks options) refused ports socks wakes 0 0) /\
  (forall w later total count,
      0 <= total < two64 ->
      let run := tracker_loop (failed_timeout_checks options) refused ports socks in
      let current := sum_total (w_stats w) in
      let count' := if current =? total then count + 1 else 0 in
      current = u64 (fold_right (fun t a => Stats.getTotalBytes t + a) 0 (w_stats w)) /\
      0 <= current < two64 /\
      (w_finished w = true ->
         o_verdict (run (w :: later) total count) = SawFinished /\
         o_shutdowns (run (w :: later) total count) = []) /\
      (w_finished w = false -> failed_timeout_checks options < count' ->
         o_verdict (run (w :: later) total count) = GaveUp /\
         o_zeroProgressCount (run (w :: later) total count) = count' /\
         o_shutdowns (run (w :: later) total count)
         = map getListenFd socks ++ map getFd socks) /\
      (w_finished w = false -> count' <= failed_timeout_checks options ->
         run (w :: later) total count = run later current count')).
Proof.
  intros Hl. split; [|split].
  - intros j wakes H. unfold progressTracker.
    destruct H as [H| ->].
    + apply Z.ltb_lt in H. now rewrite H.
    + now rewrite orb_true_r.
  - intros wakes H. unfold progressTracker.
    apply Z.ltb_ge in H. now rewrite H.
  - intros w later total count Ht. cbv zeta.
    pose proof (sum_total_range (w_stats w)) as Hc.
    split; [apply sum_total_sum|]. split; [exact Hc|].
    cbn [tracker_loop]. rewrite (delta_zero _ _ Hc Ht).
    split; [|split].
    + intros ->. split; reflexivity.
    + intros -> Hgt. apply Z.ltb_lt in Hgt. rewrite Hgt.
      pose proof (shutdown_all_fds refused ports socks Hl) as Hs.
      destruct (shutdown_all refused ports socks) as [fds warned]. simpl in *.
      repeat split; auto.
    + intros -> Hle. apply Z.ltb_ge in Hle. now rewrite Hle.
Qed.

Lemma tracker_witness :
  let w := mkWake false [Sample.stats0] in
  let run := tracker_loop 3 (fun _ => true) [5000] [Sample.socket [] []] in
  o_verdict (run [w] 0 3) = GaveUp /\ o_shutdowns (run [w] 0 3) = [3; 4].
Proof.
  cbv zeta.
  destruct (tracker_checks_and_gives_up Sample.options0 (fun _ => true)
              [5000] [Sample.socket [] []] eq_refl) as (_ & _ & H).
  destruct (H (mkWake false [Sample.stats0]) [] 0 3) as (_ & _ & _ & Hg & _).
  - split; [lia | reflexivity].
  - destruct (Hg eq_refl) as (Hv & _ & Hs); [reflexivity|].
    split; [exact Hv | exact Hs].
Defined.

End TrackerFacts.

Module SessionFacts.
Import Session.

Lemma roundUp_least m : 0 < m ->
  roundUp m 2048 mod 2048 = 0 /\ m <= roundUp m 2048 < m + 2048.
Proof.
  intros Hm. unfold roundUp.
  split; [rewrite Z.mul_comm; apply Z.mod_mul; lia|].
  assert (Hk : 2048 <> 0) by lia. assert (Hk' : 0 < 2048) by lia.
  pose proof (Z.div_mod (m + 2048 - 1) 2048 Hk) as Hd.
  pose proof (Z.mod_pos_bound (m + 2048 - 1) 2048 Hk') as Hr.
  lia.
Qed.

Section Start.

Context {D : Decls}.

Lemma rounded_in_code :
  0 < kMaxHeader < two63 ->
  u64 (2 * 1024 * (u64 (kMaxHeader - 1) / (2 * 1024) + 1)) = roundUp kMaxHeader 2048.
Proof.
  intros Hk. pose proof two63_eq as H63. pose proof two64_eq as H64.
  assert (Hpos : 0 < kMaxHeader) by lia.
  pose proof (roundUp_least kMaxHeader Hpos) as [_ Hr].
  rewrite (u64_small (kMaxHeader - 1)) by lia.
  assert (E : 2 * 1024 * ((kMaxHeader - 1) / (2 * 1024) + 1) = roundUp kMaxHeader 2048).
  { unfold roundUp. change (2 * 1024) with 2048.
    replace (kMaxHeader + 2048 - 1) with (kMaxHeader - 1 + 1 * 2048) by lia.
    rewrite Z.div_add by lia. reflexivity. }
  rewrite E. apply u64_small. lia.
Qed.

(** C2, amended.  The size of the buffer is the configured size (as a
    [size_t]) when that is at least [kMaxHeader], and otherwise the least
    multiple of 2 KiB that is at least [kMaxHeader]; [start] hands it to
    every worker it starts. *)
Theorem effective_buffer_size_guarded (options : WdtOptions) :
  0 < kMaxHeader < two63 ->
  let configured := u64 (buffer_size options) in
  effective_buffer_size options
  = (if configured <? kMaxHeader then roundUp kMaxHeader 2048 else configured) /\
  roundUp kMaxHeader 2048 mod 2048 = 0 /\
  kMaxHeader <= roundUp kMaxHeader 2048 < kMaxHeader + 2048 /\
  (forall socket_for r r',
      start options socket_for r = Done r' ->
      receiverThreads_ r'
      = receiverThreads_ r
        ++ map (fun i => Holds (WorkerJob i (effective_buffer_size options)))
               (seq 0 (length (ports_ r)))).
Proof.
  intros Hk. cbv zeta.
  assert (Hpos : 0 < kMaxHeader) by lia.
  destruct (roundUp_least kMaxHeader Hpos) as [R1 R2].
  split; [|split; [exact R1|split; [exact R2|]]].
  - unfold effective_buffer_size. cbv zeta.
    destruct (u64 (buffer_size options) <? kMaxHeader); [|reflexivity].
    now apply rounded_in_code.
  - intros socket_for r r'. unfold start. cbv zeta.
    rewrite map_map.
    destruct (isJoinable_ _) eqn:Ej.
    + destruct (progressTrackerThread_ _); [|discriminate].
      intros H. injection H as <-. reflexivity.
    + intros H. injection H as <-. reflexivity.
Qed.

End Start.

(** ** finish *)

Lemma nth_error_middle {A} (l1 : list A) x l2 :
  nth_error (l1 ++ x :: l2) (length l1) = Some x.
Proof. induction l1; simpl; auto. Qed.

Lemma set_nth_middle {A} (l1 : list A) x y l2 :
  set_nth (length l1) y (l1 ++ x :: l2) = l1 ++ y :: l2.
Proof. induction l1; simpl; auto. now f_equal. Qed.

Lemma join_workers_all : forall (jobs : list job) (joined : list thread) (r : Receiver),
  receiverThreads_ r = joined ++ map Holds jobs ->
  join_workers (seq (length joined) (length jobs)) r
  = Done (mkReceiver (ports_ r) (isJoinable_ r) (transferFinished_ r)
                     (joined ++ map (fun _ => NotAThread) jobs)
                     (progressTrackerThread_ r) (threadStats_ r)
                     (threadServerSockets_ r)
                     (journal r ++ map Joined jobs)).
Proof.
  induction jobs as [|j jobs IH]; intros joined r Hr; simpl.
  - rewrite app_nil_r in Hr. rewrite !app_nil_r. rewrite <- Hr. now destruct r.
  - rewrite Hr. simpl. rewrite nth_error_middle.
    rewrite set_nth_middle.
    replace (S (length joined)) with (length (joined ++ [NotAThread]))
      by (rewrite length_app; simpl; lia).
    rewrite IH; simpl.
    + f_equal. f_equal; rewrite <- app_assoc; reflexivity.
    + rewrite <- app_assoc. reflexivity.
Qed.

(** C3, amended.  When every worker thread and the tracker thread can be
    joined, as they can after [transferAsync], [finish] joins the workers in
    port order, marks the transfer finished and notifies, joins the tracker,
    and returns the report of the statistics, leaving no threads, sockets
    or statistics behind. *)
Theorem finish_joins_and_reports (r : Receiver) (jobs : list job) (tracker : job) :
  receiverThreads_ r = map Holds jobs ->
  length jobs = length (ports_ r) ->
  progressTrackerThread_ r = Holds tracker ->
  finish_completes r.
Proof.
  intros Ht Hl Hp. exists jobs, tracker. unfold finish.
  rewrite <- Hl.
  pose proof (join_workers_all jobs [] r Ht) as Hj. cbn [length app] in Hj.
  rewrite Hj.
  simpl. rewrite Hp.
  eexists _, _. split; [exact Ht|]. split; [reflexivity|].
  split; [reflexivity|]. simpl.
  repeat split; auto. rewrite <- !app_assoc. reflexivity.
Qed.

Lemma finish_witness :
  exists r,
    @transferAsync Sample.decls Sample.options0 Sample.socket_for Sample.receiver
    = Done (0, r) /\
    finish_completes r.
Proof.
  eexists. split; [vm_compute; reflexivity|].
  apply (finish_joins_and_reports _ [WorkerJob 0 1000; WorkerJob 1 1000] TrackerJob);
    reflexivity.
Defined.

(** C3, as the specification has it.  In forever mode [start] starts no
    tracker, and the join of the tracker thread throws.  After a first
    [finish] the vector of threads is empty and a second [finish] indexes
    it; with no port at all the second [finish] joins the tracker thread a
    second time, which throws. *)
Lemma finish_neither_forever_nor_twice :
  (exists r,
      @start Sample.decls Sample.options0 Sample.socket_for Sample.receiver = Done r /\
      isJoinable_ r = false /\
      ~ finish_completes r) /\
  (exists r,
      @transferAsync Sample.decls Sample.options0 Sample.socket_for Sample.receiver
      = Done (0, r) /\
      ~ finish_idempotent r) /\
  (exists r,
      @transferAsync Sample.decls Sample.options0 Sample.socket_for (construct 5000 0)
      = Done (0, r) /\
      ~ finish_idempotent r).
Proof.
  split; [|split].
  - eexists. split; [vm_compute; reflexivity|]. split; [reflexivity|].
    intros (jobs & tracker & report & r' & _ & H & _). discriminate H.
  - eexists. split; [vm_compute; reflexivity|].
    intros H.
    edestruct H as [report' H2]; [vm_compute; reflexivity|].
    vm_compute in H2. discriminate H2.
  - eexists. split; [vm_compute; reflexivity|].
    intros H.
    edestruct H as [report' H2]; [vm_compute; reflexivity|].
    vm_compute in H2. discriminate H2.
Qed.

(** C2, as the specification has it: with [kMaxHeader = 282] and a
    configured size of 1000 the buffer has 1000 bytes, not 2048. *)
Lemma buffer_size_is_not_the_maximum :
  @effective_buffer_size Sample.decls Sample.options0
  <> spec_buffer_size (@kMaxHeader Sample.decls) (buffer_size Sample.options0).
Proof. vm_compute. discriminate. Qed.

(** the same for every [kMaxHeader] that is not a multiple of 2 KiB: a
    configured size of exactly [kMaxHeader] is kept *)
Lemma buffer_size_between {D : Decls} (options : WdtOptions) :
  0 < kMaxHeader < two63 ->
  kMaxHeader mod 2048 <> 0 ->
  buffer_size options = kMaxHeader ->
  effective_buffer_size options = kMaxHeader /\
  kMaxHeader < spec_buffer_size kMaxHeader (buffer_size options).
Proof.
  intros Hk Hm Hb. pose proof two63_eq as H63. pose proof two64_eq as H64.
  assert (Hpos : 0 < kMaxHeader) by lia.
  destruct (roundUp_least kMaxHeader Hpos) as [R1 R2].
  unfold effective_buffer_size, spec_buffer_size. rewrite Hb.
  rewrite (u64_small kMaxHeader) by lia. rewrite Z.ltb_irrefl.
  split; [reflexivity|].
  assert (roundUp kMaxHeader 2048 <> kMaxHeader) by congruence. lia.
Qed.

Lemma effective_buffer_size_witness :
  @effective_buffer_size Sample.decls Sample.options0 = 1000 /\
  @effective_buffer_size Sample.decls (mkOptions 100 10 3 50 50 3 false) = 2048.
Proof.
  split.
  - apply (@effective_buffer_size_guarded Sample.decls Sample.options0).
    split; reflexivity.
  - apply (@effective_buffer_size_guarded Sample.decls (mkOptions 100 10 3 50 50 3 false)).
    split; reflexivity.
Defined.

End SessionFacts.

(** * Further properties of the code *)

Lemma store_fits buf pos bs :
  0 <= pos -> pos + len bs <= len buf ->
  store buf pos bs
  = firstn (Z.to_nat pos) buf ++ bs ++ skipn (Z.to_nat pos + length bs) buf.
Proof.
  unfold store, len. intros H0 H1.
  rewrite (firstn_all2 (n := length buf - Z.to_nat pos) bs) by lia. reflexivity.
Qed.

Lemma slice_store_app buf base n got :
  0 <= base -> 0 <= n -> base + n + len got <= len buf ->
  slice (store buf (base + n) got) base (n + len got) = slice buf base n ++ got.
Proof.
  intros Hb Hn Hl. rewrite store_fits by lia. unfold slice, len in *.
  replace (Z.to_nat (base + n)) with (Z.to_nat base + Z.to_nat n)%nat by lia.
  replace (Z.to_nat (n + Z.of_nat (length got))) with (Z.to_nat n + length got)%nat by lia.
  set (b := Z.to_nat base) in *. set (m := Z.to_nat n) in *.
  assert (Hlen : (b + m + length got <= length buf)%nat) by lia.
  rewrite skipn_app. rewrite length_firstn.
  replace (b - Nat.min (b + m) (length buf))%nat with O by lia. simpl skipn at 2.
  rewrite <- firstn_skipn_comm.
  rewrite app_assoc. rewrite firstn_app.
  rewrite length_app, length_firstn, length_skipn.
  replace (m + length got - (Nat.min m (length buf - b) + length got))%nat with O by lia.
  simpl. rewrite app_nil_r. apply firstn_all2.
  rewrite length_app, length_firstn, length_skipn. lia.
Qed.

Lemma store_before buf pos bs k :
  0 <= k <= pos -> pos <= len buf ->
  firstn (Z.to_nat k) (store buf pos bs) = firstn (Z.to_nat k) buf.
Proof.
  unfold store, len. intros Hk Hp.
  rewrite firstn_app, length_firstn.
  replace (Z.to_nat k - Nat.min (Z.to_nat pos) (length buf))%nat with O by lia.
  simpl. rewrite app_nil_r. rewrite firstn_firstn. f_equal. lia.
Qed.

Lemma store_after buf pos bs k :
  0 <= pos -> pos + len bs <= k ->
  skipn (Z.to_nat k) (store buf pos bs) = skipn (Z.to_nat k) buf.
Proof.
  unfold len. intros Hp Hk.
  destruct (Z_le_gt_dec k (len buf)) as [Hin | Hout]; unfold len in *.
  - rewrite store_fits by (unfold len; lia).
    rewrite app_assoc, skipn_app, length_app, length_firstn.
    rewrite (skipn_all2 (n := Z.to_nat k)) by (rewrite length_app, length_firstn; lia).
    simpl. rewrite skipn_skipn. f_equal. lia.
  - rewrite !skipn_all2; [reflexivity | lia | rewrite store_length; lia].
Qed.

Lemma flat_cons_bytes bs rest : flat (Bytes bs :: rest) = bs ++ flat rest.
Proof. reflexivity. Qed.

(** a read takes its bytes off the front of what the stream delivers *)
Lemma read_flat s count :
  0 <= count ->
  let '(k, got, s') := read s count in
  flat (incoming s) = got ++ flat (incoming s') /\
  (0 <= k -> len got = k) /\ (k <= 0 -> got = []).
Proof.
  intros Hc. unfold read.
  destruct (incoming s) as [|[bs|e] rest] eqn:E; simpl.
  - rewrite E. repeat split; auto.
  - pose proof (len_nonneg bs) as Hl.
    set (k := Z.to_nat (Z.min count (len bs))).
    assert (Hk : (k <= length bs)%nat) by (unfold k, len in *; lia).
    repeat split.
    + rewrite <- (firstn_skipn k bs) at 1. rewrite flat_cons_bytes.
      destruct (skipn k bs) eqn:Es.
      * now rewrite app_nil_r.
      * rewrite flat_cons_bytes. now rewrite app_assoc.
    + intros _. unfold len. rewrite length_firstn. unfold k, len in *. lia.
    + intros Hz. assert (k = 0%nat) by (unfold k; lia). now rewrite H.
  - repeat split; auto. lia.
Qed.

Lemma readAtLeast_loop_order fuel : forall s buf base max atLeast n r s' buf',
  stream_ok (incoming s) -> 0 <= base -> 0 <= n <= max -> max < two63 ->
  base + max <= len buf ->
  readAtLeast_loop fuel s buf base max atLeast n = Val (r, s', buf') ->
  let held := Z.max 0 (s64 r) in
  n <= held <= max /\
  slice buf' base held ++ flat (incoming s') = slice buf base n ++ flat (incoming s) /\
  firstn (Z.to_nat base) buf' = firstn (Z.to_nat base) buf /\
  skipn (Z.to_nat (base + max)) buf' = skipn (Z.to_nat (base + max)) buf.
Proof.
  pose proof two63_eq as H63. pose proof two64_eq as H64.
  induction fuel as [|fuel IH]; intros s buf base max atLeast n r s' buf' Hok Hb Hn Hmax Hlen Hr.
  - simpl in Hr. destruct (n <? atLeast); [discriminate|].
    injection Hr as <- <- <-. rewrite s64_u64_small by lia.
    rewrite Z.max_r by lia. repeat split; auto; lia.
  - rewrite readAtLeast_loop_unfold in Hr.
    destruct (n <? atLeast).
    2:{ injection Hr as <- <- <-. rewrite s64_u64_small by lia.
        rewrite Z.max_r by lia. repeat split; auto; lia. }
    rewrite (u64_small (max - n)) in Hr by lia.
    pose proof (read_stream_ok s (max - n) Hok) as Hok'.
    pose proof (read_negative s (max - n) Hok) as Hneg.
    pose proof (read_count s (max - n)) as Hcnt.
    pose proof (read_flat s (max - n)) as Hfl.
    destruct (read s (max - n)) as [[k got] s1]. simpl in *.
    destruct Hfl as (Hfl & Hgot & Hnone); [lia|].
    destruct (k <? 0) eqn:E1.
    + injection Hr as <- <- <-.
      rewrite Hnone in Hfl by lia. simpl in Hfl.
      destruct (n =? 0) eqn:E0.
      * rewrite s64_u64_small by lia. rewrite Z.max_l by lia.
        assert (n = 0) by lia. subst n. rewrite Hfl. repeat split; auto; lia.
      * rewrite s64_u64_small by lia. rewrite Z.max_r by lia.
        rewrite Hfl. repeat split; auto; lia.
    + destruct (k =? 0) eqn:E2.
      * injection Hr as <- <- <-. rewrite s64_u64_small by lia.
        rewrite Z.max_r by lia. rewrite Hnone in Hfl by lia. simpl in Hfl.
        rewrite Hfl. repeat split; auto; lia.
      * assert (Hk : len got = k) by (apply Hgot; lia).
        apply IH in Hr; auto; try lia.
        2:{ unfold len in *. rewrite store_length. lia. }
        destruct Hr as (A & B & C & E). cbv zeta.
        split; [lia|]. split; [|split].
        -- rewrite B. rewrite <- Hk. rewrite slice_store_app by lia.
           rewrite Hfl. now rewrite app_assoc.
        -- rewrite C. apply store_before; lia.
        -- rewrite E. apply store_after; lia.
Qed.

(** X1.  [readAtLeast] loses and reorders nothing: the bytes it holds at
    [buf + base] when it returns, followed by what the stream has still to
    deliver, are the bytes it was given followed by what the stream had to
    deliver when it was called.  It holds at least the [n] bytes it was
    given and at most [max], and it writes nowhere but in the [max] bytes
    from [base] on. *)
Theorem readAtLeast_keeps_the_order s buf base max atLeast n r s' buf' :
  stream_ok (incoming s) -> 0 <= base -> 0 <= n <= max -> max < two63 ->
  base + max <= len buf ->
  readAtLeast s buf base max atLeast n = Val (r, s', buf') ->
  let held := Z.max 0 (s64 r) in
  n <= held <= max /\
  slice buf' base held ++ flat (incoming s') = slice buf base n ++ flat (incoming s) /\
  firstn (Z.to_nat base) buf' = firstn (Z.to_nat base) buf /\
  skipn (Z.to_nat (base + max)) buf' = skipn (Z.to_nat (base + max)) buf /\
  length buf' = length buf.
Proof.
  intros Hok Hb Hn Hmax Hlen Hr.
  pose proof (readAtLeast_length _ _ _ _ _ _ _ _ _ Hr) as Hl.
  unfold readAtLeast, readAtLeast_fuel in Hr.
  destruct (n <? 0); [discriminate|]. destruct (atLeast <? 0); [discriminate|].
  pose proof (readAtLeast_loop_order _ _ _ _ _ _ _ _ _ _ Hok Hb Hn Hmax Hlen Hr) as H.
  cbv zeta in *. intuition.
Qed.

Lemma readAtLeast_keeps_the_order_witness :
  let s := set_incoming (Sample.socket [] []) [Bytes [7; 8]; Bytes [9]; Bytes [5]] in
  let buf := [1; 2; 3; 0; 0; 0; 0; 4] in
  exists r s' buf',
    readAtLeast s buf 2 5 3 1 = Val (r, s', buf') /\
    buf' = [1; 2; 3; 7; 8; 0; 0; 4] /\
    slice buf' 2 (Z.max 0 (s64 r)) ++ flat (incoming s') = slice buf 2 1 ++ flat (incoming s).
Proof.
  intros s buf. eexists _, _, _.
  split; [vm_compute; reflexivity|]. split; [reflexivity|].
  refine (proj1 (proj2 (readAtLeast_keeps_the_order s buf 2 5 3 1 _ _ _ _ _ _ _ _ _))).
  - repeat constructor.
  - lia.
  - lia.
  - rewrite two63_eq. lia.
  - unfold len. simpl. lia.
  - vm_compute. reflexivity.
Defined.

(** X2.  [readAtLeast] reads no more than it has to: with [atLeast] bytes
    in hand it returns at once, the stream and the buffer untouched; and
    otherwise it stops with the first segment that brings the count to
    [atLeast], leaving the segments after it on the stream. *)
Theorem readAtLeast_stops_when_satisfied s buf base max atLeast n :
  0 <= n -> 0 <= atLeast -> max < two63 ->
  (atLeast <= n -> readAtLeast s buf base max atLeast n = Val (u64 n, s, buf)) /\
  (forall pre last tail,
      incoming s = map Bytes pre ++ Bytes last :: tail ->
      Forall (fun bs => bs <> []) pre ->
      n + len (concat pre) < atLeast ->
      atLeast <= n + len (concat pre) + len last ->
      n + len (concat pre) + len last <= max ->
      exists buf',
        readAtLeast s buf base max atLeast n
        = Val (n + len (concat pre) + len last, set_incoming s tail, buf')).
Proof.
  intros Hn Ha Hmax. pose proof two63_eq as H63. pose proof two64_eq as H64.
  split.
  - intros Hge. unfold readAtLeast, readAtLeast_fuel.
    destruct (n <? 0) eqn:E1; [lia|]. destruct (atLeast <? 0) eqn:E2; [lia|].
    rewrite readAtLeast_loop_unfold. destruct (n <? atLeast) eqn:E3; [lia|]. reflexivity.
  - intros pre last tail Hin Hne Hlt Hge Hle.
    pose proof (len_nonneg (concat pre)) as Hc. pose proof (len_nonneg last) as Hl.
    unfold readAtLeast, readAtLeast_fuel.
    destruct (n <? 0) eqn:E1; [lia|]. destruct (atLeast <? 0) eqn:E2; [lia|].
    pose proof (stream_size_segments pre (Bytes last :: tail)) as Hsz.
    rewrite <- Hin in Hsz. simpl in Hsz.
    assert (Hlast : (1 <= length last)%nat) by (unfold len in *; lia).
    replace (S (stream_size (incoming s)))
      with (length pre + S (S (stream_size (incoming s) - length pre - 1)))%nat by lia.
    destruct (readAtLeast_loop_segments base max atLeast Hmax (Bytes last :: tail) pre
                (S (S (stream_size (incoming s) - length pre - 1))) s buf n)
      as [buf1 Hrun]; auto; try lia.
    rewrite Hrun. set (total := n + len (concat pre)) in *.
    rewrite readAtLeast_loop_unfold.
    destruct (total <? atLeast) eqn:E3; [|lia].
    rewrite (u64_small (max - total)) by lia.
    rewrite (read_whole _ last tail) by (auto; lia).
    destruct (len last <? 0) eqn:E4; [lia|].
    destruct (len last =? 0) eqn:E5; [lia|].
    rewrite readAtLeast_loop_unfold.
    destruct (total + len last <? atLeast) eqn:E6; [lia|].
    rewrite u64_small by lia. rewrite set_incoming_twice. eauto.
Qed.

Lemma readAtLeast_stops_witness :
  let s := set_incoming (Sample.socket [] []) [Bytes [7]; Bytes [8; 9]; Bytes [5]] in
  exists buf',
    readAtLeast s (repeat 0 8%nat) 0 8 3 0
    = Val (0 + len (concat [[7]]) + len [8; 9], set_incoming s [Bytes [5]], buf').
Proof.
  intros s.
  refine (proj2 (readAtLeast_stops_when_satisfied s (repeat 0 8%nat) 0 8 3 0 _ _ _)
                [[7]] [8; 9] [Bytes [5]] _ _ _ _ _).
  - lia.
  - lia.
  - rewrite two63_eq. lia.
  - reflexivity.
  - repeat constructor. discriminate.
  - unfold len. simpl. lia.
  - unfold len. simpl. lia.
  - unfold len. simpl. lia.
Defined.

(** X3.  With no room left ([n = max]) and fewer than [atLeast] bytes,
    [readAtLeast] asks [read] for zero bytes and takes the answer for the end
    of the stream: it returns [max], and what the sender has still to
    deliver stays on the stream. *)
Theorem readAtLeast_full_buffer s buf base max atLeast :
  0 <= max < two63 -> max < atLeast ->
  (incoming s = [] \/ exists b bs rest, incoming s = Bytes (b :: bs) :: rest) ->
  readAtLeast s buf base max atLeast max = Val (u64 max, s, buf).
Proof.
  intros Hmax Hlt Hin. pose proof two63_eq as H63. pose proof two64_eq as H64.
  unfold readAtLeast, readAtLeast_fuel.
  destruct (max <? 0) eqn:E1; [lia|]. destruct (atLeast <? 0) eqn:E2; [lia|].
  rewrite readAtLeast_loop_unfold. destruct (max <? atLeast) eqn:E3; [|lia].
  replace (max - max) with 0 by lia. rewrite (u64_small 0) by lia.
  destruct Hin as [Hin | (b & bs & rest & Hin)].
  - rewrite read_eof by exact Hin. reflexivity.
  - unfold read. rewrite Hin. cbn -[u64].
    rewrite <- Hin. now rewrite set_incoming_same.
Qed.

Lemma readAtLeast_full_buffer_witness :
  let s := set_incoming (Sample.socket [] []) [Bytes [7; 8]] in
  readAtLeast s [1; 2] 0 2 3 2 = Val (u64 2, s, [1; 2]).
Proof.
  intros s. apply (readAtLeast_full_buffer s [1; 2] 0 2 3).
  - rewrite two63_eq. lia.
  - lia.
  - right. exists 7, [8], []. reflexivity.
Defined.

(** X4.  [readAtMost] is one [read] of at most [min(atMost, max)] bytes:
    it takes what the first segment has, up to that limit, and puts it at
    the start of the buffer; a failed read or the end of the stream leaves
    the buffer as it was; it never writes to the socket. *)
Theorem readAtMost_reads_once s buf max atMost :
  stream_ok (incoming s) -> 0 <= atMost -> 0 <= max < two63 -> max <= len buf ->
  let '(r, s', buf') := readAtMost s buf max atMost in
  let n := s64 r in
  n <= Z.min atMost max /\
  (forall bs rest, incoming s = Bytes bs :: rest -> n = Z.min (Z.min atMost max) (len bs)) /\
  (forall e rest, incoming s = Fail e :: rest -> n = Z.neg e /\ incoming s' = rest) /\
  (incoming s = [] -> n = 0) /\
  (0 < n ->
     slice buf' 0 n = firstn (Z.to_nat n) (flat (incoming s)) /\
     flat (incoming s) = slice buf' 0 n ++ flat (incoming s') /\
     skipn (Z.to_nat n) buf' = skipn (Z.to_nat n) buf) /\
  (n <= 0 -> buf' = buf /\ flat (incoming s') = flat (incoming s)) /\
  length buf' = length buf /\
  sent s' = sent s.
Proof.
  intros Hok Ha Hmax Hlen. pose proof two63_eq as H63. pose proof two64_eq as H64.
  unfold readAtMost.
  set (m := if atMost <? max then atMost else max).
  assert (Hm : m = Z.min atMost max) by (unfold m; destruct (atMost <? max) eqn:E; lia).
  assert (Hm0 : 0 <= m < two63) by lia.
  rewrite (s64_small m) by lia. rewrite (u64_small m) by lia.
  pose proof (read_negative s m Hok) as Hneg.
  pose proof (read_count s m) as Hcnt.
  pose proof (read_flat s m) as Hfl.
  pose proof (read_sent s m) as Hsent.
  assert (Hhead : forall bs rest, incoming s = Bytes bs :: rest ->
                                  fst (fst (read s m)) = Z.min m (len bs)).
  { intros bs rest Hin. unfold read. now rewrite Hin. }
  assert (Hfail : forall e rest, incoming s = Fail e :: rest ->
                                 fst (fst (read s m)) = Z.neg e /\ incoming (snd (read s m)) = rest).
  { intros e rest Hin. unfold read. now rewrite Hin. }
  assert (Heof : incoming s = [] -> fst (fst (read s m)) = 0).
  { intros Hin. unfold read. now rewrite Hin. }
  destruct (read s m) as [[k got] s1]. simpl in *.
  destruct Hfl as (Hfl & Hgot & Hnone); [lia|].
  assert (Hk : s64 (u64 k) = k) by (apply s64_u64_small; lia).
  destruct (k <? 0) eqn:E1; [|destruct (k =? 0) eqn:E2]; cbv zeta; rewrite Hk.
  - rewrite Hnone in Hfl by lia. repeat split; auto; try lia.
    + intros bs rest Hin. rewrite <- Hm. now apply Hhead with rest.
    + now apply (Hfail e rest).
    + now apply (Hfail e rest).
  - rewrite Hnone in Hfl by lia. repeat split; auto; try lia.
    + intros bs rest Hin. rewrite <- Hm. now apply Hhead with rest.
    + now apply (Hfail e rest).
    + now apply (Hfail e rest).
  - assert (Hgk : len got = k) by (apply Hgot; lia).
    assert (Hsl : slice (store buf 0 got) 0 k = got).
    { pose proof (slice_store_app buf 0 0 got) as Hs.
      rewrite <- Hgk. simpl in Hs. rewrite Hs by lia. reflexivity. }
    repeat split; auto; try lia.
    + intros bs rest Hin. rewrite <- Hm. now apply Hhead with rest.
    + now apply (Hfail e rest).
    + now apply (Hfail e rest).
    + rewrite Hsl, Hfl. rewrite firstn_app.
      replace (Z.to_nat k - length got)%nat with O by (unfold len in *; lia).
      simpl. rewrite app_nil_r. symmetry. apply firstn_all2. unfold len in *; lia.
    + now rewrite Hsl.
    + apply store_after; lia.
    + apply store_length.
Qed.


Module TrackerRuns.
Import Tracker.

Lemma tracker_step N refused ports socks w later total count :
  0 <= total < two64 ->
  w_finished w = false ->
  let current := sum_total (w_stats w) in
  let count' := if current =? total then count + 1 else 0 in
  tracker_loop N refused ports socks (w :: later) total count
  = if N <? count' then
      let '(fds, warned) := shutdown_all refused ports socks in
      mkOutcome GaveUp current count' fds warned
    else tracker_loop N refused ports socks later current count'.
Proof.
  intros Ht Hw. cbv zeta. cbn [tracker_loop]. rewrite Hw.
  rewrite (TrackerFacts.delta_zero _ _ (TrackerFacts.sum_total_range (w_stats w)) Ht).
  reflexivity.
Qed.

Lemma gave_up_window N refused ports socks : 0 <= N ->
  forall wakes total count,
    0 <= total < two64 -> 0 <= count <= N ->
    let o := tracker_loop N refused ports socks wakes total count in
    o_verdict o = GaveUp ->
    exists pre window later,
      wakes = pre ++ window ++ later /\
      Forall (fun w => w_finished w = false) (pre ++ window) /\
      Forall (fun w => sum_total (w_stats w) = o_totalBytes o) window /\
      o_zeroProgressCount o = N + 1 /\
      ((pre = [] /\ len window = N + 1 - count /\ o_totalBytes o = total) \/
       len window = N + 1).
Proof.
  intros HN. induction wakes as [|w later IH]; intros total count Ht Hc; cbv zeta.
  - simpl. discriminate.
  - destruct (w_finished w) eqn:Hw.
    { cbn [tracker_loop]. rewrite Hw. simpl. discriminate. }
    rewrite tracker_step by assumption. cbv zeta.
    pose proof (TrackerFacts.sum_total_range (w_stats w)) as Hcur.
    set (current := sum_total (w_stats w)) in *.
    destruct (current =? total) eqn:Heq.
    + apply Z.eqb_eq in Heq.
      destruct (N <? count + 1) eqn:Hgt.
      * destruct (shutdown_all refused ports socks) as [fds warned]. simpl. intros _.
        exists [], [w], later. simpl. repeat split; auto.
        -- lia.
        -- left. unfold len. simpl. repeat split; auto; lia.
      * intros Hv. apply Z.ltb_ge in Hgt.
        destruct (IH current (count + 1) Hcur ltac:(lia) Hv)
          as (pre & window & later' & Hw' & Hun & Hsum & Hz & Hcase).
        destruct Hcase as [(-> & Hlen & Htot) | Hlen].
        -- exists [], (w :: window), later'. simpl in *. subst later.
           repeat split; auto.
           left. unfold len in *. simpl. repeat split; auto; lia.
        -- exists (w :: pre), window, later'. subst later. simpl. repeat split; auto.
    + destruct (N <? 0) eqn:Hgt; [lia|].
      intros Hv.
      destruct (IH current 0 Hcur ltac:(lia) Hv)
        as (pre & window & later' & Hw' & Hun & Hsum & Hz & Hcase).
      exists (w :: pre), window, later'. subst later. simpl. repeat split; auto.
      right. destruct Hcase as [(_ & Hlen & _) | Hlen]; lia.
Qed.

Lemma quiet_unless_gave_up N refused ports socks :
  forall wakes total count,
    let o := tracker_loop N refused ports socks wakes total count in
    o_verdict o <> GaveUp -> o_shutdowns o = [] /\ o_warnings o = [].
Proof.
  induction wakes as [|w later IH]; intros total count; cbv zeta.
  - simpl. auto.
  - cbn [tracker_loop]. destruct (w_finished w); [simpl; auto|].
    match goal with |- context [if ?b then _ else _] => destruct b end.
    + destruct (shutdown_all refused ports socks) as [fds warned]. simpl. congruence.
    + apply IH.
Qed.

(** X5.  The progress tracker shuts sockets down and warns only when it
    gives up, and it gives up only at the end of
    [failed_timeout_checks + 1] checks in a row, of a transfer that is not
    finished, that all found the same total of bytes. *)
Theorem tracker_gives_up_only_on_a_stall
        (options : WdtOptions) (isJoinable_ : bool) (refused : Z -> bool)
        (ports : list Z) (socks : list ServerSocket) (wakes : list wake) :
  0 <= failed_timeout_checks options ->
  let o := progressTracker options isJoinable_ refused ports socks wakes in
  (o_verdict o <> GaveUp -> o_shutdowns o = [] /\ o_warnings o = []) /\
  (o_verdict o = GaveUp ->
   exists pre window later,
     wakes = pre ++ window ++ later /\
     len window = failed_timeout_checks options + 1 /\
     Forall (fun w => w_finished w = false) (pre ++ window) /\
     Forall (fun w => sum_total (w_stats w) = o_totalBytes o) window /\
     o_zeroProgressCount o = failed_timeout_checks options + 1).
Proof.
  intros HN. unfold progressTracker.
  destruct ((timeout_check_interval_millis options <? 0) || negb isJoinable_).
  - simpl. split; [auto | discriminate].
  - cbv zeta. split; [apply quiet_unless_gave_up|].
    intros Hv.
    destruct (gave_up_window (failed_timeout_checks options) refused ports socks HN
                wakes 0 0) as (pre & window & later & A & B & C & E & F); auto.
    { pose proof two64_eq. lia. }
    { lia. }
    exists pre, window, later. repeat split; auto.
    destruct F as [(_ & F & _) | F]; lia.
Qed.

Lemma tracker_stall_witness :
  let w := mkWake false [Sample.stats0] in
  let moved := mkWake false [mkStats 10 5 0 0 0 0 0 0] in
  let o := progressTracker Sample.options0 true (fun _ => false) [5000]
                           [Sample.socket [] []] [moved; moved; moved; moved; moved] in
  o_verdict o = GaveUp /\
  exists pre window later,
    [moved; moved; moved; moved; moved] = pre ++ window ++ later /\
    len window = 4 /\
    Forall (fun w => sum_total (w_stats w) = 15) window.
Proof.
  intros w moved o. split; [reflexivity|].
  destruct (tracker_gives_up_only_on_a_stall Sample.options0 true (fun _ => false) [5000]
              [Sample.socket [] []] [moved; moved; moved; moved; moved])
    as (_ & H).
  - simpl. lia.
  - destruct (H eq_refl) as (pre & window & later & A & B & _ & C & _).
    exists pre, window, later. repeat split; auto.
Defined.

Lemma stall_gives_up N refused ports socks : 0 <= N ->
  forall window later total count,
    0 <= total < two64 -> 0 <= count <= N ->
    len window = N + 1 - count ->
    Forall (fun w => w_finished w = false /\ sum_total (w_stats w) = total) window ->
    tracker_loop N refused ports socks (window ++ later) total count
    = mkOutcome GaveUp total (N + 1) (fst (shutdown_all refused ports socks))
                (snd (shutdown_all refused ports socks)).
Proof.
  intros HN. induction window as [|w window IH]; intros later total count Ht Hc Hlen Hall.
  - unfold len in Hlen. simpl in Hlen. lia.
  - inversion Hall as [|? ? [Hw Hs] Hall']; subst.
    change ((w :: window) ++ later) with (w :: (window ++ later)).
    rewrite tracker_step by assumption. cbv zeta.
    rewrite Z.eqb_refl.
    destruct (N <? count + 1) eqn:Hgt.
    + destruct (shutdown_all refused ports socks) as [fds warned]. simpl.
      f_equal. lia.
    + apply Z.ltb_ge in Hgt. apply IH; auto; try lia.
      unfold len in *. simpl in Hlen. lia.
Qed.

(** X6.  Checks in a row that find no progress are enough for the tracker
    to give up: from a count of [count], [failed_timeout_checks + 1 - count]
    of them end the loop with every socket shut down; and with a negative
    [failed_timeout_checks] the first check of an unfinished transfer is
    the last. *)
Theorem tracker_gives_up_after_a_stall
        (options : WdtOptions) (refused : Z -> bool)
        (ports : list Z) (socks : list ServerSocket) :
  let N := failed_timeout_checks options in
  let run := tracker_loop N refused ports socks in
  let shut := shutdown_all refused ports socks in
  (forall window later total count,
     0 <= total < two64 -> 0 <= count <= N ->
     len window = N + 1 - count ->
     Forall (fun w => w_finished w = false /\ sum_total (w_stats w) = total) window ->
     run (window ++ later) total count
     = mkOutcome GaveUp total (N + 1) (fst shut) (snd shut)) /\
  (forall w later total count,
     N < 0 -> 0 <= total < two64 -> 0 <= count ->
     w_finished w = false ->
     run (w :: later) total count
     = mkOutcome GaveUp (sum_total (w_stats w))
                 (if sum_total (w_stats w) =? total then count + 1 else 0)
                 (fst shut) (snd shut)).
Proof.
  cbv zeta. split.
  - intros window later total count Ht Hc Hlen Hall.
    apply stall_gives_up; auto. lia.
  - intros w later total count HN Ht Hc Hw.
    rewrite tracker_step by assumption. cbv zeta.
    destruct (shutdown_all refused ports socks) as [fds warned].
    destruct (sum_total (w_stats w) =? total).
    + destruct (failed_timeout_checks options <? count + 1) eqn:E; [reflexivity | lia].
    + destruct (failed_timeout_checks options <? 0) eqn:E; [reflexivity | lia].
Qed.

Lemma tracker_gives_up_witness :
  let w := mkWake false [Sample.stats0] in
  tracker_loop 3 (fun _ => false) [5000] [Sample.socket [] []] ([w; w; w; w] ++ [w]) 0 0
  = mkOutcome GaveUp 0 4 [3; 4] [].
Proof.
  intros w.
  apply (proj1 (tracker_gives_up_after_a_stall Sample.options0 (fun _ => false) [5000]
                  [Sample.socket [] []]) [w; w; w; w] [w] 0 0).
  - rewrite two64_eq. lia.
  - simpl. lia.
  - reflexivity.
  - repeat constructor.
Defined.

End TrackerRuns.

Module LifetimeFacts.
Import Session Lifetime.

Section Sessions.

Context {D : Decls}.
Variables (options : WdtOptions) (socket_for : Z -> Z -> ServerSocket).

Lemma start_at_rest r :
  at_rest r ->
  start options socket_for r
  = let r2 := mkReceiver (ports_ r) (isJoinable_ r) false (map Holds (workers options r))
                         NotAThread (map (fun _ => fresh_stats) (ports_ r))
                         (map (fun p => socket_for p (backlog options)) (ports_ r))
                         (journal r ++ map Started (workers options r)) in
    if isJoinable_ r
    then Done (log (Started TrackerJob) (with_tracker (Holds TrackerJob) r2))
    else Done r2.
Proof.
  intros (Hf & Ht & Hs & Hk & Hp). unfold start, markTransferFinished. simpl.
  rewrite Ht, Hs, Hk, Hp. simpl. reflexivity.
Qed.

Lemma finish_started r r1 tracker :
  receiverThreads_ r1 = map Holds (workers options r) ->
  ports_ r1 = ports_ r ->
  progressTrackerThread_ r1 = tracker ->
  finish r1
  = let r2 := mkReceiver (ports_ r1) (isJoinable_ r1) true
                         (map (fun _ => NotAThread) (workers options r)) tracker
                         (threadStats_ r1) (threadServerSockets_ r1)
                         (journal r1 ++ map Joined (workers options r) ++ [NotifiedAll]) in
    match tracker with
    | NotAThread => Throws r2
    | Holds j =>
        Done (mkReport (threadStats_ r1),
              mkReceiver (ports_ r1) (isJoinable_ r1) true [] NotAThread [] []
                         (journal r1 ++ map Joined (workers options r) ++ [NotifiedAll; Joined j]))
    end.
Proof.
  intros Ht Hp Hk. unfold finish.
  assert (Hl : length (ports_ r1) = length (workers options r)).
  { unfold workers. rewrite Hp, length_map, length_seq. reflexivity. }
  rewrite Hl.
  pose proof (SessionFacts.join_workers_all (workers options r) [] r1 Ht) as Hj.
  cbn [length app] in Hj. rewrite Hj.
  unfold markTransferFinished, log. simpl. rewrite Hk.
  destruct tracker; simpl; rewrite <- ?app_assoc; reflexivity.
Qed.

Lemma transferAsync_at_rest r :
  at_rest r ->
  transferAsync options socket_for r
  = Done (OK,
          mkReceiver (ports_ r) true false (map Holds (workers options r))
                     (Holds TrackerJob) (map (fun _ => fresh_stats) (ports_ r))
                     (map (fun p => socket_for p (backlog options)) (ports_ r))
                     (journal r ++ map Started (workers options r) ++ [Started TrackerJob])).
Proof.
  intros Hr. unfold transferAsync, hasPendingTransfer.
  destruct Hr as (Hf & Hrest). rewrite Hf. simpl negb. cbv iota.
  rewrite start_at_rest by (repeat split; simpl; tauto).
  simpl. unfold log, with_tracker. simpl. rewrite <- app_assoc. reflexivity.
Qed.

(** X7.  A session of a receiver at rest: [transferAsync] returns OK,
    having started one worker for each port and the tracker; until [finish]
    every further [transferAsync] or [runForever] returns ERROR and changes
    nothing; [finish] joins the workers, then the tracker, and leaves the
    receiver at rest again, with the same ports. *)
Theorem a_session_starts_and_comes_to_rest (r : Receiver) :
  at_rest r ->
  exists r1 report r2,
    transferAsync options socket_for r = Done (OK, r1) /\
    hasPendingTransfer r1 = true /\
    getPorts r1 = getPorts r /\
    receiverThreads_ r1 = map Holds (workers options r) /\
    progressTrackerThread_ r1 = Holds TrackerJob /\
    threadStats_ r1 = map (fun _ => fresh_stats) (getPorts r) /\
    threadServerSockets_ r1
    = map (fun p => socket_for p (backlog options)) (getPorts r) /\
    (forall options' socket_for',
        transferAsync options' socket_for' r1 = Done (ERROR, r1) /\
        runForever options' socket_for' r1 = Done (ERROR, r1)) /\
    finish r1 = Done (report, r2) /\
    journal r2
    = journal r ++ map Started (workers options r) ++ [Started TrackerJob]
        ++ map Joined (workers options r) ++ [NotifiedAll; Joined TrackerJob] /\
    at_rest r2 /\ isJoinable_ r2 = true /\ getPorts r2 = getPorts r.
Proof.
  intros Hr. eexists _, _, _.
  split; [apply transferAsync_at_rest; exact Hr|].
  split; [reflexivity|]. split; [reflexivity|]. split; [reflexivity|].
  split; [reflexivity|]. split; [reflexivity|]. split; [reflexivity|].
  split; [intros o' f'; split; reflexivity|].
  split.
  - rewrite (finish_started r _ (Holds TrackerJob)); reflexivity.
  - simpl. split; [now rewrite <- !app_assoc|].
    repeat split; reflexivity.
Qed.

(** X8.  [runForever] never returns OK.  On a receiver at rest that is
    not joinable it starts and joins the workers and then throws, in the
    join of a tracker thread that was never started; on one that is
    joinable it returns ERROR and leaves the receiver at rest. *)
Theorem runForever_has_no_good_end (r : Receiver) :
  (forall code r', runForever options socket_for r = Done (code, r') -> code = ERROR) /\
  (at_rest r -> isJoinable_ r = false ->
   exists r',
     runForever options socket_for r = Throws r' /\
     journal r' = journal r ++ map Started (workers options r) ++ map Joined (workers options r)
                    ++ [NotifiedAll] /\
     hasPendingTransfer r' = false /\
     length (threadStats_ r') = length (getPorts r)) /\
  (at_rest r -> isJoinable_ r = true ->
   exists r', runForever options socket_for r = Done (ERROR, r') /\ at_rest r').
Proof.
  split; [|split].
  - intros code r'. unfold runForever.
    destruct (hasPendingTransfer r); [congruence|].
    destruct (start options socket_for r) as [r1| | |]; try discriminate.
    destruct (finish r1) as [[rep r2]| | |]; try discriminate. congruence.
  - intros Hr Hj. unfold runForever, hasPendingTransfer.
    destruct Hr as (Hf & Hrest). rewrite Hf. simpl negb. cbv iota.
    rewrite start_at_rest by (repeat split; simpl; tauto). rewrite Hj. cbv zeta iota.
    rewrite (finish_started r _ NotAThread) by reflexivity. cbv zeta iota. simpl.
    eexists. split; [reflexivity|]. simpl.
    split; [now rewrite <- !app_assoc|]. split; [reflexivity|].
    unfold getPorts. now rewrite length_map.
  - intros Hr Hj. unfold runForever, hasPendingTransfer.
    destruct Hr as (Hf & Hrest). rewrite Hf. simpl negb. cbv iota.
    rewrite start_at_rest by (repeat split; simpl; tauto). rewrite Hj. cbv zeta iota.
    rewrite (finish_started r _ (Holds TrackerJob)) by reflexivity. cbv zeta iota.
    eexists. split; [reflexivity|]. repeat split.
Qed.

(** X9.  The destructor does nothing to a receiver at rest; after
    [transferAsync] it finishes the transfer (joining the workers and the
    tracker); and after [finish] it does nothing again. *)
Theorem destructor_finishes_what_is_pending (r : Receiver) :
  at_rest r ->
  destructor r = Done r /\
  forall r1,
    transferAsync options socket_for r = Done (OK, r1) ->
    (exists r2,
        destructor r1 = Done r2 /\ at_rest r2 /\
        journal r2 = journal r1 ++ map Joined (workers options r) ++ [NotifiedAll; Joined TrackerJob]) /\
    (forall report r2, finish r1 = Done (report, r2) -> destructor r2 = Done r2).
Proof.
  intros Hr. split.
  - unfold destructor, hasPendingTransfer. destruct Hr as (-> & _). reflexivity.
  - intros r1 H1. rewrite (transferAsync_at_rest r Hr) in H1.
    injection H1 as <-.
    split.
    + unfold destructor, hasPendingTransfer. simpl negb. cbv iota.
      rewrite (finish_started r _ (Holds TrackerJob)) by reflexivity. cbv zeta iota.
      eexists. split; [reflexivity|]. simpl. split; [repeat split|].
      now rewrite <- !app_assoc.
    + intros report r2.
      rewrite (finish_started r _ (Holds TrackerJob)) by reflexivity. cbv zeta iota.
      intros H. injection H as _ <-. reflexivity.
Qed.

End Sessions.

(** X10.  A receiver constructed for [numSockets] ports from [port] on is
    at rest and not joinable, and [transferAsync] gives the i-th port
    [port + i] its own worker, its own socket and its own fresh
    statistics. *)
Theorem a_new_receiver_serves_every_port {D : Decls}
        (options : WdtOptions) (socket_for : Z -> Z -> ServerSocket)
        (port : Z) (numSockets : nat) :
  let r := construct port numSockets in
  at_rest r /\ isJoinable_ r = false /\
  length (getPorts r) = numSockets /\
  exists r1,
    transferAsync options socket_for r = Done (OK, r1) /\
    length (receiverThreads_ r1) = numSockets /\
    forall i, (i < numSockets)%nat ->
      nth_error (getPorts r1) i = Some (port + Z.of_nat i) /\
      nth_error (receiverThreads_ r1) i
      = Some (Holds (WorkerJob i (effective_buffer_size options))) /\
      nth_error (threadServerSockets_ r1) i
      = Some (socket_for (port + Z.of_nat i) (backlog options)) /\
      nth_error (threadStats_ r1) i = Some fresh_stats.
Proof.
  cbv zeta.
  assert (Hrest : at_rest (construct port numSockets)) by (repeat split).
  split; [exact Hrest|]. split; [reflexivity|].
  assert (Hlen : length (getPorts (construct port numSockets)) = numSockets).
  { unfold getPorts, construct. simpl. now rewrite length_map, length_seq. }
  split; [exact Hlen|].
  eexists. split; [apply transferAsync_at_rest; exact Hrest|]. simpl.
  split.
  - unfold Lifetime.workers. simpl.
    now rewrite !length_map, !length_seq.
  - intros i Hi.
    assert (Hp : nth_error (map (fun i => port + Z.of_nat i) (seq 0 numSockets)) i
                 = Some (port + Z.of_nat i)).
    { rewrite nth_error_map, nth_error_seq.
      destruct (Nat.ltb_spec i numSockets); [reflexivity | lia]. }
    assert (Hs : nth_error (seq 0 numSockets) i = Some i).
    { rewrite nth_error_seq. destruct (Nat.ltb_spec i numSockets); [reflexivity | lia]. }
    unfold getPorts. simpl. split; [exact Hp|].
    unfold Lifetime.workers. simpl. rewrite length_map, length_seq.
    rewrite !nth_error_map, Hs. simpl. repeat split.
Qed.

End LifetimeFacts.

Lemma same_endpoint_refl s : same_endpoint s s.
Proof. repeat split. Qed.

Lemma same_endpoint_trans s1 s2 s3 :
  same_endpoint s1 s2 -> same_endpoint s2 s3 -> same_endpoint s1 s3.
Proof. unfold same_endpoint. intuition congruence. Qed.

Lemma same_endpoint_listener s s' : same_endpoint s s' -> same_listener s s'.
Proof. unfold same_endpoint, same_listener. intuition. Qed.

Lemma same_listener_trans s1 s2 s3 :
  same_listener s1 s2 -> same_listener s2 s3 -> same_listener s1 s3.
Proof. unfold same_listener. intuition congruence. Qed.

Lemma read_endpoint s count : same_endpoint s (snd (read s count)).
Proof.
  unfold read. destruct (incoming s) as [|[bs|e] rest]; simpl; repeat split.
Qed.

Lemma readAtLeast_loop_endpoint fuel : forall s buf base max atLeast n r s' buf',
  readAtLeast_loop fuel s buf base max atLeast n = Val (r, s', buf') ->
  same_endpoint s s' /\ sent s' = sent s.
Proof.
  induction fuel as [|fuel IH]; intros s buf base max atLeast n r s' buf'.
  - simpl. destruct (n <? atLeast); [discriminate|]. intros H. injection H as _ <- _.
    split; [apply same_endpoint_refl | reflexivity].
  - rewrite readAtLeast_loop_unfold. destruct (n <? atLeast).
    2:{ intros H. injection H as _ <- _. split; [apply same_endpoint_refl | reflexivity]. }
    pose proof (read_endpoint s (u64 (max - n))) as He.
    pose proof (read_sent s (u64 (max - n))) as Hs.
    destruct (read s (u64 (max - n))) as [[k got] s1]. simpl in He, Hs.
    destruct (k <? 0); [intros H; injection H as _ <- _; auto|].
    destruct (k =? 0); [intros H; injection H as _ <- _; auto|].
    intros H. apply IH in H. destruct H as (H1 & H2).
    split; [eapply same_endpoint_trans; eauto | congruence].
Qed.

Lemma readAtLeast_endpoint s buf base max atLeast n r s' buf' :
  readAtLeast s buf base max atLeast n = Val (r, s', buf') ->
  same_endpoint s s' /\ sent s' = sent s.
Proof.
  unfold readAtLeast, readAtLeast_fuel.
  destruct (n <? 0); [discriminate|]. destruct (atLeast <? 0); [discriminate|].
  apply readAtLeast_loop_endpoint.
Qed.

Lemma readAtMost_endpoint s buf max atMost :
  let '(r, s', buf') := readAtMost s buf max atMost in
  same_endpoint s s' /\ sent s' = sent s /\ length buf' = length buf.
Proof.
  unfold readAtMost.
  pose proof (read_endpoint s (u64 (s64 (if atMost <? max then atMost else max)))) as He.
  pose proof (read_sent s (u64 (s64 (if atMost <? max then atMost else max)))) as Hs.
  destruct (read s _) as [[k got] s1]. simpl in He, Hs.
  destruct (k <? 0); [auto|]. destruct (k =? 0); [auto|].
  split; [exact He|]. split; [exact Hs | apply store_length].
Qed.

Ltac frame_step :=
  lazymatch goal with
  | |- _ _ (with_off _ _) => apply frame_off
  | |- _ _ (with_numRead _ _) => apply frame_numRead
  | |- _ _ (open_dest _ _ _) => apply frame_open
  | |- _ _ (write_out _ _ _) => apply frame_write
  | |- _ _ (close_dest _) => apply frame_close
  | |- _ _ (with_buf (store _ _ _) _) => apply frame_buf; simpl; apply store_length
  | |- _ _ (with_stats (Stats.setErrorCode PROTOCOL_ERROR _) _) =>
      apply frame_protocol_error
  | |- _ _ (with_stats (Stats.setErrorCode OK _) _) => apply frame_ok
  | |- _ _ (with_stats (Stats.setRemoteErrorCode _ _) _) => apply frame_remote
  | |- _ _ (with_stats _ _) => apply frame_stats; reflexivity
  end.

Ltac frames :=
  unfold upd_stats;
  repeat first [ apply frame_refl | frame_step | eapply frame_trans; [|frame_step] ].

Section Framing.

Context {D : Decls} (doActualWrites : bool) (R : Conn -> Conn -> Prop).
Context {F : Frame doActualWrites R}.

Lemma frame_reading c s' buf' :
  same_endpoint (c_sock c) s' -> sent s' = sent (c_sock c) ->
  length buf' = length (c_buf c) ->
  R c (with_buf buf' (with_sock s' c)).
Proof.
  intros He Hs Hl. eapply frame_trans; [apply frame_sock; eassumption|].
  apply frame_buf. exact Hl.
Qed.

Lemma stream_tail_frame fuel : forall B sz w c w' c',
  stream_tail fuel B sz w c = Val (w', c') -> R c c'.
Proof.
  induction fuel as [|fuel IH]; intros B sz w c w' c'.
  - simpl. destruct (w <? sz); [discriminate|]. intros H. injection H as _ <-.
    apply frame_refl.
  - rewrite stream_tail_unfold. destruct (w <? sz).
    2:{ intros H. injection H as _ <-. apply frame_refl. }
    pose proof (readAtMost_endpoint (c_sock c) (c_buf c) B (u64 (sz - w))) as Hm.
    destruct (readAtMost (c_sock c) (c_buf c) B (u64 (sz - w))) as [[r s1] b1].
    destruct Hm as (He & Hs & Hl). cbv zeta.
    pose proof (frame_reading c s1 b1 He Hs Hl) as H1.
    destruct (s64 r <=? 0).
    + intros H. injection H as _ <-. exact H1.
    + intros H. apply IH in H.
      eapply frame_trans; [exact H1|].
      eapply frame_trans; [|exact H]. frames.
Qed.

Lemma file_cmd_frame B numRead old c :
  R c (state_of (file_cmd doActualWrites B numRead old c)).
Proof.
  unfold file_cmd. cbv zeta.
  destruct (d_success _); simpl negb; cbv iota.
  2:{ simpl. frames. }
  match goal with
  | |- context [stream_tail ?f ?b ?sz ?w ?c5] =>
      destruct (stream_tail f b sz w c5) as [[w' c6]| |] eqn:Et;
      [apply stream_tail_frame in Et|simpl; frames|simpl; frames]
  end.
  assert (H6 : R c c6).
  { eapply frame_trans; [|exact Et]. frames. }
  clear Et.
  repeat match goal with |- context [if ?b then _ else _] => destruct b end;
    simpl; (eapply frame_trans; [exact H6|]); frames.
Qed.

Context {G : FrameDone R}.

Lemma done_cmd_frame j numRead status c :
  R c (state_of (done_cmd j numRead status c)).
Proof.
  unfold done_cmd. destruct (negb (numRead =? 2)); [simpl; frames|]. cbv zeta.
  set (buf1 := store (c_buf c) (c_off c - 1) _).
  set (m := slice buf1 (c_off c - 2) 2).
  set (c1 := with_sock (write (c_sock c) m) (with_buf buf1 c)).
  assert (H1 : R c c1).
  { eapply frame_trans; [apply (frame_buf c buf1), store_length|].
    apply (frame_reply (with_buf buf1 c) m). }
  assert (H2 : forall t e,
             errorCode t = errorCode (c_stats c) ->
             remoteErrorCode t = e ->
             R (upd_stats (Stats.setRemoteErrorCode e) c1) (with_stats t c1)).
  { intros t e He Hr.
    apply (frame_stats (upd_stats (Stats.setRemoteErrorCode e) c1) t); [exact He | exact Hr]. }
  assert (H3 : forall t,
             errorCode t = errorCode (c_stats c) ->
             R c (with_stats t c1)).
  { intros t He. eapply frame_trans; [exact H1|].
    eapply frame_trans; [apply (frame_remote c1 (remoteErrorCode t))|].
    now apply H2. }
  destruct (negb (status =? OK)); destruct j; cbn [state_of].
  - apply H3. reflexivity.
  - eapply frame_trans; [|apply frame_ok]. apply H3. reflexivity.
  - apply H3. reflexivity.
  - eapply frame_trans; [|apply frame_ok]. apply H3. reflexivity.
Qed.

Lemma iteration_frame j B c :
  R c (state_of (iteration j doActualWrites B c)).
Proof.
  unfold iteration.
  destruct (readAtLeast _ _ _ _ _ _) as [[[r s1] b1]| |] eqn:Er;
    [|apply frame_refl|apply frame_refl].
  pose proof (readAtLeast_endpoint _ _ _ _ _ _ _ _ _ Er) as (He & Hs).
  pose proof (readAtLeast_length _ _ _ _ _ _ _ _ _ Er) as Hl.
  cbv zeta.
  assert (H1 : R c (with_numRead (s64 r) (with_buf b1 (with_sock s1 c)))).
  { eapply frame_trans; [apply (frame_reading c s1 b1 He Hs Hl)|]. frames. }
  destruct (s64 r <=? 0); [exact H1|].
  destruct (load b1 (c_off c) =? EXIT_CMD).
  { destruct (negb (s64 r =? 1)); simpl; (eapply frame_trans; [exact H1|]); frames. }
  destruct (load b1 (c_off c) =? DONE_CMD).
  { eapply frame_trans; [|apply done_cmd_frame].
    eapply frame_trans; [exact H1|]. frames. }
  destruct (negb (load b1 (c_off c) =? FILE_CMD)).
  { simpl. eapply frame_trans; [exact H1|]. frames. }
  eapply frame_trans; [|apply file_cmd_frame].
  eapply frame_trans; [exact H1|]. frames.
Qed.

Lemma loop_frame j B fuel : forall c,
  R c (state_of (loop fuel (iteration j doActualWrites B) c)).
Proof.
  induction fuel as [|fuel IH]; intros c; simpl; [apply frame_refl|].
  pose proof (iteration_frame j B c) as H.
  destruct (iteration j doActualWrites B c) eqn:E; simpl in H; try exact H.
  eapply frame_trans; [exact H|]. apply IH.
Qed.

End Framing.

Ltac unfold_steps :=
  unfold open_dest, write_out, close_dest, syscall, upd_stats,
    with_sock, with_fs, with_stats, with_buf, with_off, with_numRead, with_dest;
  repeat match goal with
         | |- context [if ?b then _ else _] => destruct b eqn:?
         end;
  simpl.

Section Frames.

Context {D : Decls}.

Lemma endpoint_frame dw : Frame dw (fun c c' => same_endpoint (c_sock c) (c_sock c')).
Proof.
  constructor; intros; try (unfold_steps; apply same_endpoint_refl).
  - eapply same_endpoint_trans; eassumption.
  - assumption.
Qed.

Lemma endpoint_frame_done : FrameDone (fun c c' => same_endpoint (c_sock c) (c_sock c')).
Proof. constructor; intros; unfold_steps; repeat split. Qed.

Lemma sent_frame dw : Frame dw (fun c c' => sent (c_sock c') = sent (c_sock c)).
Proof.
  constructor; intros; try (unfold_steps; reflexivity).
  - congruence.
  - assumption.
Qed.

Lemma length_frame dw : Frame dw (fun c c' => length (c_buf c') = length (c_buf c)).
Proof.
  constructor; intros; try (unfold_steps; reflexivity).
  - congruence.
  - assumption.
Qed.

Lemma length_frame_done : FrameDone (fun c c' => length (c_buf c') = length (c_buf c)).
Proof. constructor; intros; unfold_steps; reflexivity. Qed.

Lemma remote_frame dw :
  Frame dw (fun c c' => remoteErrorCode (c_stats c') = remoteErrorCode (c_stats c)).
Proof.
  constructor; intros; try (unfold_steps; reflexivity).
  - congruence.
  - assumption.
Qed.

(** with the writes switched off and no descriptor held, the file system is
    left alone *)
Lemma no_files_frame :
  Frame false (fun c c' => c_dest c < 0 -> c_fs c' = c_fs c /\ c_dest c' = c_dest c).
Proof.
  constructor; intros; try (unfold_steps; auto; lia).
  destruct (H H1) as (A & B). destruct H0 as (A' & B'); [lia|]. split; congruence.
Qed.

Lemma no_files_frame_done :
  FrameDone (fun c c' => c_dest c < 0 -> c_fs c' = c_fs c /\ c_dest c' = c_dest c).
Proof. constructor; intros; unfold_steps; auto. Qed.

(** the log of calls only grows, and the script stays *)
Lemma log_frame dw :
  Frame dw (fun c c' => fsScript (c_fs c') = fsScript (c_fs c) /\
                        exists new, fsLog (c_fs c') = fsLog (c_fs c) ++ new).
Proof.
  constructor; intros;
    try (unfold_steps; (split; [reflexivity|]);
         first [ now (exists []; rewrite app_nil_r)
               | rewrite <- ?app_assoc; eexists; reflexivity ]).
  destruct H as (A & n1 & B), H0 as (A' & n2 & B').
  split; [congruence|]. exists (n1 ++ n2). rewrite B', B. now rewrite app_assoc.
Qed.

Lemma log_frame_done :
  FrameDone (fun c c' => fsScript (c_fs c') = fsScript (c_fs c) /\
                         exists new, fsLog (c_fs c') = fsLog (c_fs c) ++ new).
Proof.
  constructor; intros; unfold_steps; (split; [reflexivity|]);
    exists []; now rewrite app_nil_r.
Qed.

End Frames.

Section Sockets.

Context {D : Decls}.

(** a turn sends nothing, unless it sends the reply to DONE and is the last
    turn of its connection *)
Lemma iteration_sent j dw B c :
  match iteration j dw B c with
  | Return _ c' => j = true /\ exists m, sent (c_sock c') = sent (c_sock c) ++ [m]
  | Break c' =>
      sent (c_sock c') = sent (c_sock c) \/
      (j = false /\ exists m, sent (c_sock c') = sent (c_sock c) ++ [m])
  | Next c' | ProcessExit c' | Crashed c' | NoFuel c' =>
      sent (c_sock c') = sent (c_sock c)
  end.
Proof.
  pose proof (file_cmd_not_return dw B) as Hnr.
  unfold iteration.
  destruct (readAtLeast _ _ _ _ _ _) as [[[r s1] b1]| |] eqn:Er; try reflexivity.
  pose proof (readAtLeast_endpoint _ _ _ _ _ _ _ _ _ Er) as (_ & Hs).
  cbv zeta. destruct (s64 r <=? 0); [now left|].
  destruct (load b1 (c_off c) =? EXIT_CMD).
  { destruct (negb (s64 r =? 1)); [now left | exact Hs]. }
  destruct (load b1 (c_off c) =? DONE_CMD).
  { unfold done_cmd. destruct (negb (s64 r =? 2)); [now left|]. cbv zeta.
    destruct j; simpl; rewrite Hs; [split; eauto | right; split; eauto]. }
  destruct (negb (load b1 (c_off c) =? FILE_CMD)); [now left|].
  match goal with |- context [file_cmd dw B ?n ?o ?c3] =>
    pose proof (file_cmd_frame dw _ (F := sent_frame dw) B n o c3) as Hf;
    specialize (Hnr n o c3);
    destruct (file_cmd dw B n o c3) eqn:E; simpl in Hf;
    try (rewrite Hf; exact Hs)
  end.
  - left. rewrite Hf. exact Hs.
  - exfalso. exact (Hnr _ _ eq_refl).
Qed.

Lemma loop_sent j dw B fuel : forall c,
  match loop fuel (iteration j dw B) c with
  | Return _ c' => j = true /\ exists m, sent (c_sock c') = sent (c_sock c) ++ [m]
  | Break c' =>
      sent (c_sock c') = sent (c_sock c) \/
      (j = false /\ exists m, sent (c_sock c') = sent (c_sock c) ++ [m])
  | Next c' | ProcessExit c' | Crashed c' | NoFuel c' =>
      sent (c_sock c') = sent (c_sock c)
  end.
Proof.
  induction fuel as [|fuel IH]; intros c; simpl; [reflexivity|].
  pose proof (iteration_sent j dw B c) as H.
  destruct (iteration j dw B c) as [c1| | | | |] eqn:E; try exact H.
  rewrite <- H. apply IH.
Qed.

(** what a served connection leaves of the socket *)
Lemma serve_socket fuel j dw B c :
  let s := c_sock c in
  match serve fuel j dw B c with
  | Next c' =>
      same_listener s (c_sock c') /\
      acceptCalls (c_sock c') = acceptCalls s /\
      closedConnections (c_sock c') = S (closedConnections s) /\
      (sent (c_sock c') = sent s \/
       (j = false /\ exists m, sent (c_sock c') = sent s ++ [m]))
  | Return _ c' =>
      same_endpoint s (c_sock c') /\
      j = true /\ exists m, sent (c_sock c') = sent s ++ [m]
  | Break c' => False
  | ProcessExit c' | Crashed c' | NoFuel c' =>
      same_endpoint s (c_sock c') /\ sent (c_sock c') = sent s
  end.
Proof.
  cbv zeta. unfold serve. cbv zeta.
  set (c1 := with_dest (-1) (with_off 0 (with_numRead 0 c))).
  pose proof (loop_frame dw _ (F := endpoint_frame dw) (G := endpoint_frame_done)
                j B fuel c1) as He.
  pose proof (loop_sent j dw B fuel c1) as Hs.
  pose proof (loop_not_next fuel (iteration j dw B) c1) as Hn.
  change (c_sock c1) with (c_sock c) in *.
  destruct (loop fuel (iteration j dw B) c1) as [c2|c2|site c2|c2|c2|c2] eqn:E;
    simpl in He; auto.
  - exfalso. exact (Hn _ eq_refl).
  - assert (Hcl : c_sock (close_leftover c2) = c_sock c2).
    { unfold close_leftover, syscall. destruct (0 <=? c_dest c2); reflexivity. }
    rewrite Hcl. simpl. destruct He as (E1 & E2 & E3 & E4 & E5 & E6 & E7).
    split; [repeat split; simpl; congruence|].
    split; [congruence|]. split; [congruence | exact Hs].
Qed.

End Sockets.

Section Books.

Context {D : Decls}.

Lemma same_listener_refl s : same_listener s s.
Proof. repeat split. Qed.

Lemma accept_body_socket fuel j dw B c :
  let s := c_sock c in
  match accept_body fuel j dw B c with
  | Next c' =>
      same_listener s (c_sock c') /\
      acceptCalls (c_sock c') = S (acceptCalls s) /\
      closedConnections (c_sock c') = S (closedConnections s) /\
      (sent (c_sock c') = sent s \/
       (j = false /\ exists m, sent (c_sock c') = sent s ++ [m]))
  | Return site c' =>
      same_listener s (c_sock c') /\
      acceptCalls (c_sock c') = S (acceptCalls s) /\
      closedConnections (c_sock c') = closedConnections s /\
      ((site = RetAcceptFailed /\ sent (c_sock c') = sent s) \/
       (site = RetDone /\ j = true /\ exists m, sent (c_sock c') = sent s ++ [m]))
  | Break c' => False
  | ProcessExit c' | Crashed c' | NoFuel c' =>
      same_listener s (c_sock c') /\
      acceptCalls (c_sock c') = S (acceptCalls s) /\
      closedConnections (c_sock c') = closedConnections s /\
      sent (c_sock c') = sent s
  end.
Proof.
  cbv zeta. unfold accept_body, acceptNextConnection.
  destruct (acceptScript (c_sock c) (acceptCalls (c_sock c))) as [code stream].
  destruct (negb (code =? OK)).
  - simpl. repeat split. left. split; reflexivity.
  - match goal with |- context [serve fuel j dw B ?c1] =>
      pose proof (serve_socket fuel j dw B c1) as H;
      pose proof (serve_return fuel j dw B c1) as Hr;
      destruct (serve fuel j dw B c1) as [c2|c2|site c2|c2|c2|c2]
    end; cbv zeta in H; unfold same_listener, same_endpoint in *; simpl in H; auto.
    all: try (destruct (Hr _ _ eq_refl) as (-> & _)).
    all: intuition eauto.
Qed.

Lemma accept_loop_books fuel' j dw B fuel : forall c,
  books_kept j (c_sock c) (loop fuel (accept_body fuel' j dw B) c).
Proof.
  induction fuel as [|fuel IH]; intros c; simpl.
  - unfold books_kept. simpl. split; [apply same_listener_refl|].
    repeat split; try lia. exists []. now rewrite app_nil_r.
  - pose proof (accept_body_socket fuel' j dw B c) as H. cbv zeta in H.
    destruct (accept_body fuel' j dw B c) as [c1|c1|site c1|c1|c1|c1] eqn:E.
    + specialize (IH c1). unfold books_kept in *. cbv zeta in *.
      destruct H as (L1 & A1 & K1 & S1).
      destruct IH as (L2 & A2 & K2 & (new & S2) & IH).
      set (s' := c_sock (state_of (loop fuel (accept_body fuel' j dw B) c1))) in *.
      split; [eapply same_listener_trans; eassumption|].
      split; [lia|]. split; [lia|].
      assert (Hlen : (length (sent (c_sock c1)) = length (sent (c_sock c)) /\
                      exists n1, sent (c_sock c1) = sent (c_sock c) ++ n1) \/
                     (j = false /\ length (sent (c_sock c1)) = S (length (sent (c_sock c))) /\
                      exists n1, sent (c_sock c1) = sent (c_sock c) ++ n1)).
      { destruct S1 as [S1 | (Hj & m & S1)].
        - left. rewrite S1. split; [reflexivity|]. exists []. now rewrite app_nil_r.
        - right. rewrite S1, length_app. simpl. split; [exact Hj|]. split; [lia|eauto]. }
      assert (Hnew : exists n, sent s' = sent (c_sock c) ++ n).
      { destruct Hlen as [(_ & n1 & Hn) | (_ & _ & n1 & Hn)];
          exists (n1 ++ new); rewrite S2, Hn; now rewrite app_assoc. }
      split; [exact Hnew|].
      assert (Hs2 : (length (sent (c_sock c1)) <= length (sent s'))%nat).
      { rewrite S2, length_app. lia. }
      destruct (loop fuel (accept_body fuel' j dw B) c1) as [c2|c2|site c2|c2|c2|c2];
        try contradiction; simpl in *.
      * destruct site;
          (destruct Hlen as [(Hl & _) | (Hj & Hl & _)];
           [ | try (destruct IH as (_ & Hjt & _); congruence)];
           repeat split; try lia;
           try (intros Hj'; destruct IH as (_ & _ & IH); specialize (IH Hj'); lia);
           try tauto).
        all: try (intros Hj'; congruence).
      * destruct Hlen as [(Hl & _) | (Hj & Hl & _)];
          repeat split; try lia;
          try (intros Hj'; destruct IH as (_ & _ & IH); specialize (IH Hj'); lia).
        all: try (intros Hj'; congruence).
      * destruct Hlen as [(Hl & _) | (Hj & Hl & _)];
          repeat split; try lia;
          try (intros Hj'; destruct IH as (_ & _ & IH); specialize (IH Hj'); lia).
        all: try (intros Hj'; congruence).
      * destruct Hlen as [(Hl & _) | (Hj & Hl & _)];
          repeat split; try lia;
          try (intros Hj'; destruct IH as (_ & _ & IH); specialize (IH Hj'); lia).
        all: try (intros Hj'; congruence).
    + contradiction.
    + unfold books_kept. cbv zeta. simpl.
      destruct H as (L1 & A1 & K1 & S1). split; [exact L1|].
      split; [lia|]. split; [lia|].
      destruct S1 as [(-> & S1) | (-> & Hj & m & S1)]; rewrite S1.
      * split; [exists []; now rewrite app_nil_r|]. repeat split; lia.
      * split; [eauto|]. rewrite length_app. simpl. repeat split; auto; lia.
    + unfold books_kept. cbv zeta. simpl.
      destruct H as (L1 & A1 & K1 & S1). split; [exact L1|].
      split; [lia|]. split; [lia|]. rewrite S1.
      split; [exists []; now rewrite app_nil_r|]. repeat split; lia.
    + unfold books_kept. cbv zeta. simpl.
      destruct H as (L1 & A1 & K1 & S1). split; [exact L1|].
      split; [lia|]. split; [lia|]. rewrite S1.
      split; [exists []; now rewrite app_nil_r|]. repeat split; lia.
    + unfold books_kept. cbv zeta. simpl.
      destruct H as (L1 & A1 & K1 & S1). split; [exact L1|].
      split; [lia|]. split; [lia|]. rewrite S1.
      split; [exists []; now rewrite app_nil_r|]. repeat split; lia.
Qed.

End Books.

Section Listening.

Context {D : Decls}.

Lemma listen_retries_calls n : forall c,
  let r := listen_retries n c in
  let c' := state_of r in
  let s := c_sock c in
  let calls := listens s (c_sock c') in
  only_listened s (c_sock c') /\
  c_fs c' = c_fs c /\ c_buf c' = c_buf c /\
  counters (c_stats c') = counters (c_stats c) /\
  (calls <= n)%nat /\
  (forall i, (S i < calls)%nat -> answer s i <> OK /\ answer s i <> CONN_ERROR) /\
  match r with
  | Return site _ =>
      site = RetListenConnError /\ (1 <= calls)%nat /\
      answer s (calls - 1) = CONN_ERROR /\ answer s (calls - 1) <> OK
  | Break _ =>
      c_stats c' = c_stats c /\
      ((calls = n /\ forall i, (i < calls)%nat -> answer s i <> OK /\ answer s i <> CONN_ERROR) \/
       ((1 <= calls)%nat /\ answer s (calls - 1) = OK))
  | _ => False
  end.
Proof.
  induction n as [|n IH]; intros c; cbv zeta.
  - simpl. unfold only_listened, listens, answer.
    replace (listenCalls (c_sock c) - listenCalls (c_sock c))%nat with O by lia.
    split; [split; [lia | now destruct (c_sock c)] | ].
    repeat split; auto; try lia. left. split; [reflexivity|]. intros i Hi. lia.
  - cbn [listen_retries]. unfold listen.
    set (code := listenScript (c_sock c) (listenCalls (c_sock c))).
    set (sock1 := mkSocket _ _ _ _ _ _ _ _ _).
    assert (Hcode : answer (c_sock c) 0 = code).
    { unfold answer, code. f_equal. lia. }
    destruct (code =? OK) eqn:Eok.
    { apply Z.eqb_eq in Eok. unfold only_listened, listens. cbn -[Nat.sub Nat.add].
      replace (S (listenCalls (c_sock c)) - listenCalls (c_sock c))%nat with 1%nat by lia.
      split; [split; [lia | reflexivity] | ].
      repeat split; auto; try lia.
      right. split; [lia|]. simpl. congruence. }
    apply Z.eqb_neq in Eok.
    destruct (code =? CONN_ERROR) eqn:Ece.
    { apply Z.eqb_eq in Ece. unfold only_listened, listens. cbn -[Nat.sub Nat.add].
      replace (S (listenCalls (c_sock c)) - listenCalls (c_sock c))%nat with 1%nat by lia.
      split; [split; [lia | reflexivity] | ].
      repeat split; auto; try lia; simpl; congruence. }
    apply Z.eqb_neq in Ece.
    specialize (IH (with_sock sock1 c)). cbv zeta in IH.
    set (r := listen_retries n (with_sock sock1 c)) in *.
    change (c_sock (with_sock sock1 c)) with sock1 in IH.
    change (c_fs (with_sock sock1 c)) with (c_fs c) in IH.
    change (c_buf (with_sock sock1 c)) with (c_buf c) in IH.
    change (c_stats (with_sock sock1 c)) with (c_stats c) in IH.
    destruct IH as ((Hle & Hs') & Hfs & Hbuf & Hcnt & Hn & Hall & Hr).
    set (s' := c_sock (state_of r)) in *.
    assert (Hl1 : listenCalls sock1 = S (listenCalls (c_sock c))) by reflexivity.
    assert (Hcalls : listens (c_sock c) s' = S (listens sock1 s')).
    { unfold listens in *. lia. }
    assert (Hans : forall i, answer sock1 i = answer (c_sock c) (S i)).
    { intros i. unfold answer. rewrite Hl1. simpl. f_equal. lia. }
    split; [split; [lia | exact Hs'] | ].
    split; [exact Hfs|]. split; [exact Hbuf|]. split; [exact Hcnt|].
    rewrite Hcalls. split; [lia|].
    split.
    { intros [|i] Hi; [rewrite Hcode; auto|]. rewrite <- Hans. apply Hall. lia. }
    destruct r as [c1|c1|site c1|c1|c1|c1]; try contradiction.
    + destruct Hr as (Hst & Hr). split; [exact Hst|].
      destruct Hr as [(Hc & Hf) | (Hc & Ha)].
      * left. split; [lia|]. intros [|i] Hi; [rewrite Hcode; auto|].
        rewrite <- Hans. apply Hf. lia.
      * right. split; [lia|].
        replace (S (listens sock1 s') - 1)%nat with (S (listens sock1 s' - 1)) by lia.
        now rewrite <- Hans.
    + destruct Hr as (Hsite & Hc & Ha & Hno). split; [exact Hsite|]. split; [lia|].
      replace (S (listens sock1 s') - 1)%nat with (S (listens sock1 s' - 1)) by lia.
      rewrite <- Hans. auto.
Qed.

Lemma only_listened_trans s1 s2 s3 :
  only_listened s1 s2 -> only_listened s2 s3 -> only_listened s1 s3.
Proof.
  intros (L1 & E1) (L2 & E2). split; [lia|].
  rewrite E2. rewrite E1. reflexivity.
Qed.

Lemma listen_only_listened s : only_listened s (snd (listen s)).
Proof. split; simpl; [lia | reflexivity]. Qed.

Lemma accept_loop_not_break fuel' j dw B fuel c c' :
  loop fuel (accept_body fuel' j dw B) c <> Break c'.
Proof. apply loop_not_break. intros s s'. apply accept_body_not_break. Qed.

Lemma accept_loop_return fuel' j dw B fuel c site c' :
  loop fuel (accept_body fuel' j dw B) c = Return site c' ->
  site = RetAcceptFailed \/ site = RetDone.
Proof.
  apply (loop_return (fun site _ => site = RetAcceptFailed \/ site = RetDone)).
  intros s site' s' H. apply accept_body_return in H. tauto.
Qed.

(** receiveOne returns before it has accepted anything, or it is its accept
    loop *)
Lemma receiveOne_phases fuel options j fc heap socket B stats :
  let r := receiveOne fuel options j fc heap socket B stats in
  (exists site c1,
      r = Return site c1 /\
      (site = RetListenConnError \/ site = RetListenGaveUp \/ site = RetNoMemory) /\
      only_listened socket (c_sock c1) /\ c_fs c1 = fc /\
      counters (c_stats c1) = counters stats) \/
  (exists c3,
      only_listened socket (c_sock c3) /\ c_fs c3 = fc /\
      r = loop fuel (accept_body fuel j (negb (skip_writes options)) B) c3).
Proof.
  cbv zeta. unfold receiveOne. cbv zeta.
  set (c0 := mkConn socket fc stats [] 0 0 (-1)).
  pose proof (listen_retries_calls (Z.to_nat (max_retries options - 1)) c0) as HL.
  cbv zeta in HL.
  destruct (listen_retries (Z.to_nat (max_retries options - 1)) c0)
    as [c1|c1|site c1|c1|c1|c1]; simpl in HL;
    destruct HL as (Hl & Hfs & Hbuf & Hcnt & _ & _ & HL); try contradiction.
  - pose proof (listen_only_listened (c_sock c1)) as Hl2.
    destruct (listen (c_sock c1)) as [code sock2]. simpl in Hl2.
    pose proof (only_listened_trans _ _ _ Hl Hl2) as Hl3.
    destruct (negb (code =? OK)).
    { left. eexists _, _. split; [reflexivity|]. split; [tauto|].
      simpl. repeat split; auto; apply Hl3. }
    destruct heap as [block|].
    2:{ left. eexists _, _. split; [reflexivity|]. split; [tauto|].
        simpl. repeat split; auto; apply Hl3. }
    right.
    match goal with |- context [loop fuel ?body ?c3] =>
      exists c3;
      pose proof (accept_loop_not_break fuel j (negb (skip_writes options)) B fuel c3) as Hnb
    end.
    split; [exact Hl3|]. split; [exact Hfs|].
    destruct (loop fuel _ _) eqn:E; try reflexivity.
    exfalso. exact (Hnb _ eq_refl).
  - left. destruct HL as (-> & _). eexists _, _. split; [reflexivity|].
    split; [tauto|]. repeat split; auto; apply Hl.
Qed.

(** X11.  The worker serves its connections one at a time: whenever
    [receiveOne] returns, every connection it accepted has been closed but
    the last one, and none was accepted when [listen] or the allocation of
    the buffer failed.  It never leaves the accept loop by [break]. *)
Theorem connections_are_served_one_at_a_time
        (fuel : nat) (options : WdtOptions) (isJoinable_ : bool)
        (fileCreator_ : FileSys) (heap : option (list Z))
        (socket : ServerSocket) (bufferSize : Z) (threadStats : TransferStats) :
  let r := receiveOne fuel options isJoinable_ fileCreator_ heap socket bufferSize
                      threadStats in
  let s' := c_sock (state_of r) in
  let accepted := (acceptCalls s' - acceptCalls socket)%nat in
  let closed := (closedConnections s' - closedConnections socket)%nat in
  (acceptCalls socket <= acceptCalls s')%nat /\
  (closedConnections socket <= closedConnections s')%nat /\
  match r with
  | Return RetAcceptFailed _ | Return RetDone _ | ProcessExit _ | Crashed _ =>
      accepted = S closed
  | NoFuel _ => (closed <= accepted <= S closed)%nat
  | Return RetListenConnError _ | Return RetListenGaveUp _ | Return RetNoMemory _ =>
      accepted = 0%nat /\ closed = 0%nat
  | Return FellOffTheEnd _ | Next _ | Break _ => False
  end.
Proof.
  cbv zeta.
  destruct (receiveOne_phases fuel options isJoinable_ fileCreator_ heap socket
              bufferSize threadStats)
    as [(site & c1 & -> & Hsite & (Hle & Hs) & _) | (c3 & (Hle & Hs) & _ & ->)].
  - simpl. rewrite Hs. simpl.
    destruct Hsite as [-> | [-> | ->]]; repeat split; lia.
  - pose proof (accept_loop_books fuel isJoinable_ (negb (skip_writes options))
                  bufferSize fuel c3) as Hb.
    unfold books_kept in Hb. cbv zeta in Hb.
    assert (Ha : acceptCalls (c_sock c3) = acceptCalls socket) by (rewrite Hs; reflexivity).
    assert (Hk : closedConnections (c_sock c3) = closedConnections socket)
      by (rewrite Hs; reflexivity).
    rewrite Ha, Hk in Hb.
    destruct Hb as (_ & A & K & _ & Hb).
    split; [exact A|]. split; [exact K|].
    pose proof (accept_loop_return fuel isJoinable_ (negb (skip_writes options))
                  bufferSize fuel c3) as Hret.
    destruct (loop fuel _ c3) as [c4|c4|site c4|c4|c4|c4]; try contradiction;
      try tauto.
    destruct (Hret _ _ eq_refl) as [-> | ->]; tauto.
Qed.

(** X12.  The worker writes to its socket only to answer DONE: what it
    has sent only grows; a joinable worker has sent exactly one reply when
    it returns from line 366 and none otherwise; a worker that is not
    joinable has sent at most one reply for each connection it has closed,
    and never returns from line 366. *)
Theorem replies_are_answers_to_DONE
        (fuel : nat) (options : WdtOptions) (isJoinable_ : bool)
        (fileCreator_ : FileSys) (heap : option (list Z))
        (socket : ServerSocket) (bufferSize : Z) (threadStats : TransferStats) :
  let r := receiveOne fuel options isJoinable_ fileCreator_ heap socket bufferSize
                      threadStats in
  let s' := c_sock (state_of r) in
  let closed := (closedConnections s' - closedConnections socket)%nat in
  let replies := (length (sent s') - length (sent socket))%nat in
  (exists new, sent s' = sent socket ++ new) /\
  (isJoinable_ = true ->
   match r with
   | Return RetDone _ => replies = 1%nat
   | _ => replies = 0%nat
   end) /\
  (isJoinable_ = false ->
   (replies <= closed)%nat /\
   match r with Return RetDone _ => False | _ => True end).
Proof.
  cbv zeta.
  destruct (receiveOne_phases fuel options isJoinable_ fileCreator_ heap socket
              bufferSize threadStats)
    as [(site & c1 & -> & Hsite & (Hle & Hs) & _) | (c3 & (Hle & Hs) & _ & ->)].
  - simpl. rewrite Hs. simpl.
    split; [exists []; now rewrite app_nil_r|].
    destruct Hsite as [-> | [-> | ->]]; repeat split; lia.
  - pose proof (accept_loop_books fuel isJoinable_ (negb (skip_writes options))
                  bufferSize fuel c3) as Hb.
    unfold books_kept in Hb. cbv zeta in Hb.
    assert (Ha : sent (c_sock c3) = sent socket) by (rewrite Hs; reflexivity).
    assert (Hk : closedConnections (c_sock c3) = closedConnections socket)
      by (rewrite Hs; reflexivity).
    rewrite Ha, Hk in Hb.
    destruct Hb as (_ & A & K & Hnew & Hb).
    split; [exact Hnew|].
    destruct (loop fuel _ c3) as [c4|c4|site c4|c4|c4|c4]; try contradiction.
    + destruct site; split; intros Hj; try tauto;
        try (destruct Hb as (_ & Hb & Hb'); auto; fail).
      * destruct Hb as (_ & Hb & _). congruence.
    + split; intros Hj; [apply Hb; exact Hj | split; [apply Hb | exact I]].
    + split; intros Hj; [apply Hb; exact Hj | split; [apply Hb | exact I]].
    + split; intros Hj; [apply Hb; exact Hj | split; [apply Hb | exact I]].
Qed.

(** X13.  With [skip_writes] the worker makes no call on the file creator
    or the file system, whatever the sender delivers. *)
Theorem skip_writes_makes_no_file_call
        (fuel : nat) (options : WdtOptions) (isJoinable_ : bool)
        (fileCreator_ : FileSys) (heap : option (list Z))
        (socket : ServerSocket) (bufferSize : Z) (threadStats : TransferStats) :
  skip_writes options = true ->
  let c := state_of (receiveOne fuel options isJoinable_ fileCreator_ heap socket
                                bufferSize threadStats) in
  c_fs c = fileCreator_ /\ fsLog (c_fs c) = fsLog fileCreator_.
Proof.
  intros Hskip. cbv zeta.
  assert (Hgoal : c_fs (state_of (receiveOne fuel options isJoinable_ fileCreator_ heap
                                    socket bufferSize threadStats)) = fileCreator_).
  2:{ split; [exact Hgoal | now rewrite Hgoal]. }
  destruct (receiveOne_phases fuel options isJoinable_ fileCreator_ heap socket
              bufferSize threadStats)
    as [(site & c1 & -> & _ & _ & Hfs & _) | (c3 & _ & Hfs & ->)]; [exact Hfs|].
  rewrite Hskip. simpl negb. rewrite <- Hfs. clear Hfs.
  generalize fuel at 2. intros fuel'.
  revert c3. induction fuel as [|fuel IH]; intros c3; simpl; [reflexivity|].
  assert (Hbody : c_fs (state_of (accept_body fuel' isJoinable_ false bufferSize c3))
                  = c_fs c3).
  { unfold accept_body. destruct (acceptNextConnection (c_sock c3)) as [code sock1].
    destruct (negb (code =? OK)); [reflexivity|].
    unfold serve. cbv zeta.
    set (c1 := with_dest (-1) (with_off 0 (with_numRead 0 (with_sock sock1 c3)))).
    pose proof (loop_frame false _ (F := no_files_frame) (G := no_files_frame_done)
                  isJoinable_ bufferSize fuel' c1) as Hf.
    destruct Hf as (Hf & Hd); [simpl; lia|].
    destruct (loop fuel' _ c1) as [c2|c2|site c2|c2|c2|c2]; simpl in *; try exact Hf.
    unfold close_leftover. rewrite Hd. simpl. exact Hf. }
  destruct (accept_body fuel' isJoinable_ false bufferSize c3) eqn:E;
    simpl in Hbody; try exact Hbody.
  rewrite IH. exact Hbody.
Qed.

(** X14.  The calls of [listen]: at least one and at most
    [max(1, max_retries)]; the retry loop stops at the first answer that is
    OK or CONN_ERROR, and after an OK the worker calls [listen] once more
    (line 295) and goes by that answer.  A return for CONN_ERROR or for
    having given up has done nothing but listen. *)
Theorem listen_is_retried_and_then_tried_once_more
        (fuel : nat) (options : WdtOptions) (isJoinable_ : bool)
        (fileCreator_ : FileSys) (heap : option (list Z))
        (socket : ServerSocket) (bufferSize : Z) (threadStats : TransferStats) :
  OK <> CONN_ERROR ->
  let r := receiveOne fuel options isJoinable_ fileCreator_ heap socket bufferSize
                      threadStats in
  let s' := c_sock (state_of r) in
  let calls := listens socket s' in
  (1 <= calls)%nat /\
  Z.of_nat calls <= Z.max 1 (max_retries options) /\
  (forall i, (S i < calls)%nat -> answer socket i <> CONN_ERROR) /\
  (forall i, (S (S i) < calls)%nat -> answer socket i <> OK) /\
  (answer socket 0 = OK -> 2 <= max_retries options -> calls = 2%nat) /\
  match r with
  | Return RetListenConnError c =>
      answer socket (calls - 1) = CONN_ERROR /\ Z.of_nat calls < max_retries options /\
      only_listened socket s' /\ c_fs c = fileCreator_ /\
      counters (c_stats c) = counters threadStats
  | Return RetListenGaveUp c =>
      answer socket (calls - 1) <> OK /\
      only_listened socket s' /\ c_fs c = fileCreator_ /\
      counters (c_stats c) = counters threadStats
  | _ => answer socket (calls - 1) = OK
  end.
Proof.
  intros Hcodes. cbv zeta. unfold receiveOne. cbv zeta.
  set (c0 := mkConn socket fileCreator_ threadStats [] 0 0 (-1)).
  set (n := Z.to_nat (max_retries options - 1)).
  pose proof (listen_retries_calls n c0) as HL. cbv zeta in HL.
  destruct (listen_retries n c0) as [c1|c1|site c1|c1|c1|c1]; simpl in HL;
    destruct HL as (Hl & Hfs & Hbuf & Hcnt & Hn & Hall & HL); try contradiction.
  - (* the loop is left by break: one more call *)
    destruct HL as (_ & HL).
    set (k := listens socket (c_sock c1)) in *.
    assert (Hlast : answer socket k = listenScript (c_sock c1) (listenCalls (c_sock c1))).
    { unfold answer, k, listens. destruct Hl as (Hle & ->). simpl. f_equal. lia. }
    assert (Hmain :
      forall s2, only_listened socket s2 -> listenCalls s2 = S (listenCalls (c_sock c1)) ->
        (1 <= listens socket s2)%nat /\
        Z.of_nat (listens socket s2) <= Z.max 1 (max_retries options) /\
        (forall i, (S i < listens socket s2)%nat -> answer socket i <> CONN_ERROR) /\
        (forall i, (S (S i) < listens socket s2)%nat -> answer socket i <> OK) /\
        (answer socket 0 = OK -> 2 <= max_retries options -> listens socket s2 = 2%nat) /\
        answer socket (listens socket s2 - 1) = answer socket k).
    { intros s2 H2 Hc2.
      assert (Hk : listens socket s2 = S k).
      { unfold k, listens in *. destruct Hl as (Hle & _). lia. }
      rewrite Hk. split; [lia|]. split; [unfold n in Hn; lia|].
      split; [|split; [|split]].
      - intros i Hi. destruct (Nat.eq_dec (S i) k) as [E|E].
        + destruct HL as [(_ & Hf) | (_ & Ha)].
          * apply Hf. lia.
          * replace (k - 1)%nat with i in Ha by lia. congruence.
        + apply Hall. lia.
      - intros i Hi. apply Hall. lia.
      - intros H0 Hm.
        destruct HL as [(Hkn & Hf) | (Hk1 & Ha)].
        + assert (0 < k)%nat by (unfold n in Hkn; lia).
          destruct (Hf 0%nat) as (Hf0 & _); [lia | contradiction].
        + destruct (Nat.eq_dec k 1) as [->|E]; [reflexivity|].
          destruct (Hall 0%nat) as (Hf0 & _); [lia | contradiction].
      - f_equal. lia. }
    destruct (listen (c_sock c1)) as [code sock2] eqn:El.
    assert (Hcode : code = answer socket k).
    { rewrite Hlast. unfold listen in El. now injection El as <- _. }
    assert (H2 : only_listened socket sock2).
    { eapply only_listened_trans; [exact Hl|].
      pose proof (listen_only_listened (c_sock c1)) as H. now rewrite El in H. }
    assert (Hc2 : listenCalls sock2 = S (listenCalls (c_sock c1))).
    { unfold listen in El. now injection El as _ <-. }
    destruct (Hmain sock2 H2 Hc2) as (M1 & M2 & M3 & M4 & M5 & M6).
    destruct (negb (code =? OK)) eqn:Eok.
    { simpl. repeat split; auto; try apply H2.
      rewrite M6, <- Hcode. apply negb_true_iff in Eok. now apply Z.eqb_neq in Eok. }
    apply negb_false_iff in Eok. apply Z.eqb_eq in Eok.
    destruct heap as [block|].
    2:{ simpl. repeat split; auto. congruence. }
    match goal with |- context [loop fuel ?body ?c3] =>
      pose proof (accept_loop_books fuel isJoinable_ (negb (skip_writes options))
                    bufferSize fuel c3) as Hb;
      pose proof (accept_loop_not_break fuel isJoinable_ (negb (skip_writes options))
                    bufferSize fuel c3) as Hnb;
      pose proof (accept_loop_return fuel isJoinable_ (negb (skip_writes options))
                    bufferSize fuel c3) as Hret;
      change (c_sock c3) with sock2 in Hb;
      remember (loop fuel body c3) as res eqn:Eres; clear Eres
    end.
    destruct Hb as ((_ & _ & _ & Hlc & _) & _).
    assert (Hsame : listens socket (c_sock (state_of res)) = listens socket sock2).
    { unfold listens. now rewrite Hlc. }
    assert (Hstate : forall res',
               c_sock (state_of res') = c_sock (state_of res) ->
               (1 <= listens socket (c_sock (state_of res')))%nat /\
               Z.of_nat (listens socket (c_sock (state_of res')))
               <= Z.max 1 (max_retries options) /\
               (forall i, (S i < listens socket (c_sock (state_of res')))%nat ->
                          answer socket i <> CONN_ERROR) /\
               (forall i, (S (S i) < listens socket (c_sock (state_of res')))%nat ->
                          answer socket i <> OK) /\
               (answer socket 0 = OK -> 2 <= max_retries options ->
                listens socket (c_sock (state_of res')) = 2%nat) /\
               answer socket (listens socket (c_sock (state_of res')) - 1) = OK).
    { intros res' ->. rewrite Hsame. repeat split; auto. congruence. }
    destruct res as [c4|c4|site c4|c4|c4|c4];
      try (exfalso; exact (Hnb _ eq_refl));
      try (apply (Hstate _ eq_refl)).
    destruct (Hret _ _ eq_refl) as [-> | ->]; apply (Hstate _ eq_refl).
  - (* CONN_ERROR in the loop *)
    destruct HL as (-> & Hk1 & Ha & Hno). cbn [state_of].
    set (k := listens socket (c_sock c1)) in *.
    split; [lia|]. split; [unfold n in Hn; lia|].
    split; [intros i Hi; apply Hall; lia|].
    split; [intros i Hi; apply Hall; lia|].
    split.
    { intros H0 Hm. exfalso.
      destruct (Nat.eq_dec k 1) as [E|E].
      - rewrite E in Hno. simpl in Hno. contradiction.
      - destruct (Hall 0%nat) as (Hf0 & _); [lia | contradiction]. }
    repeat split; auto; try apply Hl. unfold n in Hn. lia.
Qed.

End Listening.

Lemma written_app l1 l2 : written (l1 ++ l2) = written l1 ++ written l2.
Proof. unfold written. now rewrite map_app, concat_app. Qed.

Lemma readAtMost_run s buf max atMost :
  stream_ok (incoming s) -> 0 <= atMost -> 0 <= max < two63 -> max <= len buf ->
  let '(r, s', buf') := readAtMost s buf max atMost in
  let n := s64 r in
  n <= Z.min atMost max /\
  stream_ok (incoming s') /\ length buf' = length buf /\
  exists got,
    flat (incoming s) = got ++ flat (incoming s') /\
    (0 < n -> len got = n /\ slice buf' 0 n = got /\
              skipn (Z.to_nat n) buf' = skipn (Z.to_nat n) buf) /\
    (n <= 0 -> got = [] /\ buf' = buf).
Proof.
  intros Hok Ha Hmax Hlen. pose proof two63_eq as H63. pose proof two64_eq as H64.
  unfold readAtMost.
  set (m := if atMost <? max then atMost else max).
  assert (Hm : m = Z.min atMost max) by (unfold m; destruct (atMost <? max) eqn:E; lia).
  assert (Hm0 : 0 <= m < two63) by lia.
  rewrite (s64_small m) by lia. rewrite (u64_small m) by lia.
  pose proof (read_negative s m Hok) as Hneg.
  pose proof (read_count s m) as Hcnt.
  pose proof (read_flat s m) as Hfl.
  pose proof (read_stream_ok s m Hok) as Hok'.
  destruct (read s m) as [[k got] s1]. simpl in *.
  destruct Hfl as (Hfl & Hgot & Hnone); [lia|].
  assert (Hk : s64 (u64 k) = k) by (apply s64_u64_small; lia).
  destruct (k <? 0) eqn:E1; [|destruct (k =? 0) eqn:E2]; cbv zeta; rewrite Hk.
  - split; [lia|]. split; [exact Hok'|]. split; [reflexivity|].
    exists got. split; [exact Hfl|]. split; [lia|]. intros _. split; [apply Hnone; lia | reflexivity].
  - split; [lia|]. split; [exact Hok'|]. split; [reflexivity|].
    exists got. split; [exact Hfl|]. split; [lia|]. intros _. split; [apply Hnone; lia | reflexivity].
  - assert (Hgk : len got = k) by (apply Hgot; lia).
    split; [lia|]. split; [exact Hok'|]. split; [apply store_length|].
    exists got. split; [exact Hfl|]. split; [|lia]. intros _.
    split; [exact Hgk|]. split.
    + pose proof (slice_store_app buf 0 0 got) as Hs.
      rewrite <- Hgk. simpl in Hs. rewrite Hs by lia. reflexivity.
    + apply store_after; lia.
Qed.

Section Tail.

Context {D : Decls}.

Lemma write_out_run data count c :
  let c' := write_out data count c in
  c_sock c' = c_sock c /\ c_buf c' = c_buf c /\ c_off c' = c_off c /\
  c_numRead c' = c_numRead c /\ fsScript (c_fs c') = fsScript (c_fs c) /\
  ((c_dest c < 0 /\ c' = c) \/
   (0 <= c_dest c /\ c_dest c' = c_dest c /\
    errorCode (c_stats c') = errorCode (c_stats c) /\
    fsLog (c_fs c') = fsLog (c_fs c) ++ [FileWrite (c_dest c) data (u64 count)]) \/
   (0 <= c_dest c /\ c_dest c' = -1 /\
    errorCode (c_stats c') = FILE_WRITE_ERROR /\
    fsLog (c_fs c')
    = fsLog (c_fs c) ++ [FileWrite (c_dest c) data (u64 count); FileClose (c_dest c)])).
Proof.
  cbv zeta. unfold write_out, syscall.
  destruct (0 <=? c_dest c) eqn:E.
  - apply Z.leb_le in E.
    destruct (negb (_ =? count)); simpl.
    + do 5 (split; [reflexivity|]). right. right.
      repeat split; auto. now rewrite <- app_assoc.
    + do 5 (split; [reflexivity|]). right. left. repeat split; auto.
  - apply Z.leb_gt in E. do 5 (split; [reflexivity|]). left. split; [exact E | reflexivity].
Qed.

(** the payload loop: what it takes off the stream it hands to [write], in
    order, as long as a descriptor is held *)
Lemma stream_tail_payload fuel : forall B sz w c w' c',
  0 <= B < two63 -> len (c_buf c) = B -> stream_ok (incoming (c_sock c)) ->
  stream_tail fuel B sz w c = Val (w', c') ->
  c_off c' = c_off c /\
  exists taken writes rest,
    flat (incoming (c_sock c)) = taken ++ flat (incoming (c_sock c')) /\
    len taken = w' - w /\
    (w < sz -> w' <= sz) /\
    (sz <= w -> c' = c /\ w' = w) /\
    len (c_buf c') = B /\ stream_ok (incoming (c_sock c')) /\
    fsScript (c_fs c') = fsScript (c_fs c) /\
    Forall (is_write (c_dest c)) writes /\
    taken = written writes ++ rest /\
    ((c_dest c' = c_dest c /\
      fsLog (c_fs c') = fsLog (c_fs c) ++ writes /\
      errorCode (c_stats c') = errorCode (c_stats c) /\
      (0 <= c_dest c -> rest = []) /\ (c_dest c < 0 -> writes = [])) \/
     (0 <= c_dest c /\ c_dest c' = -1 /\
      fsLog (c_fs c') = fsLog (c_fs c) ++ writes ++ [FileClose (c_dest c)] /\
      errorCode (c_stats c') = FILE_WRITE_ERROR)).
Proof.
  pose proof two63_eq as H63. pose proof two64_eq as H64.
  induction fuel as [|fuel IH]; intros B sz w c w' c' HB Hlen Hok.
  - simpl. destruct (w <? sz) eqn:E; [discriminate|]. intros H. injection H as <- <-.
    apply Z.ltb_ge in E. split; [reflexivity|].
    exists [], [], []. rewrite app_nil_r. repeat split; auto; try lia.
    + unfold len; simpl; lia.
    + left. rewrite app_nil_r. repeat split; auto.
  - rewrite stream_tail_unfold. destruct (w <? sz) eqn:E.
    2:{ intros H. injection H as <- <-. apply Z.ltb_ge in E. split; [reflexivity|].
        exists [], [], []. rewrite app_nil_r. repeat split; auto; try lia.
        + unfold len; simpl; lia.
        + left. rewrite app_nil_r. repeat split; auto. }
    apply Z.ltb_lt in E.
    pose proof (u64_range (sz - w)) as Hu.
    assert (Hule : u64 (sz - w) <= sz - w).
    { unfold u64. apply Z.mod_le; lia. }
    pose proof (readAtMost_run (c_sock c) (c_buf c) B (u64 (sz - w)) Hok
                  ltac:(lia) HB ltac:(lia)) as Hm.
    destruct (readAtMost (c_sock c) (c_buf c) B (u64 (sz - w))) as [[r s1] b1].
    cbv zeta in Hm. destruct Hm as (Hn & Hok1 & Hl1 & got & Hfl & Hpos & Hnone).
    cbv zeta.
    destruct (s64 r <=? 0) eqn:E0.
    + apply Z.leb_le in E0. intros H. injection H as <- <-.
      destruct (Hnone E0) as (-> & ->). simpl in Hfl. split; [reflexivity|].
      exists [], [], []. simpl. repeat split; auto; try lia.
      * unfold len; simpl; lia.
      * left. rewrite app_nil_r. repeat split; auto.
    + apply Z.leb_gt in E0. destruct (Hpos E0) as (Hgl & Hsl & _).
      set (c2 := upd_stats (Stats.addDataBytes (s64 r)) (with_buf b1 (with_sock s1 c))).
      pose proof (write_out_run (slice b1 0 (s64 r)) (s64 r) c2) as Hw.
      cbv zeta in Hw.
      remember (write_out (slice b1 0 (s64 r)) (s64 r) c2) as c3 eqn:Ec3. clear Ec3.
      destruct Hw as (W1 & W2 & W3 & W4 & W5 & Hw).
      intros Hrun.
      apply IH in Hrun; auto.
      2:{ rewrite W2. unfold c2. simpl. unfold len in *. lia. }
      2:{ rewrite W1. exact Hok1. }
      destruct Hrun as (Toff & taken & writes & rest & T1 & T2 & T3 & T4 & T5 & T6 & T7 & T8 & T9 & T10).
      rewrite W3 in Toff. change (c_off c2) with (c_off c) in Toff.
      split; [exact Toff|].
      rewrite W1 in T1. rewrite W5 in T7.
      change (c_sock c2) with s1 in *. change (c_fs c2) with (c_fs c) in *.
      change (c_dest c2) with (c_dest c) in *.
      change (errorCode (c_stats c2)) with (errorCode (c_stats c)) in *.
      rewrite Hsl in *.
      destruct Hw as [(Hd & ->) | [(Hd & Hd' & He & Hlog) | (Hd & Hd' & He & Hlog)]].
      * (* no descriptor *)
        change (c_dest c2) with (c_dest c) in *. change (c_fs c2) with (c_fs c) in *.
        change (errorCode (c_stats c2)) with (errorCode (c_stats c)) in *.
        destruct T10 as [(D1 & D2 & D3 & D4 & D5) | (D1 & _)]; [|lia].
        rewrite (D5 Hd) in *. simpl in T9.
        exists (got ++ taken), [], (got ++ taken).
        rewrite Hfl, T1, app_assoc, len_app.
        split; [reflexivity|]. split; [lia|]. split; [lia|]. split; [lia|].
        split; [exact T5|]. split; [exact T6|]. split; [exact T7|].
        split; [constructor|]. split; [reflexivity|].
        left. rewrite app_nil_r in *. repeat split; auto. lia.
      * (* the write is complete *)
        rewrite Hd' in *.
        exists (got ++ taken), (FileWrite (c_dest c) got (u64 (s64 r)) :: writes), rest.
        rewrite Hfl, T1, app_assoc, len_app.
        split; [reflexivity|]. split; [lia|]. split; [lia|]. split; [lia|].
        split; [exact T5|]. split; [exact T6|]. split; [exact T7|].
        split; [constructor; [now exists got, (u64 (s64 r)) | exact T8]|].
        split.
        { change (written (FileWrite (c_dest c) got (u64 (s64 r)) :: writes))
            with (got ++ written writes).
          rewrite T9. now rewrite app_assoc. }
        destruct T10 as [(D1 & D2 & D3 & D4 & D5) | (D1 & D2 & D3 & D4)].
        -- left. rewrite D2, Hlog, <- app_assoc.
           split; [exact D1|]. split; [reflexivity|]. split; [congruence|].
           split; [exact D4 | lia].
        -- right. rewrite D3, Hlog, <- !app_assoc.
           split; [exact Hd|]. split; [exact D2|]. split; [reflexivity | exact D4].
      * (* the write is cut short *)
        rewrite Hd' in *.
        destruct T10 as [(D1 & D2 & D3 & D4 & D5) | (D1 & _)]; [|lia].
        rewrite (D5 ltac:(lia)) in *. simpl in T9. rewrite app_nil_r in D2.
        exists (got ++ taken), [FileWrite (c_dest c) got (u64 (s64 r))], taken.
        rewrite Hfl, T1, app_assoc, len_app.
        split; [reflexivity|]. split; [lia|]. split; [lia|]. split; [lia|].
        split; [exact T5|]. split; [exact T6|]. split; [exact T7|].
        split; [constructor; [now exists got, (u64 (s64 r)) | constructor]|].
        split; [unfold written; simpl; now rewrite app_nil_r|].
        right. rewrite D2, Hlog.
        split; [exact Hd|]. split; [exact D1|]. split; [reflexivity | congruence].
Qed.

End Tail.

Section Block.

Context {D : Decls}.

Lemma slice_split buf p a b :
  0 <= a -> 0 <= b -> 0 <= p ->
  slice buf p (a + b) = slice buf p a ++ slice buf (p + a) b.
Proof.
  intros Ha Hb Hp. unfold slice.
  replace (Z.to_nat (a + b)) with (Z.to_nat a + Z.to_nat b)%nat by lia.
  replace (Z.to_nat (p + a)) with (Z.to_nat a + Z.to_nat p)%nat by lia.
  rewrite <- skipn_skipn.
  generalize (skipn (Z.to_nat p) buf). intros l.
  rewrite <- (firstn_skipn (Z.to_nat a) l) at 1.
  rewrite firstn_app, firstn_firstn.
  rewrite Nat.min_r by lia. rewrite length_firstn.
  destruct (Nat.le_gt_cases (Z.to_nat a) (length l)) as [H|H].
  - rewrite Nat.min_l by lia.
    replace (Z.to_nat a + Z.to_nat b - Z.to_nat a)%nat with (Z.to_nat b) by lia.
    reflexivity.
  - rewrite (skipn_all2 (n := Z.to_nat a)) by lia. now rewrite !firstn_nil.
Qed.

Lemma slice_length buf p n :
  0 <= p -> 0 <= n -> p + n <= len buf -> len (slice buf p n) = n.
Proof.
  unfold slice, len. intros Hp Hn Hl. rewrite length_firstn, length_skipn. lia.
Qed.

Lemma slice_nil buf p : slice buf p 0 = [].
Proof. reflexivity. Qed.

Lemma slice_moved buf p n :
  0 <= p -> 0 <= n -> p + n <= len buf ->
  slice (store buf 0 (slice buf p n)) 0 n = slice buf p n.
Proof.
  intros Hp Hn Hl.
  pose proof (slice_length buf p n Hp Hn Hl) as Hs.
  pose proof (slice_store_app buf 0 0 (slice buf p n)) as H.
  rewrite Hs in H. simpl in H. rewrite H by lia. reflexivity.
Qed.

Lemma open_dest_run d c :
  let c' := open_dest true d c in
  let k := length (fsLog (c_fs c)) in
  let fd := fsScript (c_fs c) k in
  c_sock c' = c_sock c /\ c_buf c' = c_buf c /\ c_off c' = c_off c /\
  c_numRead c' = c_numRead c /\ fsScript (c_fs c') = fsScript (c_fs c) /\
  exists opener,
    fsLog (c_fs c') = fsLog (c_fs c) ++ CreateFile (d_id d) :: opener /\
    is_opener fd d opener /\
    ((0 <= fd /\ ~ seek_fails d (c_fs c) /\
      c_dest c' = fd /\ errorCode (c_stats c') = errorCode (c_stats c)) \/
     (c_dest c' < 0 /\
      (0 <= fd -> errorCode (c_stats c') = FILE_WRITE_ERROR) /\
      (errorCode (c_stats c') = errorCode (c_stats c) \/
       errorCode (c_stats c') = FILE_WRITE_ERROR) /\
      (fd < 0 \/ seek_fails d (c_fs c)))).
Proof.
  cbv zeta. unfold open_dest, syscall, is_opener, seek_fails.
  set (k := length (fsLog (c_fs c))). set (fd := fsScript (c_fs c) k).
  destruct (fd =? -1) eqn:E1.
  { apply Z.eqb_eq in E1. simpl. do 5 (split; [reflexivity|]).
    exists []. split; [reflexivity|]. split; [tauto|]. right.
    split; [lia|]. split; [lia|]. split; [tauto | lia]. }
  apply Z.eqb_neq in E1.
  destruct (0 <? d_offset d) eqn:E2.
  { simpl. rewrite length_app. simpl.
    replace (length (fsLog (c_fs c)) + 1)%nat with (S k) by (unfold k; lia).
    destruct (fsScript (c_fs c) (S k) <? 0) eqn:E3; simpl;
      do 5 (split; [reflexivity|]);
      exists [Lseek fd (d_offset d)]; (split; [now rewrite <- app_assoc|]);
      (split; [tauto|]).
    - apply Z.ltb_lt in E3. apply Z.ltb_lt in E2.
      right. split; [lia|]. split; [auto|]. split; [tauto|].
      right. split; [exact E2 | exact E3].
    - apply Z.ltb_ge in E3.
      destruct (Z_lt_ge_dec fd 0) as [Hn|Hp].
      + right. split; [exact Hn|]. split; [lia|]. split; [tauto | tauto].
      + left. split; [lia|]. split; [fold k; lia|]. split; reflexivity. }
  apply Z.ltb_ge in E2.
  destruct (d_offset d =? 0) eqn:E3.
  { simpl. do 5 (split; [reflexivity|]).
    exists [TruncateFile fd (d_fileSize d)]. split; [now rewrite <- app_assoc|].
    split; [tauto|].
    destruct (Z_lt_ge_dec fd 0) as [Hn|Hp].
    - right. split; [exact Hn|]. split; [lia|]. split; [tauto | tauto].
    - left. split; [lia|]. split; [lia|]. split; reflexivity. }
  simpl. do 5 (split; [reflexivity|]).
  exists []. split; [reflexivity|]. split; [tauto|].
  destruct (Z_lt_ge_dec fd 0) as [Hn|Hp].
  - right. split; [exact Hn|]. split; [lia|]. split; [tauto | tauto].
  - left. split; [lia|]. split; [lia|]. split; reflexivity.
Qed.

Lemma close_dest_run c :
  let c' := close_dest c in
  c_sock c' = c_sock c /\ c_buf c' = c_buf c /\ c_off c' = c_off c /\
  c_numRead c' = c_numRead c /\ fsScript (c_fs c') = fsScript (c_fs c) /\
  c_stats c' = c_stats c /\ c_dest c' < 0 /\
  ((c_dest c < 0 /\ c' = c) \/
   (0 <= c_dest c /\ fsLog (c_fs c') = fsLog (c_fs c) ++ [FileClose (c_dest c)])).
Proof.
  cbv zeta. unfold close_dest, syscall.
  destruct (0 <=? c_dest c) eqn:E; simpl.
  - apply Z.leb_le in E. do 6 (split; [reflexivity|]). split; [lia|]. right. auto.
  - apply Z.leb_gt in E. do 6 (split; [reflexivity|]). split; [lia|]. left. auto.
Qed.

Lemma written_opener fd d opener : is_opener fd d opener -> written opener = [].
Proof. intros [-> | [-> | ->]]; reflexivity. Qed.

Lemma written_writes_only id opener rest :
  written opener = [] ->
  written (CreateFile id :: opener ++ rest) = written rest.
Proof.
  intros H. change (CreateFile id :: opener ++ rest) with ([CreateFile id] ++ opener ++ rest).
  rewrite !written_app, H. reflexivity.
Qed.

(** A FILE command that completes its block: what it takes off the stream,
    what it leaves in the buffer, and the calls it makes on the file. *)
Lemma file_cmd_next dw B numRead old c c' :
  0 <= B < two63 -> len (c_buf c) = B -> stream_ok (incoming (c_sock c)) ->
  0 <= old -> 0 <= numRead -> old + numRead <= B ->
  let d := decode (c_buf c) (c_off c) (numRead + old) in
  old <= d_off d ->
  (d_success d = true -> d_off d <= numRead + old /\ 0 <= d_sourceSize d) ->
  c_dest c < 0 ->
  file_cmd dw B numRead old c = Next c' ->
  let rem := numRead + old - d_off d in
  let sz := d_sourceSize d in
  let toWrite := Z.min sz rem in
  let left := rem - toWrite in
  let off' := d_off d + toWrite in
  let fd := fsScript (c_fs c) (length (fsLog (c_fs c))) in
  d_success d = true /\
  exists taken new rest,
    flat (incoming (c_sock c)) = taken ++ flat (incoming (c_sock c')) /\
    len taken = sz - toWrite /\
    stream_ok (incoming (c_sock c')) /\ len (c_buf c') = B /\
    c_numRead c' = left /\
    slice (c_buf c') (c_off c') left = slice (c_buf c) off' left /\
    ((left = 0 /\ c_off c' = 0) \/
     (0 < left /\ left < kMaxHeader /\ B / 2 < off' /\ c_off c' = 0) \/
     (0 < left /\ ~ (left < kMaxHeader /\ B / 2 < off') /\ c_off c' = off')) /\
    c_dest c' < 0 /\
    fsScript (c_fs c') = fsScript (c_fs c) /\
    fsLog (c_fs c') = fsLog (c_fs c) ++ new /\
    slice (c_buf c) (d_off d) toWrite ++ taken = written new ++ rest /\
    (dw = false -> new = []) /\
    (dw = true ->
     (0 <= fd -> errorCode (c_stats c') <> FILE_WRITE_ERROR -> rest = []) /\
     exists opener,
       is_opener fd d opener /\
       ((0 <= fd /\ ~ seek_fails d (c_fs c) /\
         exists writes,
           new = CreateFile (d_id d) :: opener ++ writes ++ [FileClose fd] /\
           writes <> [] /\ Forall (is_write fd) writes) \/
        ((fd < 0 \/ seek_fails d (c_fs c)) /\
         new = CreateFile (d_id d) :: opener))).
Proof.
  pose proof two63_eq as H63. pose proof two64_eq as H64.
  intros HB Hlen Hok Hold Hnum Hsum d Hadv Hfr Hdest.
  unfold file_cmd. fold d. cbv zeta.
  destruct (d_success d) eqn:Ed; simpl negb; cbv iota; [|discriminate].
  destruct (Hfr eq_refl) as (Hin & Hsz). clear Hfr.
  set (sz := d_sourceSize d) in *.
  rewrite (s64_small (d_off d - old)) by lia.
  rewrite (s64_small (numRead + old - d_off d)) by lia.
  set (rem := numRead + old - d_off d).
  set (toWrite := Z.min sz rem).
  replace (if rem >=? sz then sz else rem) with toWrite
    by (unfold toWrite; destruct (rem >=? sz) eqn:Eg; lia).
  assert (Htw : 0 <= toWrite <= rem) by (unfold toWrite, rem; lia).
  assert (Htw' : toWrite <= sz) by (unfold toWrite; lia).
  rewrite (u64_small (d_off d + toWrite)) by lia.
  set (off' := d_off d + toWrite).
  set (c1 := upd_stats (Stats.addHeaderBytes (d_off d - old)) (with_off (d_off d) c)).
  set (fd := fsScript (c_fs c) (length (fsLog (c_fs c)))).
  (* the destination *)
  assert (Hopen :
    let c2 := open_dest dw d c1 in
    c_sock c2 = c_sock c /\ c_buf c2 = c_buf c /\
    fsScript (c_fs c2) = fsScript (c_fs c) /\
    exists new0,
      fsLog (c_fs c2) = fsLog (c_fs c) ++ new0 /\ written new0 = [] /\
      (dw = false -> new0 = [] /\ c_dest c2 < 0 /\
                     errorCode (c_stats c2) = errorCode (c_stats c)) /\
      (dw = true ->
       exists opener,
         new0 = CreateFile (d_id d) :: opener /\ is_opener fd d opener /\
         ((0 <= fd /\ ~ seek_fails d (c_fs c) /\
           c_dest c2 = fd /\ errorCode (c_stats c2) = errorCode (c_stats c)) \/
          (c_dest c2 < 0 /\
           (0 <= fd -> errorCode (c_stats c2) = FILE_WRITE_ERROR) /\
           (fd < 0 \/ seek_fails d (c_fs c)))))).
  { cbv zeta. destruct dw.
    - pose proof (open_dest_run d c1) as Ho. cbv zeta in Ho.
      change (c_fs c1) with (c_fs c) in Ho. change (c_sock c1) with (c_sock c) in Ho.
      change (c_buf c1) with (c_buf c) in Ho.
      change (errorCode (c_stats c1)) with (errorCode (c_stats c)) in Ho.
      fold fd in Ho.
      destruct Ho as (O1 & O2 & _ & _ & O5 & opener & O6 & O7 & O8).
      split; [exact O1|]. split; [exact O2|]. split; [exact O5|].
      exists (CreateFile (d_id d) :: opener). split; [exact O6|].
      split.
      { change (CreateFile (d_id d) :: opener) with ([CreateFile (d_id d)] ++ opener).
        rewrite written_app, (written_opener _ _ _ O7). reflexivity. }
      split; [discriminate|]. intros _. exists opener. split; [reflexivity|].
      split; [exact O7|].
      destruct O8 as [O8 | (P1 & P2 & _ & P4)]; [left; exact O8 | right; auto].
    - simpl. repeat split; auto. exists []. rewrite app_nil_r.
      repeat split; auto; discriminate. }
  cbv zeta in Hopen.
  remember (open_dest dw d c1) as c2 eqn:Ec2. clear Ec2.
  destruct Hopen as (S2 & B2 & F2 & new0 & L2 & Wr0 & Hoff & Hon).
  (* the bytes of the block that the buffer holds *)
  set (c3 := upd_stats (Stats.addDataBytes toWrite) c2).
  set (data0 := slice (c_buf c3) (d_off d) toWrite).
  assert (Hdata0 : data0 = slice (c_buf c) (d_off d) toWrite).
  { unfold data0, c3. simpl. now rewrite B2. }
  pose proof (write_out_run data0 toWrite c3) as Hw. cbv zeta in Hw.
  remember (write_out data0 toWrite c3) as c4 eqn:Ec4. clear Ec4.
  change (c_sock c3) with (c_sock c2) in Hw. change (c_buf c3) with (c_buf c2) in Hw.
  change (c_fs c3) with (c_fs c2) in Hw. change (c_dest c3) with (c_dest c2) in Hw.
  change (errorCode (c_stats c3)) with (errorCode (c_stats c2)) in Hw.
  destruct Hw as (S4 & B4 & _ & _ & F4 & Hw).
  set (c5 := with_off off' c4).
  (* the rest of the block, from the stream *)
  destruct (stream_tail _ B sz toWrite c5) as [[w' c6]| |] eqn:Et; try discriminate.
  apply stream_tail_payload in Et; auto.
  2:{ change (c_buf c5) with (c_buf c4). now rewrite B4, B2. }
  2:{ change (c_sock c5) with (c_sock c4). now rewrite S4, S2. }
  change (c_sock c5) with (c_sock c4) in Et. change (c_fs c5) with (c_fs c4) in Et.
  change (c_dest c5) with (c_dest c4) in Et.
  change (errorCode (c_stats c5)) with (errorCode (c_stats c4)) in Et.
  destruct Et as (Toff & taken & writes & rest & T1 & T2 & T3 & T4 & T5 & T6 & T7 & T8 & T9 & T10).
  destruct (w' =? sz) eqn:Ew; simpl negb; cbv iota; [|discriminate].
  apply Z.eqb_eq in Ew. subst w'.
  pose proof (close_dest_run c6) as Hc. cbv zeta in Hc.
  remember (close_dest c6) as c7 eqn:Ec7. clear Ec7.
  destruct Hc as (S7 & B7 & O7 & _ & F7 & St7 & D7 & Hc).
  set (c8 := upd_stats Stats.incrNumBlocks
               (upd_stats (Stats.addEffectiveBytes (d_off d - old) sz) c7)).
  (* what holds before the leftover is dealt with *)
  assert (Hbuf6 : sz <= rem -> c_buf c6 = c_buf c).
  { intros Hle. destruct (T4 ltac:(unfold toWrite; lia)) as (-> & _).
    change (c_buf c5) with (c_buf c4). now rewrite B4, B2. }
  assert (Hleft : rem - toWrite = 0 \/ (0 < rem - toWrite /\ sz <= rem)).
  { unfold toWrite. lia. }
  assert (Hfacts :
    flat (incoming (c_sock c)) = taken ++ flat (incoming (c_sock c8)) /\
    len taken = sz - toWrite /\
    stream_ok (incoming (c_sock c8)) /\ len (c_buf c8) = B /\
    (sz <= rem -> c_buf c8 = c_buf c) /\
    c_off c8 = off' /\ c_dest c8 < 0 /\
    fsScript (c_fs c8) = fsScript (c_fs c)).
  { unfold c8. simpl. rewrite S7, B7, O7, F7.
    rewrite <- S2, <- S4. split; [exact T1|]. split; [exact T2|].
    split; [exact T6|]. split; [exact T5|]. split; [exact Hbuf6|].
    split; [exact Toff|]. split; [exact D7|]. congruence. }
  assert (Hlog :
    exists new rest',
      fsLog (c_fs c8) = fsLog (c_fs c) ++ new /\
      slice (c_buf c) (d_off d) toWrite ++ taken = written new ++ rest' /\
      (dw = false -> new = []) /\
      (dw = true ->
       (0 <= fd -> errorCode (c_stats c8) <> FILE_WRITE_ERROR -> rest' = []) /\
       exists opener,
         is_opener fd d opener /\
         ((0 <= fd /\ ~ seek_fails d (c_fs c) /\
           exists writes,
             new = CreateFile (d_id d) :: opener ++ writes ++ [FileClose fd] /\
             writes <> [] /\ Forall (is_write fd) writes) \/
          ((fd < 0 \/ seek_fails d (c_fs c)) /\
           new = CreateFile (d_id d) :: opener)))).
  { rewrite <- Hdata0.
    change (fsLog (c_fs c8)) with (fsLog (c_fs c7)).
    change (errorCode (c_stats c8)) with (errorCode (c_stats c7)). rewrite St7.
    destruct dw.
    - (* the writes are on *)
      destruct (Hon eq_refl) as (opener & -> & Hop & Hheld). clear Hon Hoff.
      pose proof (written_opener _ _ _ Hop) as Hwo.
      destruct Hheld as [(Hfd & Hseek & Hd2 & He2) | (Hd2 & He2 & Hwhy)].
      + (* a descriptor is held *)
        rewrite Hd2 in *.
        destruct Hw as [(Hd & _) | [(_ & Hd4 & He4 & L4) | (_ & Hd4 & He4 & L4)]]; [lia| |].
        * (* the first write is complete *)
          rewrite Hd4 in *.
          destruct T10 as [(D6 & L6 & E6 & R6 & _) | (_ & D6 & L6 & E6)].
          -- rewrite D6 in Hc. destruct Hc as [(Hd & _) | (_ & L7)]; [lia|].
             rewrite (R6 Hfd) in T9. rewrite app_nil_r in T9.
             exists (CreateFile (d_id d) :: opener
                       ++ (FileWrite fd data0 (u64 toWrite) :: writes) ++ [FileClose fd]), [].
             split.
             { rewrite L7, L6, L4, L2. rewrite <- !app_assoc. reflexivity. }
             split.
             { rewrite app_nil_r, (written_writes_only _ _ _ Hwo), written_app.
               change (written (FileWrite fd data0 (u64 toWrite) :: writes))
                 with (data0 ++ written writes).
               change (written [FileClose fd]) with (@nil Z).
               rewrite app_nil_r, T9. reflexivity. }
             split; [discriminate|]. intros _. split; [reflexivity|].
             exists opener. split; [exact Hop|]. left. split; [exact Hfd|]. split; [exact Hseek|].
             exists (FileWrite fd data0 (u64 toWrite) :: writes).
             split; [reflexivity|]. split; [discriminate|].
             constructor; [now exists data0, (u64 toWrite) | exact T8].
          -- rewrite D6 in Hc. destruct Hc as [(_ & ->) | (Hd & _)]; [|lia].
             exists (CreateFile (d_id d) :: opener
                       ++ (FileWrite fd data0 (u64 toWrite) :: writes) ++ [FileClose fd]), rest.
             split.
             { rewrite L6, L4, L2. rewrite <- !app_assoc. reflexivity. }
             split.
             { rewrite (written_writes_only _ _ _ Hwo), written_app.
               change (written (FileWrite fd data0 (u64 toWrite) :: writes))
                 with (data0 ++ written writes).
               change (written [FileClose fd]) with (@nil Z).
               rewrite app_nil_r, T9, app_assoc. reflexivity. }
             split; [discriminate|]. intros _. split; [intros _ H; contradiction|].
             exists opener. split; [exact Hop|]. left. split; [exact Hfd|]. split; [exact Hseek|].
             exists (FileWrite fd data0 (u64 toWrite) :: writes).
             split; [reflexivity|]. split; [discriminate|].
             constructor; [now exists data0, (u64 toWrite) | exact T8].
        * (* the first write is cut short *)
          rewrite Hd4 in *.
          destruct T10 as [(D6 & L6 & E6 & _ & W6) | (Hd & _)]; [|lia].
          rewrite (W6 ltac:(lia)) in *. rewrite app_nil_r in L6. simpl in T9.
          rewrite D6 in Hc. destruct Hc as [(_ & ->) | (Hd & _)]; [|lia].
          exists (CreateFile (d_id d) :: opener
                    ++ [FileWrite fd data0 (u64 toWrite)] ++ [FileClose fd]), taken.
          split.
          { rewrite L6, L4, L2. rewrite <- !app_assoc. reflexivity. }
          split.
          { rewrite (written_writes_only _ _ _ Hwo).
            change (written ([FileWrite fd data0 (u64 toWrite)] ++ [FileClose fd]))
              with (data0 ++ []). now rewrite app_nil_r. }
          split; [discriminate|]. intros _.
          split; [intros _ H; exfalso; apply H; congruence|].
          exists opener. split; [exact Hop|]. left. split; [exact Hfd|]. split; [exact Hseek|].
          exists [FileWrite fd data0 (u64 toWrite)].
          split; [reflexivity|]. split; [discriminate|].
          constructor; [now exists data0, (u64 toWrite) | constructor].
      + (* no descriptor is held *)
        destruct Hw as [(_ & ->) | [(Hd & _) | (Hd & _)]]; [|lia|lia].
        change (c_dest c3) with (c_dest c2) in *. change (c_fs c3) with (c_fs c2) in *.
        change (errorCode (c_stats c3)) with (errorCode (c_stats c2)) in *.
        destruct T10 as [(D6 & L6 & E6 & _ & W6) | (Hd & _)]; [|lia].
        rewrite (W6 Hd2) in *. rewrite app_nil_r in L6.
        rewrite D6 in Hc. destruct Hc as [(_ & ->) | (Hd & _)]; [|lia].
        exists (CreateFile (d_id d) :: opener), (data0 ++ taken).
        split; [now rewrite L6, L2|].
        split.
        { change (CreateFile (d_id d) :: opener) with ([CreateFile (d_id d)] ++ opener).
          rewrite written_app, Hwo. reflexivity. }
        split; [discriminate|]. intros _.
        split; [intros Hp H; exfalso; apply H; rewrite E6; auto|].
        exists opener. split; [exact Hop|]. right. split; [exact Hwhy | reflexivity].
    - (* the writes are off *)
      destruct (Hoff eq_refl) as (-> & Hd2 & He2). clear Hon Hoff.
      rewrite app_nil_r in L2.
      destruct Hw as [(_ & ->) | [(Hd & _) | (Hd & _)]]; [|lia|lia].
      change (c_dest c3) with (c_dest c2) in *. change (c_fs c3) with (c_fs c2) in *.
      destruct T10 as [(D6 & L6 & E6 & _ & W6) | (Hd & _)]; [|lia].
      rewrite (W6 Hd2) in *. rewrite app_nil_r in L6.
      rewrite D6 in Hc. destruct Hc as [(_ & ->) | (Hd & _)]; [|lia].
      exists [], (data0 ++ taken).
      split; [now rewrite L6, L2, app_nil_r|]. split; [reflexivity|].
      split; [reflexivity | discriminate]. }
  destruct Hfacts as (G1 & G2 & G3 & G4 & G5 & G6 & G7 & G8).
  destruct Hlog as (new & rest' & K1 & K2 & K3 & K4).
  clearbody c8 c5 c3 c1. clear Hw T1 T2 T3 T4 T5 T6 T7 T8 T9 T10 Hc Hbuf6.
  fold off'.
  set (left := rem - toWrite) in *.
  destruct (left <? 0) eqn:E0; [apply Z.ltb_lt in E0; lia|].
  assert (Hhalf : u64 (B / 2) = B / 2).
  { apply u64_small. split; [apply Z.div_pos; lia|].
    assert (B / 2 <= B) by (apply Z.div_le_upper_bound; lia). lia. }
  rewrite Hhalf.
  assert (Hend : off' + left <= len (c_buf c)) by (unfold off', left, rem; lia).
  assert (Hoff0 : 0 <= off') by (unfold off'; lia).
  destruct (0 <? left) eqn:E1.
  - apply Z.ltb_lt in E1.
    assert (Hle : sz <= rem) by (destruct Hleft as [?|(_ & ?)]; [lia | assumption]).
    specialize (G5 Hle).
    destruct ((left <? kMaxHeader) && (B / 2 <? off')) eqn:E2.
    + apply andb_true_iff in E2. destruct E2 as (E2 & E3).
      apply Z.ltb_lt in E2. apply Z.ltb_lt in E3.
      intros H. injection H as <-. simpl.
      split; [reflexivity|]. exists taken, new, rest'.
      split; [exact G1|]. split; [exact G2|]. split; [exact G3|].
      split; [unfold len in *; rewrite store_length; exact G4|].
      split; [reflexivity|].
      split; [rewrite G5; apply slice_moved; lia|].
      split; [right; left; auto|].
      split; [exact G7|]. split; [exact G8|]. split; [exact K1|].
      split; [exact K2|]. split; [exact K3 | exact K4].
    + intros H. injection H as <-. simpl.
      split; [reflexivity|]. exists taken, new, rest'.
      split; [exact G1|]. split; [exact G2|]. split; [exact G3|].
      split; [exact G4|]. split; [reflexivity|].
      split; [rewrite G5, G6; reflexivity|].
      split.
      { right; right. split; [exact E1|]. split; [|exact G6].
        intros (A1 & A2). apply Z.ltb_lt in A1. apply Z.ltb_lt in A2.
        rewrite A1, A2 in E2. discriminate. }
      split; [exact G7|]. split; [exact G8|]. split; [exact K1|].
      split; [exact K2|]. split; [exact K3 | exact K4].
  - apply Z.ltb_ge in E1. apply Z.ltb_ge in E0.
    assert (Hz : left = 0) by lia.
    intros H. injection H as <-. simpl.
    split; [reflexivity|]. exists taken, new, rest'.
    split; [exact G1|]. split; [exact G2|]. split; [exact G3|].
    split; [exact G4|]. split; [lia|].
    split; [replace left with 0 by lia; reflexivity|].
    split; [left; auto|].
    split; [exact G7|]. split; [exact G8|]. split; [exact K1|].
    split; [exact K2|]. split; [exact K3 | exact K4].
Qed.

End Block.

Section Turn.

Context {D : Decls}.
Variables (isJoinable_ doActualWrites : bool) (bufferSize : Z).
Hypothesis advances : decoder_advances.
Hypothesis in_frame : decoder_in_frame.
Hypothesis size_fits : 0 <= bufferSize < two63.

(** a turn that ends with the next one to come has taken a whole block *)
Lemma turn_next c c' :
  turn_ready bufferSize c ->
  size_trusted bufferSize c ->
  iteration isJoinable_ doActualWrites bufferSize c = Next c' ->
  let fd := fsScript (c_fs c) (length (fsLog (c_fs c))) in
  exists d header payload new rest,
    declared bufferSize c = Some d /\ d_success d = true /\
    pending c = header ++ payload ++ pending c' /\
    len header = d_off d - c_off c /\ 2 <= len header /\
    len payload = d_sourceSize d /\ 0 <= d_sourceSize d /\
    turn_ready bufferSize c' /\
    (c_off c' = 0 \/ kMaxHeader <= c_numRead c' \/ c_off c' <= bufferSize / 2) /\
    fsScript (c_fs c') = fsScript (c_fs c) /\
    fsLog (c_fs c') = fsLog (c_fs c) ++ new /\
    payload = written new ++ rest /\
    (doActualWrites = false -> new = []) /\
    (doActualWrites = true ->
     (0 <= fd -> errorCode (c_stats c') <> FILE_WRITE_ERROR -> rest = []) /\
     exists opener,
       is_opener fd d opener /\
       ((0 <= fd /\ ~ seek_fails d (c_fs c) /\
         exists writes,
           new = CreateFile (d_id d) :: opener ++ writes ++ [FileClose fd] /\
           writes <> [] /\ Forall (is_write fd) writes) \/
        ((fd < 0 \/ seek_fails d (c_fs c)) /\
         new = CreateFile (d_id d) :: opener))).
Proof.
  pose proof two63_eq as H63. pose proof two64_eq as H64.
  intros (Hlen & (Hoff & Hnum & Hsum) & Hok & Hdest) Htrust.
  unfold size_trusted, declared in Htrust. unfold declared.
  unfold iteration.
  assert (Hu : u64 (bufferSize - c_off c) = bufferSize - c_off c)
    by (apply u64_small; lia).
  rewrite Hu in *. clear Hu.
  destruct (readAtLeast (c_sock c) (c_buf c) (c_off c) (bufferSize - c_off c)
                        kMaxHeader (c_numRead c)) as [[[r s1] b1]| |] eqn:Er;
    try discriminate.
  assert (Hn0 : 0 <= c_numRead c <= bufferSize - c_off c) by lia.
  assert (Hm0 : bufferSize - c_off c < two63) by lia.
  pose proof (readAtLeast_bounds _ _ _ _ _ _ _ _ _ Hok Hn0 Hm0 Er)
    as (Hok1 & Hmax & Hge & _ & _).
  pose proof (readAtLeast_length _ _ _ _ _ _ _ _ _ Er) as Hl1.
  assert (Hord :
            slice b1 (c_off c) (Z.max 0 (s64 r)) ++ flat (incoming s1)
            = slice (c_buf c) (c_off c) (c_numRead c) ++ flat (incoming (c_sock c))).
  { unfold readAtLeast, readAtLeast_fuel in Er.
    destruct (c_numRead c <? 0); [discriminate|].
    destruct (kMaxHeader <? 0); [discriminate|].
    apply readAtLeast_loop_order in Er; auto; try lia. apply Er. }
  cbv zeta in *.
  set (numRead := s64 r) in *.
  destruct (numRead <=? 0) eqn:E0; [discriminate|].
  apply Z.leb_gt in E0. specialize (Hge ltac:(lia)).
  rewrite Z.max_r in Hord by lia.
  replace (0 <? numRead) with true in * by (symmetry; apply Z.ltb_lt; lia).
  rewrite (s64_small (c_off c)) in * by lia.
  destruct (load b1 (c_off c) =? EXIT_CMD) eqn:Ex.
  { destruct (negb (numRead =? 1)); discriminate. }
  destruct (load b1 (c_off c) =? DONE_CMD) eqn:Ed.
  { unfold done_cmd. cbv zeta. destruct (negb (numRead =? 2)); [discriminate|].
    destruct isJoinable_; discriminate. }
  destruct (load b1 (c_off c) =? FILE_CMD) eqn:Ef; simpl negb; cbv iota;
    [|discriminate].
  simpl in Htrust. simpl.
  rewrite !u64_small in *; rewrite ?u64_small; try lia.
  set (c3 := with_off _ _).
  intros Hrun.
  assert (Hd : decode (c_buf c3) (c_off c3) (numRead + c_off c)
               = decode b1 (c_off c + 1 + 1) (numRead + c_off c)) by reflexivity.
  set (d := decode b1 (c_off c + 1 + 1) (numRead + c_off c)) in *.
  destruct (advances b1 (c_off c + 1 + 1) (numRead + c_off c)) as [Ha1 Ha2].
  fold d in Ha1, Ha2.
  pose proof (in_frame b1 (c_off c + 1 + 1) (numRead + c_off c)) as Hfr. fold d in Hfr.
  apply file_cmd_next in Hrun; auto; try lia.
  2:{ change (c_buf c3) with b1. unfold len in *. lia. }
  2:{ rewrite Hd. lia. }
  cbv zeta in Hrun. rewrite Hd in Hrun.
  change (c_sock c3) with s1 in Hrun. change (c_buf c3) with b1 in Hrun.
  change (c_fs c3) with (c_fs c) in Hrun.
  destruct Hrun as (Hs & taken & new & rest & R1 & R2 & R3 & R4 & R5 & R6 & R7 & R8
                    & R9 & R10 & R11 & R12 & R13).
  specialize (Hfr Hs). pose proof (Htrust d eq_refl Hs) as Hsz.
  set (sz := d_sourceSize d) in *.
  set (rem := numRead + c_off c - d_off d) in *.
  set (toWrite := Z.min sz rem) in *.
  set (left := rem - toWrite) in *.
  set (off' := d_off d + toWrite) in *.
  assert (Htw : 0 <= toWrite <= rem) by (unfold toWrite, rem; lia).
  assert (Hb1 : len b1 = bufferSize) by (unfold len in *; lia).
  exists d, (slice b1 (c_off c) (d_off d - c_off c)),
         (slice b1 (d_off d) toWrite ++ taken), new, rest.
  split; [reflexivity|]. split; [exact Hs|].
  split.
  { unfold pending. rewrite <- Hord, R1, R5, R6.
    replace numRead with ((d_off d - c_off c) + (toWrite + left))
      by (unfold left, rem; lia).
    rewrite slice_split by (unfold left; lia).
    replace (c_off c + (d_off d - c_off c)) with (d_off d) by lia.
    rewrite slice_split by (unfold left; lia).
    fold off'.
    assert (Hcases : taken = [] \/ left = 0).
    { destruct (Z.eq_dec left 0) as [?|Hn]; [now right|]. left.
      apply len_nil_iff. rewrite R2. unfold left, toWrite in *. lia. }
    destruct Hcases as [-> | Hz].
    - rewrite !app_nil_r. simpl. now rewrite <- !app_assoc.
    - rewrite Hz. rewrite !slice_nil. simpl. rewrite !app_nil_r.
      now rewrite <- !app_assoc. }
  split; [apply slice_length; lia|].
  split; [rewrite slice_length by lia; lia|].
  split.
  { rewrite len_app, R2, slice_length by lia. lia. }
  split; [exact Hsz|].
  split.
  { split; [exact R4|]. split; [|split; [exact R3 | exact R8]].
    unfold buffer_ok. rewrite R5.
    destruct R7 as [(Z1 & ->) | [(Z1 & Z2 & Z3 & ->) | (Z1 & Z2 & ->)]];
      unfold left, off', rem in *; lia. }
  split.
  { rewrite R5.
    destruct R7 as [(Z1 & ->) | [(Z1 & Z2 & Z3 & ->) | (Z1 & Z2 & ->)]];
      [now left | now left |]. right. lia. }
  split; [exact R9|]. split; [exact R10|].
  split; [exact R11|]. split; [exact R12 | exact R13].
Qed.

End Turn.

Section AfterOpen.

Context {D : Decls}.

(** what follows the opening of the destination in a FILE command touches
    the files through [write_out] and [close_dest] only *)
Lemma file_cmd_after_open (R : Conn -> Conn -> Prop) (F : Frame false R)
      dw B numRead old c :
  let d := decode (c_buf c) (c_off c) (numRead + old) in
  d_success d = true ->
  R (open_dest dw d
       (upd_stats (Stats.addHeaderBytes (s64 (d_off d - old))) (with_off (d_off d) c)))
    (state_of (file_cmd dw B numRead old c)).
Proof.
  intros d Hs. unfold file_cmd. cbv zeta. fold d. rewrite Hs. simpl negb. cbv iota.
  set (c2 := open_dest dw d _).
  match goal with
  | |- context [stream_tail ?f ?b ?sz ?w ?c5] =>
      destruct (stream_tail f b sz w c5) as [[w' c6]| |] eqn:Et;
      [apply (stream_tail_frame false R) in Et|simpl; frames|simpl; frames]
  end.
  assert (H6 : R c2 c6).
  { eapply frame_trans; [|exact Et]. frames. }
  clear Et.
  repeat match goal with |- context [if ?b then _ else _] => destruct b end;
    simpl; (eapply frame_trans; [exact H6|]); frames.
Qed.

(** line 407: when [lseek] fails, the descriptor that [createFile] gave is
    dropped: nothing more is called on it, not in this turn *)
Lemma seek_failure_in_file_cmd B numRead old c :
  let d := decode (c_buf c) (c_off c) (numRead + old) in
  let fd := fsScript (c_fs c) (length (fsLog (c_fs c))) in
  d_success d = true -> fd <> -1 -> seek_fails d (c_fs c) ->
  let c' := state_of (file_cmd true B numRead old c) in
  fsLog (c_fs c') = fsLog (c_fs c) ++ [CreateFile (d_id d); Lseek fd (d_offset d)] /\
  fsScript (c_fs c') = fsScript (c_fs c) /\
  c_dest c' = -1.
Proof.
  intros d fd Hs Hfd (Hoff & Hfail). intros c'.
  pose proof (file_cmd_after_open _ no_files_frame true B numRead old c Hs) as H.
  fold d in H. fold c' in H. cbv beta in H.
  set (c1 := upd_stats _ _) in H.
  assert (E : open_dest true d c1
              = with_dest (-1)
                  (upd_stats (Stats.setErrorCode FILE_WRITE_ERROR)
                     (with_fs (mkFs (fsScript (c_fs c))
                                 ((fsLog (c_fs c) ++ [CreateFile (d_id d)])
                                    ++ [Lseek fd (d_offset d)]))
                        (with_dest fd
                           (with_fs (mkFs (fsScript (c_fs c))
                                       (fsLog (c_fs c) ++ [CreateFile (d_id d)])) c1))))).
  { unfold open_dest, syscall. change (c_fs c1) with (c_fs c). fold fd.
    replace (fd =? -1) with false by (symmetry; apply Z.eqb_neq; exact Hfd).
    replace (0 <? d_offset d) with true by (symmetry; apply Z.ltb_lt; exact Hoff).
    cbn [fsLog fsScript]. rewrite length_app. simpl length.
    rewrite Nat.add_1_r.
    replace (fsScript (c_fs c) (S (length (fsLog (c_fs c)))) <? 0) with true
      by (symmetry; apply Z.ltb_lt; exact Hfail).
    reflexivity. }
  rewrite E in H. simpl in H. destruct H as (H1 & H2); [lia|].
  rewrite H1, H2. simpl. rewrite <- app_assoc. simpl. repeat split.
Qed.

End AfterOpen.

Section Blocks.

Context {D : Decls}.
Variables (isJoinable_ doActualWrites : bool) (bufferSize : Z).
Hypothesis advances : decoder_advances.
Hypothesis in_frame : decoder_in_frame.
Hypothesis size_fits : 0 <= bufferSize < two63.

Let turn := iteration isJoinable_ doActualWrites bufferSize.

Lemma run_of_prepend ok c0 c1 c :
  ok c0 -> turn c0 = Next c1 ->
  run_of isJoinable_ doActualWrites bufferSize ok c1 c ->
  run_of isJoinable_ doActualWrites bufferSize ok c0 c.
Proof.
  intros Hok Hturn Hrun. induction Hrun as [c|c c2 c3 Hrun IH Hok2 Hturn2].
  - eapply run_next; [apply run_here | exact Hok | exact Hturn].
  - eapply run_next; [apply IH; assumption | exact Hok2 | exact Hturn2].
Qed.

(** what holds at the head of every turn of a connection whose sender
    declares no negative size *)
Lemma run_of_ready c0 c :
  turn_ready bufferSize c0 ->
  c_off c0 = 0 ->
  run_of isJoinable_ doActualWrites bufferSize (size_trusted bufferSize) c0 c ->
  turn_ready bufferSize c /\
  (c_off c = 0 \/ kMaxHeader <= c_numRead c \/ c_off c <= bufferSize / 2) /\
  (length (pending c) <= length (pending c0))%nat.
Proof.
  intros Hr H0 Hrun. induction Hrun as [c|c c1 c2 Hrun IH Hok Hturn].
  - split; [exact Hr|]. split; [now left | lia].
  - destruct (IH Hr H0) as (Hr1 & _ & Hl).
    destruct (turn_next isJoinable_ doActualWrites bufferSize advances in_frame
                size_fits c1 c2 Hr1 Hok Hturn)
      as (d & header & payload & new & rest & _ & _ & Hp & _ & _ & _ & _ & Hr2 & Hroom & _).
    split; [exact Hr2|]. split; [exact Hroom|].
    rewrite Hp, !length_app in Hl. lia.
Qed.

(** X15.  A turn of the inner loop that goes on to the next one has taken
    one whole block off the connection: the header that the decoder
    measured, then as many bytes as the header declares, and the next turn
    starts at the byte that follows.  Of these bytes of data the files have
    received a prefix, in order: nothing when writes are skipped, all of
    them when the destination was opened and no call on it failed.  This
    holds for a decoder that keeps to its contract, a buffer of less than
    2^63 bytes and a size that is not negative. *)
Theorem a_block_is_taken_whole c c' :
  turn_ready bufferSize c ->
  size_trusted bufferSize c ->
  iteration isJoinable_ doActualWrites bufferSize c = Next c' ->
  exists d header payload new rest,
    declared bufferSize c = Some d /\
    pending c = header ++ payload ++ pending c' /\
    len header = d_off d - c_off c /\
    len payload = d_sourceSize d /\
    fsLog (c_fs c') = fsLog (c_fs c) ++ new /\
    payload = written new ++ rest /\
    (doActualWrites = false -> rest = payload) /\
    (doActualWrites = true ->
     0 <= fsScript (c_fs c) (length (fsLog (c_fs c))) ->
     errorCode (c_stats c') <> FILE_WRITE_ERROR -> written new = payload).
Proof.
  intros Hr Hok Hturn.
  destruct (turn_next isJoinable_ doActualWrites bufferSize advances in_frame
              size_fits c c' Hr Hok Hturn)
    as (d & header & payload & new & rest & T1 & _ & T3 & T4 & _ & T6 & _ & _ & _ & _
        & T11 & T12 & T13 & T14).
  exists d, header, payload, new, rest.
  split; [exact T1|]. split; [exact T3|]. split; [exact T4|]. split; [exact T6|].
  split; [exact T11|]. split; [exact T12|]. split.
  - intros Hdw. rewrite T12, (T13 Hdw). reflexivity.
  - intros Hdw Hfd Herr. destruct (T14 Hdw) as (Hrest & _).
    rewrite T12, (Hrest Hfd Herr). now rewrite app_nil_r.
Qed.

(** X18.  With a buffer of at least twice [kMaxHeader] bytes, at the head
    of every turn of a connection that started at the front of the buffer
    (and whose sender declares no negative size) no destination is open,
    and either a whole header's worth of bytes is buffered already or the
    buffer has room for one after [off]. *)
Theorem a_header_always_fits c0 c :
  2 * kMaxHeader <= bufferSize ->
  turn_ready bufferSize c0 ->
  c_off c0 = 0 ->
  run_of isJoinable_ doActualWrites bufferSize (size_trusted bufferSize) c0 c ->
  c_dest c < 0 /\
  len (c_buf c) = bufferSize /\
  (kMaxHeader <= c_numRead c \/ kMaxHeader <= bufferSize - c_off c).
Proof.
  intros Hbig Hr H0 Hrun.
  destruct (run_of_ready c0 c Hr H0 Hrun) as ((Hlen & Hb & _ & Hd) & Hroom & _).
  split; [exact Hd|]. split; [exact Hlen|].
  destruct Hroom as [E | [E | E]].
  - right. rewrite E. lia.
  - now left.
  - right. assert (kMaxHeader <= bufferSize / 2) by (apply Z.div_le_lower_bound; lia).
    assert (bufferSize / 2 + bufferSize / 2 <= bufferSize).
    { pose proof (Z.mul_div_le bufferSize 2). lia. }
    lia.
Qed.

(** X19.  A connection whose sender never declares a negative size comes
    to an end: every turn that goes on consumes at least two of the bytes
    that are pending, so the inner loop leaves by [break], by [return] or
    by [exit] within one turn for every two bytes that are still to be
    consumed. *)
Theorem a_trusted_connection_ends fuel c0 :
  turn_ready bufferSize c0 ->
  (forall c, run_of isJoinable_ doActualWrites bufferSize (size_trusted bufferSize) c0 c ->
             size_trusted bufferSize c) ->
  (length (pending c0) < 2 * fuel)%nat ->
  forall c, loop fuel (iteration isJoinable_ doActualWrites bufferSize) c0 <> NoFuel c.
Proof.
  revert c0. induction fuel as [|fuel IH]; intros c0 Hr Hall Hlen c; [lia|].
  simpl.
  destruct (iteration isJoinable_ doActualWrites bufferSize c0) as [c1| | | | |] eqn:Et;
    try discriminate.
  - assert (Hok : size_trusted bufferSize c0) by (apply Hall, run_here).
    destruct (turn_next isJoinable_ doActualWrites bufferSize advances in_frame
                size_fits c0 c1 Hr Hok Et)
      as (d & header & payload & new & rest & _ & _ & Hp & _ & Hh & _ & _ & Hr1 & _).
    apply IH; [exact Hr1| |].
    + intros c2 Hrun. apply Hall. now apply (run_of_prepend _ c0 c1 c2).
    + rewrite Hp, !length_app in Hlen. unfold len in Hh. lia.
  - intros H. injection H as ->. exact (iteration_never_starves _ _ _ _ _ Et).
Qed.

End Blocks.

Section FileCalls.

Context {D : Decls}.
Variables (isJoinable_ : bool) (bufferSize : Z).
Hypothesis advances : decoder_advances.
Hypothesis in_frame : decoder_in_frame.
Hypothesis size_fits : 0 <= bufferSize < two63.

(** X16.  The file calls of a block that is written and completed, in
    order: [createFile]; then at most one call that positions the file
    ([lseek] or [truncateFile]); then, if a descriptor was obtained and the
    seek did not fail, one or more [write]s on that descriptor and one
    [close] of it, and nothing else.  No descriptor is held when the next
    turn starts. *)
Theorem file_calls_of_a_block c c' :
  turn_ready bufferSize c ->
  size_trusted bufferSize c ->
  iteration isJoinable_ true bufferSize c = Next c' ->
  let fd := fsScript (c_fs c) (length (fsLog (c_fs c))) in
  exists d new opener,
    declared bufferSize c = Some d /\
    fsLog (c_fs c') = fsLog (c_fs c) ++ new /\
    is_opener fd d opener /\
    c_dest c' < 0 /\
    ((0 <= fd /\ ~ seek_fails d (c_fs c) /\
      exists writes,
        new = CreateFile (d_id d) :: opener ++ writes ++ [FileClose fd] /\
        writes <> [] /\ Forall (is_write fd) writes) \/
     ((fd < 0 \/ seek_fails d (c_fs c)) /\
      new = CreateFile (d_id d) :: opener)).
Proof.
  intros Hr Hok Hturn fd.
  destruct (turn_next isJoinable_ true bufferSize advances in_frame
              size_fits c c' Hr Hok Hturn)
    as (d & header & payload & new & rest & T1 & _ & _ & _ & _ & _ & _ & T8 & _ & _
        & T11 & _ & _ & T14).
  destruct (T14 eq_refl) as (_ & opener & Ho & Hcases).
  exists d, new, opener.
  split; [exact T1|]. split; [exact T11|]. split; [exact Ho|].
  split; [apply T8 | exact Hcases].
Qed.

(** X17.  When [createFile] gives a descriptor and the [lseek] that
    follows fails (line 407), the turn makes no other file call: the block
    is not written and the descriptor is not closed, the worker just
    forgets it ([dest] is -1 afterwards). *)
Theorem a_failed_seek_leaks_the_descriptor c d :
  declared bufferSize c = Some d ->
  d_success d = true ->
  let fd := fsScript (c_fs c) (length (fsLog (c_fs c))) in
  0 <= fd ->
  seek_fails d (c_fs c) ->
  let c' := state_of (iteration isJoinable_ true bufferSize c) in
  fsLog (c_fs c') = fsLog (c_fs c) ++ [CreateFile (d_id d); Lseek fd (d_offset d)] /\
  c_dest c' = -1.
Proof.
  intros Hd Hs fd Hfd Hseek c'. unfold declared in Hd.
  unfold c', iteration.
  destruct (readAtLeast _ _ _ _ _ _) as [[[r s1] b1]| |]; try discriminate.
  cbv zeta in *.
  destruct (0 <? s64 r) eqn:E0; [|discriminate].
  apply Z.ltb_lt in E0.
  replace (s64 r <=? 0) with false by (symmetry; apply Z.leb_gt; exact E0).
  destruct (load b1 (c_off c) =? EXIT_CMD); [discriminate|].
  destruct (load b1 (c_off c) =? DONE_CMD); [discriminate|].
  destruct (load b1 (c_off c) =? FILE_CMD); [|discriminate].
  simpl in Hd. injection Hd as Hd. simpl negb. cbv iota.
  match goal with
  | |- context [file_cmd true ?B ?n ?old ?c3] =>
      pose proof (seek_failure_in_file_cmd B n old c3) as H
  end.
  cbv zeta in H. simpl c_buf in H. simpl c_off in H. simpl c_fs in H.
  rewrite Hd in H. fold fd in H.
  destruct (H Hs ltac:(lia) Hseek) as (H1 & _ & H2).
  split; [exact H1 | exact H2].
Qed.

End FileCalls.

Lemma readAtMost_reads_once_witness :
  let s := set_incoming (Sample.socket [] []) [Bytes [7; 8; 9]; Bytes [5]] in
  let r := readAtMost s [0; 0; 0; 0] 4 2 in
  s64 (fst (fst r)) <= Z.min 2 4 /\ length (snd r) = 4%nat.
Proof.
  intros s r.
  assert (Hok : stream_ok (incoming s)) by repeat constructor.
  assert (H2 : 0 <= 2) by lia.
  assert (H4 : 0 <= 4 < two63) by (rewrite two63_eq; lia).
  assert (Hl : 4 <= len [0; 0; 0; 0]) by (unfold len; simpl; lia).
  pose proof (readAtMost_reads_once s [0; 0; 0; 0] 4 2 Hok H2 H4 Hl) as H.
  unfold r. destruct (readAtMost s [0; 0; 0; 0] 4 2) as [[k s'] buf'].
  simpl. split; [apply H | apply H].
Defined.

Lemma receiver_at_rest : Lifetime.at_rest Sample.receiver.
Proof. repeat split. Qed.

Lemma a_session_witness :
  exists r1,
    @Session.transferAsync Sample.decls Sample.options0 Sample.socket_for Sample.receiver
    = Session.Done (@OK Sample.decls, r1) /\
    Session.hasPendingTransfer r1 = true.
Proof.
  destruct (@LifetimeFacts.a_session_starts_and_comes_to_rest Sample.decls
              Sample.options0 Sample.socket_for Sample.receiver receiver_at_rest)
    as (r1 & report & r2 & H1 & H2 & _).
  exists r1. split; [exact H1 | exact H2].
Defined.

Lemma destructor_witness :
  Lifetime.destructor Sample.receiver = Session.Done Sample.receiver.
Proof.
  exact (proj1 (@LifetimeFacts.destructor_finishes_what_is_pending Sample.decls
                  Sample.options0 Sample.socket_for Sample.receiver receiver_at_rest)).
Defined.

Lemma skip_writes_witness :
  let files := mkFs (Sample.script [] (-1)) [] in
  let run options :=
    state_of (@receiveOne Sample.decls 5 options true files (Some (repeat 0 2048))
                (Sample.socket [0; 0] [(0, Sample.hello)]) 2048 Sample.stats0) in
  (* the worker has served the connection: one block of five bytes, one reply *)
  numBlocks (c_stats (run (mkOptions 1000 10 3 50 50 3 true))) = 1 /\
  dataBytes (c_stats (run (mkOptions 1000 10 3 50 50 3 true))) = 5 /\
  sent (c_sock (run (mkOptions 1000 10 3 50 50 3 true))) = [[68; 0]] /\
  (* with writes it calls the file creator *)
  fsLog (c_fs (run (mkOptions 1000 10 3 50 50 3 false))) = [CreateFile [97]] /\
  (* without, it makes no call *)
  c_fs (run (mkOptions 1000 10 3 50 50 3 true)) = files.
Proof.
  intros files run.
  split; [vm_compute; reflexivity|]. split; [vm_compute; reflexivity|].
  split; [vm_compute; reflexivity|]. split; [vm_compute; reflexivity|].
  exact (proj1 (@skip_writes_makes_no_file_call Sample.decls 5
                  (mkOptions 1000 10 3 50 50 3 true) true files (Some (repeat 0 2048))
                  (Sample.socket [0; 0] [(0, Sample.hello)]) 2048 Sample.stats0 eq_refl)).
Defined.

Lemma sample_codes_differ : @OK Sample.decls <> @CONN_ERROR Sample.decls.
Proof. discriminate. Qed.

Lemma listen_witness :
  let socket := Sample.socket [0] [(0, Sample.hello)] in
  let r := @receiveOne Sample.decls 5 Sample.options0 true (mkFs (Sample.script [] (-1)) [])
             (Some (repeat 0 2048)) socket 2048 Sample.stats0 in
  (1 <= listens socket (c_sock (state_of r)))%nat.
Proof.
  intros socket r.
  exact (proj1 (@listen_is_retried_and_then_tried_once_more Sample.decls 5
                  Sample.options0 true (mkFs (Sample.script [] (-1)) [])
                  (Some (repeat 0 2048)) socket 2048 Sample.stats0 sample_codes_differ)).
Defined.

Lemma sample_ready stream files stats :
  stream_ok stream ->
  turn_ready 2048 (Sample.accepted 2048 stream files stats).
Proof.
  intros Hok. split; [vm_compute; reflexivity|].
  split; [apply sample_starts_ok|]. split; [exact Hok | simpl; lia].
Qed.

Lemma straddle_ready : turn_ready 2048 Sample.straddle.
Proof. apply sample_ready. repeat constructor. Qed.

Lemma a_block_witness :
  let c := Sample.straddle in
  let c' := state_of (@iteration Sample.decls true true 2048 c) in
  exists d header payload new rest,
    @declared Sample.decls 2048 c = Some d /\
    pending c = header ++ payload ++ pending c' /\
    len header = d_off d - c_off c /\
    len payload = d_sourceSize d /\
    fsLog (c_fs c') = fsLog (c_fs c) ++ new /\
    payload = written new ++ rest /\
    (true = false -> rest = payload) /\
    (true = true ->
     0 <= fsScript (c_fs c) (length (fsLog (c_fs c))) ->
     errorCode (c_stats c') <> @FILE_WRITE_ERROR Sample.decls -> written new = payload).
Proof.
  intros c c'.
  exact (@a_block_is_taken_whole Sample.decls true true 2048 sample_advances
           sample_in_frame sample_size_fits c c' straddle_ready straddle_trusted
           straddle_first_turn).
Defined.

Lemma file_calls_witness :
  let c := Sample.straddle in
  let c' := state_of (@iteration Sample.decls true true 2048 c) in
  exists d new opener,
    @declared Sample.decls 2048 c = Some d /\
    fsLog (c_fs c') = fsLog (c_fs c) ++ new /\
    is_opener 3 d opener /\
    c_dest c' < 0.
Proof.
  intros c c'.
  destruct (@file_calls_of_a_block Sample.decls true 2048 sample_advances
              sample_in_frame sample_size_fits c c' straddle_ready straddle_trusted
              straddle_first_turn)
    as (d & new & opener & H1 & H2 & H3 & H4 & _).
  exists d, new, opener. split; [exact H1|]. split; [exact H2|].
  split; [exact H3 | exact H4].
Defined.

Lemma failed_seek_witness :
  let c := Sample.accepted 2048
             [Bytes (Sample.file_frame 0 [97] 1 5 6 [120] ++ Sample.done_frame 0)]
             [3; -1] Sample.stats0 in
  let c' := state_of (@iteration Sample.decls true true 2048 c) in
  fsLog (c_fs c') = [CreateFile [97]; Lseek 3 5] /\ c_dest c' = -1.
Proof.
  intros c c'.
  assert (Hd : @declared Sample.decls 2048 c = Some (mkDecoded true 28 [97] 1 5 6))
    by (vm_compute; reflexivity).
  assert (Hfd : 0 <= fsScript (c_fs c) (length (fsLog (c_fs c)))) by (simpl; lia).
  assert (Hseek : seek_fails (mkDecoded true 28 [97] 1 5 6) (c_fs c))
    by (split; simpl; lia).
  exact (@a_failed_seek_leaks_the_descriptor Sample.decls true 2048 c
           (mkDecoded true 28 [97] 1 5 6) Hd eq_refl Hfd Hseek).
Defined.

Lemma straddle_run :
  @run_of Sample.decls true true 2048 (@size_trusted Sample.decls 2048) Sample.straddle
          (state_of (@iteration Sample.decls true true 2048 Sample.straddle)).
Proof.
  eapply run_next; [apply run_here | exact straddle_trusted | exact straddle_first_turn].
Qed.

Lemma a_header_fits_witness :
  let c := state_of (@iteration Sample.decls true true 2048 Sample.straddle) in
  c_dest c < 0 /\ len (c_buf c) = 2048 /\
  (@kMaxHeader Sample.decls <= c_numRead c \/ @kMaxHeader Sample.decls <= 2048 - c_off c).
Proof.
  intros c.
  assert (Hbig : 2 * @kMaxHeader Sample.decls <= 2048) by (simpl; lia).
  exact (@a_header_always_fits Sample.decls true true 2048 sample_advances
           sample_in_frame sample_size_fits Sample.straddle c Hbig straddle_ready
           eq_refl straddle_run).
Defined.

Lemma straddle_second_turn c :
  @iteration Sample.decls true true 2048
    (state_of (@iteration Sample.decls true true 2048 Sample.straddle)) <> Next c.
Proof. vm_compute. discriminate. Qed.

(** a connection of one block: its inner loop is at the head of a turn
    twice *)
Lemma two_turns {D : Decls} j dw B ok c0 c1 :
  iteration j dw B c0 = Next c1 ->
  (forall c, iteration j dw B c1 <> Next c) ->
  forall c, run_of j dw B ok c0 c -> c = c0 \/ c = c1.
Proof.
  intros H0 H1 c H. induction H as [c|c c2 c3 Hrun IH Hok Hturn]; [now left|].
  destruct (IH H0) as [E | E]; subst c2.
  - right. rewrite H0 in Hturn. injection Hturn as Hc. symmetry. exact Hc.
  - exfalso. exact (H1 _ Hturn).
Qed.

Lemma straddle_reach c :
  @run_of Sample.decls true true 2048 (@size_trusted Sample.decls 2048) Sample.straddle c ->
  c = Sample.straddle \/
  c = state_of (@iteration Sample.decls true true 2048 Sample.straddle).
Proof.
  exact (@two_turns Sample.decls true true 2048 (@size_trusted Sample.decls 2048)
           Sample.straddle
           (state_of (@iteration Sample.decls true true 2048 Sample.straddle))
           straddle_first_turn straddle_second_turn c).
Qed.

Lemma straddle_always_trusted c :
  @run_of Sample.decls true true 2048 (@size_trusted Sample.decls 2048) Sample.straddle c ->
  @size_trusted Sample.decls 2048 c.
Proof.
  intros H. destruct (straddle_reach c H) as [-> | ->]; [exact straddle_trusted|].
  intros d Hd. vm_compute in Hd. discriminate.
Qed.

Lemma a_connection_ends_witness :
  match loop 16 (@iteration Sample.decls true true 2048) Sample.straddle with
  | NoFuel _ => False
  | _ => True
  end.
Proof.
  assert (Hlen : (length (pending Sample.straddle) < 2 * 16)%nat)
    by (vm_compute; lia).
  pose proof (@a_trusted_connection_ends Sample.decls true true 2048 sample_advances
                sample_in_frame sample_size_fits 16 Sample.straddle straddle_ready
                straddle_always_trusted Hlen) as H.
  destruct (loop 16 (@iteration Sample.decls true true 2048) Sample.straddle) as [c|c|site c|c|c|c];
    try exact I.
  exact (H c eq_refl).
Defined.

Section Undone.

Context {D : Decls}.
Variables (isJoinable_ doActualWrites : bool) (bufferSize : Z).
Hypothesis size_fits : 0 <= bufferSize < two63.

(** a turn that finds at least [kMaxHeader] bytes, with at their head a FILE
    header that declares as its size the negative of its own length, ends
    where it began *)
Lemma undone_turn c r s1 b1 :
  0 <= c_off c <= bufferSize ->
  readAtLeast (c_sock c) (c_buf c) (c_off c) (u64 (bufferSize - c_off c))
              kMaxHeader (c_numRead c) = Val (r, s1, b1) ->
  0 < s64 r -> kMaxHeader <= s64 r -> c_off c + s64 r <= bufferSize ->
  load b1 (c_off c) = FILE_CMD -> FILE_CMD <> EXIT_CMD -> FILE_CMD <> DONE_CMD ->
  let d := decode b1 (c_off c + 2) (s64 r + c_off c) in
  d_success d = true ->
  c_off c <= d_off d <= c_off c + s64 r ->
  d_sourceSize d = c_off c - d_off d ->
  exists c',
    iteration isJoinable_ doActualWrites bufferSize c = Next c' /\
    c_sock c' = s1 /\ c_buf c' = b1 /\ c_off c' = c_off c /\ c_numRead c' = s64 r.
Proof.
  pose proof two63_eq as H63. pose proof two64_eq as H64.
  intros Hoff Hread Hpos Hmax Hfit Hload Hne Hnd d Hs Hd Hsz.
  unfold iteration. rewrite Hread. cbv zeta.
  set (n := s64 r) in *.
  replace (n <=? 0) with false by (symmetry; apply Z.leb_gt; lia).
  rewrite Hload.
  replace (FILE_CMD =? EXIT_CMD) with false by (symmetry; apply Z.eqb_neq; exact Hne).
  replace (FILE_CMD =? DONE_CMD) with false by (symmetry; apply Z.eqb_neq; exact Hnd).
  rewrite Z.eqb_refl. simpl negb. cbv iota.
  rewrite (s64_small (c_off c)) by lia.
  rewrite (u64_small (c_off c + 1)) by lia. simpl c_off.
  rewrite (u64_small (c_off c + 1 + 1)) by lia.
  replace (c_off c + 1 + 1) with (c_off c + 2) by lia.
  unfold file_cmd. cbv zeta. simpl c_buf. simpl c_off. fold d. rewrite Hs.
  simpl negb. cbv iota.
  set (c0 := with_numRead n (with_buf b1 (with_sock s1 c))).
  set (c1 := upd_stats _ (with_off (d_off d) _)).
  assert (H1 : c_sock c1 = s1 /\ c_buf c1 = b1 /\ c_numRead c1 = n)
    by (repeat split).
  pose proof (open_dest_files_only doActualWrites d c1) as (A1 & A2 & A3 & A4 & _).
  remember (open_dest doActualWrites d c1) as c2 eqn:E2. clear E2.
  rewrite (s64_small (n + c_off c - d_off d)) by lia.
  rewrite Hsz.
  replace (n + c_off c - d_off d >=? c_off c - d_off d) with true
    by (symmetry; apply Z.geb_le; lia).
  set (sz := c_off c - d_off d).
  set (c3 := upd_stats (Stats.addDataBytes sz) c2).
  replace (d_off d + sz) with (c_off c) by (unfold sz; lia).
  rewrite (u64_small (c_off c)) by lia.
  match goal with
  | |- context [write_out ?a ?b ?x] =>
      pose proof (write_out_files_only a b x) as (B1 & B2 & B3 & B4 & _);
      remember (write_out a b x) as c4 eqn:E4; clear E4
  end.
  set (c5 := with_off (c_off c) c4).
  rewrite stream_tail_unfold, Z.ltb_irrefl. cbv beta iota.
  rewrite Z.eqb_refl. simpl negb. cbv iota.
  pose proof (close_dest_files_only c5) as (F1 & F2 & F3 & F4 & _).
  remember (close_dest c5) as c7 eqn:E7. clear E7.
  replace (n + c_off c - d_off d - sz) with n by (unfold sz; lia).
  replace (n <? 0) with false by (symmetry; apply Z.ltb_ge; lia).
  replace (0 <? n) with true by (symmetry; apply Z.ltb_lt; lia).
  replace (n <? kMaxHeader) with false by (symmetry; apply Z.ltb_ge; lia).
  simpl andb. cbv iota.
  eexists. split; [reflexivity|].
  destruct H1 as (S1 & S2 & S3).
  unfold c5, c3 in *. simpl in *.
  repeat split; congruence.
Qed.

(** with [atLeast] bytes in hand [readAtLeast] returns at once *)
Lemma readAtLeast_in_hand s buf base max atLeast n :
  0 <= n -> 0 <= atLeast <= n ->
  readAtLeast s buf base max atLeast n = Val (u64 n, s, buf).
Proof.
  intros Hn Ha. unfold readAtLeast, readAtLeast_fuel.
  replace (n <? 0) with false by (symmetry; apply Z.ltb_ge; lia).
  replace (atLeast <? 0) with false by (symmetry; apply Z.ltb_ge; lia).
  rewrite readAtLeast_loop_unfold.
  replace (n <? atLeast) with false by (symmetry; apply Z.ltb_ge; lia).
  reflexivity.
Qed.

(** X20.  A sender can hang a worker.  When a turn of the inner loop finds
    at least [kMaxHeader] bytes, and at their head a FILE header that
    decodes and declares as size the negative of its own length, the turn
    steps [off] back to where the header starts and keeps every byte: the
    next turn decodes the same header again, and the loop never ends and
    never reads from the connection again. *)
Theorem a_negative_size_can_hang_the_worker c r s1 b1 :
  0 <= c_off c <= bufferSize ->
  readAtLeast (c_sock c) (c_buf c) (c_off c) (u64 (bufferSize - c_off c))
              kMaxHeader (c_numRead c) = Val (r, s1, b1) ->
  0 < s64 r -> 0 <= kMaxHeader <= s64 r -> c_off c + s64 r <= bufferSize ->
  load b1 (c_off c) = FILE_CMD -> FILE_CMD <> EXIT_CMD -> FILE_CMD <> DONE_CMD ->
  let d := decode b1 (c_off c + 2) (s64 r + c_off c) in
  d_success d = true ->
  c_off c <= d_off d <= c_off c + s64 r ->
  d_sourceSize d = c_off c - d_off d ->
  forall fuel,
  exists c',
    loop fuel (iteration isJoinable_ doActualWrites bufferSize) c = NoFuel c' /\
    (fuel <> O -> c_sock c' = s1 /\ c_buf c' = b1 /\ c_off c' = c_off c /\
                  c_numRead c' = s64 r).
Proof.
  pose proof two63_eq as H63. pose proof two64_eq as H64.
  intros Hoff Hread Hpos Hmax Hfit Hload Hne Hnd d Hs Hd Hsz fuel.
  revert c r Hoff Hread Hpos Hmax Hfit Hload d Hs Hd Hsz.
  induction fuel as [|fuel IH]; intros c r Hoff Hread Hpos Hmax Hfit Hload d Hs Hd Hsz.
  - exists c. split; [reflexivity|]. intros H. contradiction.
  - destruct (undone_turn c r s1 b1 Hoff Hread Hpos (proj2 Hmax) Hfit Hload Hne Hnd
                Hs Hd Hsz) as (c1 & Hturn & T1 & T2 & T3 & T4).
    simpl. rewrite Hturn.
    assert (Hu : s64 (u64 (s64 r)) = s64 r) by (apply s64_u64_small; lia).
    assert (Hread1 : readAtLeast (c_sock c1) (c_buf c1) (c_off c1)
                                 (u64 (bufferSize - c_off c1)) kMaxHeader (c_numRead c1)
                     = Val (u64 (s64 r), s1, b1)).
    { rewrite T1, T2, T4. apply readAtLeast_in_hand; lia. }
    assert (Hoff1 : 0 <= c_off c1 <= bufferSize) by (rewrite T3; exact Hoff).
    assert (Hpos1 : 0 < s64 (u64 (s64 r))) by (rewrite Hu; exact Hpos).
    assert (Hmax1 : 0 <= kMaxHeader <= s64 (u64 (s64 r))) by (rewrite Hu; exact Hmax).
    assert (Hfit1 : c_off c1 + s64 (u64 (s64 r)) <= bufferSize)
      by (rewrite Hu, T3; exact Hfit).
    assert (Hload1 : load b1 (c_off c1) = FILE_CMD) by (rewrite T3; exact Hload).
    assert (Hs1 : d_success (decode b1 (c_off c1 + 2) (s64 (u64 (s64 r)) + c_off c1))
                  = true) by (rewrite Hu, T3; exact Hs).
    assert (Hd1 : c_off c1
                  <= d_off (decode b1 (c_off c1 + 2) (s64 (u64 (s64 r)) + c_off c1))
                  <= c_off c1 + s64 (u64 (s64 r))) by (rewrite Hu, T3; exact Hd).
    assert (Hsz1 : d_sourceSize (decode b1 (c_off c1 + 2) (s64 (u64 (s64 r)) + c_off c1))
                   = c_off c1
                     - d_off (decode b1 (c_off c1 + 2) (s64 (u64 (s64 r)) + c_off c1)))
      by (rewrite Hu, T3; exact Hsz).
    destruct (IH c1 (u64 (s64 r)) Hoff1 Hread1 Hpos1 Hmax1 Hfit1 Hload1 Hs1 Hd1 Hsz1)
      as (c' & Hloop & Hc').
    exists c'. split; [exact Hloop|]. intros _.
    destruct fuel as [|fuel'].
    + simpl in Hloop. injection Hloop as <-. repeat split; assumption.
    + destruct Hc' as (U1 & U2 & U3 & U4); [discriminate|].
      rewrite Hu in U4. rewrite T3 in U3. repeat split; assumption.
Qed.

End Undone.

Lemma hang_witness :
  let c := Sample.accepted 2048
             [Bytes (Sample.file_frame 0 [97] (-28) 0 0 (repeat 0 300))] []
             Sample.stats0 in
  exists c', loop 1000 (@iteration Sample.decls true true 2048) c = NoFuel c'.
Proof.
  intros c.
  assert (Hread : @readAtLeast (c_sock c) (c_buf c) (c_off c) (u64 (2048 - c_off c))
                    (@kMaxHeader Sample.decls) (c_numRead c)
                  = Val (328, set_incoming (c_sock c) [],
                         store (c_buf c) 0
                           (Sample.file_frame 0 [97] (-28) 0 0 (repeat 0 300))))
    by (vm_compute; reflexivity).
  destruct (@a_negative_size_can_hang_the_worker Sample.decls true true 2048
              sample_size_fits c 328 _ _ ltac:(simpl; lia) Hread) with (fuel := 1000%nat)
    as (c' & H & _).
  - vm_compute. reflexivity.
  - vm_compute. split; discriminate.
  - vm_compute. discriminate.
  - vm_compute. reflexivity.
  - discriminate.
  - discriminate.
  - vm_compute. reflexivity.
  - vm_compute. split; discriminate.
  - vm_compute. reflexivity.
  - exists c'. exact H.
Defined.

(** ** File errors, credit and the payload that is taken *)

Section Taken.

Context {D : Decls}.


End Taken.

Section Credit.

Context {D : Decls}.
Variables (isJoinable_ doActualWrites : bool) (bufferSize : Z).
Hypothesis advances : decoder_advances.
Hypothesis in_frame : decoder_in_frame.
Hypothesis size_fits : 0 <= bufferSize < two63.



End Credit.

Section Framed.

Context {D : Decls}.

(** C6.  A worker [c] whose file system answers anything (the open, the
    seek or a write failing), beside a worker [c_ref] at the same place of
    the same stream whose file system answers differently, say with every
    call working, or who does not write at all.  Each turn of the inner
    loop and the whole connection end the same way for both, with the same
    bytes left on the stream, the same [off] and [numRead], and the same
    counters.  And where the turn of [c_ref] goes on, the turn of [c] goes
    on as well, having taken the header and the declared [sourceSize] bytes
    of data from the buffer and the socket, with no destination left open,
    to the very place of the stream where [c_ref] is. *)
Theorem file_errors_keep_the_stream_framed
        (isJoinable_ doActualWrites doActualWrites' : bool) (bufferSize : Z)
        (c_ref c : Conn) :
  same_wire c_ref c ->
  same_outcome (iteration isJoinable_ doActualWrites' bufferSize c_ref)
               (iteration isJoinable_ doActualWrites bufferSize c) /\
  (forall fuel,
      same_outcome (loop fuel (iteration isJoinable_ doActualWrites' bufferSize) c_ref)
                   (loop fuel (iteration isJoinable_ doActualWrites bufferSize) c)) /\
  (decoder_advances -> decoder_in_frame -> 0 <= bufferSize < two63 ->
   turn_ready bufferSize c -> size_trusted bufferSize c ->
   forall c_ref',
     iteration isJoinable_ doActualWrites' bufferSize c_ref = Next c_ref' ->
     exists c' d header payload,
       iteration isJoinable_ doActualWrites bufferSize c = Next c' /\
       same_wire c_ref' c' /\
       declared bufferSize c = Some d /\
       pending c = header ++ payload ++ pending c' /\
       len header = d_off d - c_off c /\
       len payload = d_sourceSize d /\
       c_dest c' < 0).
Proof.
  intros H.
  pose proof (iteration_same isJoinable_ doActualWrites' doActualWrites bufferSize
                c_ref c H) as Hsame.
  split; [exact Hsame|]. split; [intros fuel; now apply loop_same|].
  intros advances in_frame size_fits Hready Htrust c_ref' Href.
  rewrite Href in Hsame.
  destruct (iteration isJoinable_ doActualWrites bufferSize c) as [c'| | | | |] eqn:Et;
    simpl in Hsame; try contradiction.
  destruct (turn_next isJoinable_ doActualWrites bufferSize advances in_frame
              size_fits c c' Hready Htrust Et)
    as (d & header & payload & new & rest & T1 & _ & T3 & T4 & _ & T6 & _ & T8 & _).
  exists c', d, header, payload.
  split; [reflexivity|]. split; [exact Hsame|]. split; [exact T1|].
  split; [exact T3|]. split; [exact T4|]. split; [exact T6|]. apply T8.
Qed.

End Framed.

(** ** A block that comes in two parts, on the sample protocol *)

Lemma long_block_declared files :
  @declared Sample.decls 2048 (Sample.accepted 2048 Sample.in_two_parts files Sample.stats0)
  = Some (mkDecoded true 28 [97] 300 0 300).
Proof. vm_compute. reflexivity. Qed.

Lemma long_block_trusted files :
  @size_trusted Sample.decls 2048
                (Sample.accepted 2048 Sample.in_two_parts files Sample.stats0).
Proof.
  intros d Hd _. rewrite long_block_declared in Hd. injection Hd as <-.
  simpl. lia.
Qed.

Lemma long_block_ready files :
  turn_ready 2048 (Sample.accepted 2048 Sample.in_two_parts files Sample.stats0).
Proof. apply sample_ready. repeat constructor. Qed.

Lemma long_fine_first_turn :
  @iteration Sample.decls true true 2048 Sample.long_fine
  = Next (state_of (@iteration Sample.decls true true 2048 Sample.long_fine)).
Proof. vm_compute. reflexivity. Qed.

Lemma long_same_wire : same_wire Sample.long_fine Sample.long_short_write.
Proof. unfold same_wire, same_position. repeat split; reflexivity. Qed.

(** the first [write] is short: the worker sets FILE_WRITE_ERROR, closes the
    file, takes the other 28 bytes of the block off the socket and goes on,
    where the worker whose writes succeed is *)
Lemma file_errors_witness :
  let c := Sample.long_short_write in
  let c_ref := Sample.long_fine in
  errorCode (c_stats (state_of (@iteration Sample.decls true true 2048 c))) = 4 /\
  fsLog (c_fs (state_of (@iteration Sample.decls true true 2048 c)))
  = [CreateFile [97]; TruncateFile 3 300;
     FileWrite 3 (firstn 272 Sample.long_data) 272; FileClose 3] /\
  exists c' d header payload,
    @iteration Sample.decls true true 2048 c = Next c' /\
    same_wire (state_of (@iteration Sample.decls true true 2048 c_ref)) c' /\
    @declared Sample.decls 2048 c = Some d /\
    pending c = header ++ payload ++ pending c' /\
    len header = d_off d - c_off c /\
    len payload = d_sourceSize d /\
    c_dest c' < 0.
Proof.
  intros c c_ref.
  split; [vm_compute; reflexivity|]. split; [vm_compute; reflexivity|].
  exact (proj2 (proj2 (@file_errors_keep_the_stream_framed Sample.decls true true true
                         2048 Sample.long_fine Sample.long_short_write long_same_wire))
           sample_advances sample_in_frame sample_size_fits
           (long_block_ready [3; 0; 100; 0]) (long_block_trusted [3; 0; 100; 0])
           _ long_fine_first_turn).
Defined.


(** the connection ends ten bytes before the end of the block: the 290
    bytes are counted, the block is not credited, and the loop is left *)
Example cut_short_gets_no_credit :
  match @iteration Sample.decls true true 2048 Sample.long_cut_short with
  | Break c =>
      dataBytes (c_stats c) = 290 /\ numBlocks (c_stats c) = 0 /\
      effectiveDataBytes (c_stats c) = 0 /\ failedAttempts (c_stats c) = 1 /\
      incoming (c_sock c) = []
  | _ => False
  end.
Proof. vm_compute. repeat split; reflexivity. Qed.
